(** * S3 snapshot store of k3s: [pkg/etcd/s3.go]

    A shallow embedding of the S3 snapshot repository of k3s
    ([NewS3], [upload], [Download], [snapshotRetention], [listSnapshots],
    [setTransportCA], [isValidCertificate], [bucketLookupType]) together
    with the properties its specification states about it.

    Go strings are byte strings and are embedded as [string]; Go's [int]
    and [int64] are embedded as [Z]; an [error] is embedded as its text
    ([nil] is [None]).  The object store, the local file system and the
    process-wide [http.DefaultTransport] form an explicit [World] that
    every operation threads through. *)

From Stdlib Require Import ZArith Ascii String List Bool Lia Permutation Sorting.
From stdpp Require Import base option list gmap strings sorting.

Local Open Scope string_scope.
Local Open Scope Z_scope.
Local Open Scope list_scope.

(** ** Go strings *)

Module GoString.

Definition bytes (s : string) : list ascii := list_ascii_of_string s.
Definition str (l : list ascii) : string := string_of_list_ascii l.

(** [len(s)] *)
Definition len (s : string) : nat := length (bytes s).

(** [s[i]], defined for [i < len(s)] *)
Definition byte_at (l : list ascii) (i : nat) : option ascii := l !! i.

Definition is_byte (o : option ascii) (c : ascii) : bool :=
  match o with Some x => Ascii.eqb x c | None => false end.

(** [strings.HasPrefix]:
    [len(s) >= len(prefix) && s[:len(prefix)] == prefix] *)
Definition HasPrefix (s prefix : string) : bool :=
  (len prefix <=? len s)%nat
  && bool_decide (take (len prefix) (bytes s) = bytes prefix).

(** [strings.HasSuffix]:
    [len(s) >= len(suffix) && s[len(s)-len(suffix):] == suffix] *)
Definition HasSuffix (s suffix : string) : bool :=
  (len suffix <=? len s)%nat
  && bool_decide (drop (len s - len suffix) (bytes s) = bytes suffix).

(** [strings.CutSuffix] *)
Definition CutSuffix (s suffix : string) : string * bool :=
  if HasSuffix s suffix
  then (str (take (len s - len suffix) (bytes s)), true)
  else (s, false).

(** [strings.LastIndexByte]: the loop
    [for i := len(s) - 1; i >= 0; i-- { if s[i] == c { return i } }; return -1],
    with [n] the number of indices still to visit. *)
Fixpoint lastIndexByte_loop (l : list ascii) (c : ascii) (n : nat) : Z :=
  match n with
  | O => -1
  | S i => if is_byte (byte_at l i) c then Z.of_nat i else lastIndexByte_loop l c i
  end.

Definition LastIndexByte (s : string) (c : ascii) : Z :=
  lastIndexByte_loop (bytes s) c (len s).

(** [strings.Index], as the position of the first occurrence found by a
    left-to-right scan; [-1] when there is none. *)
Fixpoint index_from (l sub : list ascii) (i : Z) : Z :=
  if bool_decide (take (length sub) l = sub) then i
  else match l with
       | [] => -1
       | _ :: l' => index_from l' sub (i + 1)
       end.

Definition Index (s substr : string) : Z :=
  index_from (bytes s) (bytes substr) 0.

(** [strings.Contains]: [Index(s, substr) >= 0] *)
Definition Contains (s substr : string) : bool := 0 <=? Index s substr.

(** [s[i:]] for [0 <= i <= len(s)] *)
Definition slice_from (s : string) (i : Z) : string :=
  str (drop (Z.to_nat i) (bytes s)).

(** The comparison of [s] with the empty string *)
Definition is_empty (s : string) : bool := bool_decide (s = EmptyString).

End GoString.

(** ** Go's [path] package (and [path/filepath] on a Unix host, where the
    separator is the slash and there are no volume names) *)

Module GoPath.
Import GoString.

Definition slash : ascii := "/"%char.
Definition dot : ascii := "."%char.

(** The inner loop of the [..] case of [Clean]:
    [for out.w > dotdot && out.index(out.w) != '/' { out.w-- }],
    returning the final [out.w]. *)
Fixpoint backtrack (out : list ascii) (dotdot w : nat) : nat :=
  match w with
  | O => O
  | S w' =>
      if (dotdot <? w)%nat && negb (is_byte (byte_at out w) slash)
      then backtrack out dotdot w'
      else w
  end.

(** The copy loop of a real path element,
    [for ; r < n && path[r] != '/'; r++ { out.append(path[r]) }]:
    the bytes of [p] up to the next slash. *)
Fixpoint element (p : list ascii) : list ascii :=
  match p with
  | [] => []
  | c :: p' => if Ascii.eqb c slash then [] else c :: element p'
  end.

(** The main loop of [Clean], [for r < n { switch ... }].  [out] is the
    written part of the lazy buffer ([out.w] is its length); every
    iteration advances [r], so [fuel = n] iterations suffice. *)
Fixpoint clean_loop (fuel : nat) (p : list ascii) (rooted : bool)
    (r : nat) (out : list ascii) (dotdot : nat) : list ascii :=
  match fuel with
  | O => out
  | S fuel' =>
      let n := length p in
      if negb (r <? n)%nat then out
      else if is_byte (byte_at p r) slash then
        (* empty path element *)
        clean_loop fuel' p rooted (r + 1) out dotdot
      else if is_byte (byte_at p r) dot
              && ((r + 1 =? n)%nat || is_byte (byte_at p (r + 1)) slash) then
        (* . element *)
        clean_loop fuel' p rooted (r + 1) out dotdot
      else if is_byte (byte_at p r) dot && is_byte (byte_at p (r + 1)) dot
              && ((r + 2 =? n)%nat || is_byte (byte_at p (r + 2)) slash) then
        (* .. element: remove to last / *)
        if (dotdot <? length out)%nat then
          (* can backtrack *)
          clean_loop fuel' p rooted (r + 2)
            (take (backtrack out dotdot (length out - 1)) out) dotdot
        else if negb rooted then
          (* cannot backtrack, but not rooted, so append .. element *)
          let out1 := if (0 <? length out)%nat then out ++ [slash] else out in
          let out2 := out1 ++ [dot; dot] in
          clean_loop fuel' p rooted (r + 2) out2 (length out2)
        else clean_loop fuel' p rooted (r + 2) out dotdot
      else
        (* real path element: add slash if needed, copy element *)
        let w := length out in
        let out1 :=
          if (rooted && negb (w =? 1)%nat) || (negb rooted && negb (w =? 0)%nat)
          then out ++ [slash] else out in
        let elem := element (drop r p) in
        clean_loop fuel' p rooted (r + length elem) (out1 ++ elem) dotdot
  end.

(** [path.Clean] *)
Definition Clean (path : string) : string :=
  if is_empty path then "."
  else
    let p := bytes path in
    let rooted := is_byte (byte_at p 0) slash in
    let out :=
      if rooted then clean_loop (length p) p rooted 1 [slash] 1
      else clean_loop (length p) p rooted 0 [] 0 in
    if (length out =? 0)%nat then "." else str out.

(** The loop of [Join] that appends the non-empty elements to [buf],
    separated by slashes. *)
Fixpoint join_loop (elem : list string) (buf : list ascii) : list ascii :=
  match elem with
  | [] => buf
  | e :: rest =>
      if (0 <? length buf)%nat || negb (is_empty e)
      then join_loop rest
             ((if (0 <? length buf)%nat then buf ++ [slash] else buf) ++ bytes e)
      else join_loop rest buf
  end.

(** [path.Join] *)
Definition Join (elem : list string) : string :=
  let size := sum_list (len <$> elem) in
  if (size =? 0)%nat then EmptyString
  else Clean (str (join_loop elem [])).

(** The loop of [Base] that strips trailing slashes:
    [for len(path) > 0 && path[len(path)-1] == '/' { path = path[0 : len(path)-1] }],
    returning the remaining length. *)
Fixpoint strip_trailing (p : list ascii) (n : nat) : nat :=
  match n with
  | O => O
  | S i => if is_byte (byte_at p i) slash then strip_trailing p i else n
  end.

(** [path.Base] *)
Definition Base (path : string) : string :=
  if is_empty path then "."
  else
    let p := bytes path in
    let p1 := take (strip_trailing p (length p)) p in
    let i := lastIndexByte_loop p1 slash (length p1) in
    let p2 := if 0 <=? i then drop (Z.to_nat (i + 1)) p1 else p1 in
    if (length p2 =? 0)%nat then "/" else str p2.

End GoPath.

(** [path/filepath] on a Unix host: the separator is the slash, there are
    no volume names, and [Base] and [Clean] are those of [path]. *)
Module GoFilepath.
Import GoString.

Definition Base := GoPath.Base.

(** [strings.Join(elems, "/")] *)
Fixpoint joined (elems : list string) : list ascii :=
  match elems with
  | [] => []
  | [e] => bytes e
  | e :: rest => bytes e ++ GoPath.slash :: joined rest
  end.

(** [filepath.Join]: from the first element that is not empty on, the
    elements are joined with the separator and the result is cleaned. *)
Fixpoint Join (elem : list string) : string :=
  match elem with
  | [] => EmptyString
  | e :: rest =>
      if negb (is_empty e) then GoPath.Clean (str (joined elem))
      else Join rest
  end.

End GoFilepath.

(** ** [strconv.ParseInt(s, 10, 64)] *)

Module Strconv.
Import GoString.

Inductive NumError := ErrSyntax | ErrRange.

Definition maxUint64 : Z := 2 ^ 64 - 1.

Definition code (c : ascii) : Z := Z.of_N (N_of_ascii c).

(** The loop of [ParseUint] for base 10 and bit size 64.  A byte that is
    not a decimal digit is a syntax error (an underscore is accepted only
    for base 0, a letter is a digit above the base); [n >= cutoff] means
    that [n * 10] overflows, and [n1 < n] that the addition wrapped. *)
Fixpoint parseUint_loop (cs : list ascii) (n : Z) : Z * option NumError :=
  match cs with
  | [] => (n, None)
  | c :: cs' =>
      if (code "0" <=? code c) && (code c <=? code "9") then
        let d := code c - code "0" in
        let cutoff := maxUint64 / 10 + 1 in
        if cutoff <=? n then (maxUint64, Some ErrRange)
        else
          let n := n * 10 in
          let n1 := (n + d) mod 2 ^ 64 in
          if (n1 <? n) || (maxUint64 <? n1) then (maxUint64, Some ErrRange)
          else parseUint_loop cs' n1
      else (0, Some ErrSyntax)
  end.

Definition ParseUint (s : string) : Z * option NumError :=
  if is_empty s then (0, Some ErrSyntax)
  else parseUint_loop (bytes s) 0.

(** [ParseInt]: the leading sign is picked off, the rest is converted
    unsigned and checked against the range of [int64]. *)
Definition ParseInt (s : string) : Z * option NumError :=
  match bytes s with
  | [] => (0, Some ErrSyntax)
  | c0 :: rest =>
      let neg := Ascii.eqb c0 "-" in
      let s1 := if Ascii.eqb c0 "+" || neg then str rest else s in
      let '(un, err) := ParseUint s1 in
      match err with
      | Some ErrSyntax => (0, Some ErrSyntax)
      | _ =>
          let cutoff := 2 ^ 63 in
          if negb neg && (cutoff <=? un) then (cutoff - 1, Some ErrRange)
          else if neg && (cutoff <? un) then (- cutoff, Some ErrRange)
          else (if neg then - un else un, None)
      end
  end.

End Strconv.

(** ** [base64.StdEncoding.EncodeToString] *)

Module Base64.
Import GoString.

Definition encodeStd : string :=
  "ABCDEFGHIJKLMNOPQRSTUVWXYZabcdefghijklmnopqrstuvwxyz0123456789+/".

Definition padChar : ascii := "="%char.

(** [enc.encode[v & 0x3F]] *)
Definition enc (v : Z) : ascii :=
  nth (Z.to_nat (Z.land v 63)) (bytes encodeStd) padChar.

Definition byte (c : ascii) : Z := Z.of_N (N_of_ascii c).

(** [Encode]: every three source bytes give four digits; a remainder of
    one or two bytes is encoded and padded. *)
Fixpoint encode (src : list ascii) : list ascii :=
  match src with
  | [] => []
  | [a] =>
      let val := Z.shiftl (byte a) 16 in
      [enc (Z.shiftr val 18); enc (Z.shiftr val 12); padChar; padChar]
  | [a; b] =>
      let val := Z.lor (Z.shiftl (byte a) 16) (Z.shiftl (byte b) 8) in
      [enc (Z.shiftr val 18); enc (Z.shiftr val 12); enc (Z.shiftr val 6);
       padChar]
  | a :: b :: c :: rest =>
      let val :=
        Z.lor (Z.lor (Z.shiftl (byte a) 16) (Z.shiftl (byte b) 8)) (byte c) in
      enc (Z.shiftr val 18) :: enc (Z.shiftr val 12) :: enc (Z.shiftr val 6)
        :: enc val :: encode rest
  end.

Definition EncodeToString (src : string) : string := str (encode (bytes src)).

End Base64.

(** ** [time.Time], to the nanosecond *)

Module GoTime.

Record Time := { sec : Z; nsec : Z }.

(** [t.Before(u)] *)
Definition Before (t u : Time) : bool :=
  (sec t <? sec u) || ((sec t =? sec u) && (nsec t <? nsec u)).

(** [t.Unix()]: the seconds elapsed since the epoch *)
Definition Unix (t : Time) : Z := sec t.

(** [time.Unix(s, 0)] *)
Definition ofUnix (s : Z) : Time := {| sec := s; nsec := 0 |}.

#[global] Instance Time_eq_dec : EqDecision Time.
Proof. solve_decision. Defined.

End GoTime.

(** ** Data model *)

Import GoString GoTime.

(** An [error] value is its text; [nil] is [None]. *)
Definition error : Type := string.

(** The fields of [config.Control] that [s3.go] reads or writes.  (The
    struct is declared in [pkg/daemons/config].) *)
Record Control := {
  EtcdS3 : bool;
  EtcdS3BucketName : string;
  EtcdS3Endpoint : string;
  EtcdS3EndpointCA : string;
  EtcdS3SkipSSLVerify : bool;
  EtcdS3AccessKey : string;
  EtcdS3SecretKey : string;
  EtcdS3Insecure : bool;
  EtcdS3Region : string;
  EtcdS3Folder : string;
  EtcdS3Timeout : Z;
  EtcdSnapshotName : string;
  EtcdSnapshotRetention : Z;
  ClusterResetRestorePath : string
}.

(** [s.config.ClusterResetRestorePath = p] *)
Definition set_ClusterResetRestorePath (p : string) (c : Control) : Control :=
  {| EtcdS3 := EtcdS3 c;
     EtcdS3BucketName := EtcdS3BucketName c;
     EtcdS3Endpoint := EtcdS3Endpoint c;
     EtcdS3EndpointCA := EtcdS3EndpointCA c;
     EtcdS3SkipSSLVerify := EtcdS3SkipSSLVerify c;
     EtcdS3AccessKey := EtcdS3AccessKey c;
     EtcdS3SecretKey := EtcdS3SecretKey c;
     EtcdS3Insecure := EtcdS3Insecure c;
     EtcdS3Region := EtcdS3Region c;
     EtcdS3Folder := EtcdS3Folder c;
     EtcdS3Timeout := EtcdS3Timeout c;
     EtcdSnapshotName := EtcdSnapshotName c;
     EtcdSnapshotRetention := EtcdSnapshotRetention c;
     ClusterResetRestorePath := p |}.

(** [minio.BucketLookupType] *)
Inductive BucketLookupType :=
  | BucketLookupAuto   (* detected from the endpoint *)
  | BucketLookupDNS    (* virtual-host style: the bucket is part of the host *)
  | BucketLookupPath.  (* path style: the bucket is part of the path *)

(** [credentials.NewIAM] and [credentials.NewStaticV4] *)
Inductive Credentials :=
  | NewIAM (endpoint : string)
  | NewStaticV4 (id secret token : string).

(** [tls.Config], with the two fields that are set; [RootCAs] holds the PEM
    bytes the pool was filled from. *)
Record TLSConfig := {
  RootCAs : option (list ascii);
  InsecureSkipVerify : bool
}.

(** [minio.Options]; its [Transport] is always [http.DefaultTransport],
    whose TLS configuration lives in the [World]. *)
Record Options := {
  Creds : Credentials;
  Secure : bool;
  Region : string;
  BucketLookup : BucketLookupType
}.

(** [minio.Client] *)
Record Client := { endpoint : string; options : Options }.

(** [type S3 struct { config *config.Control; client *minio.Client }] *)
Record S3 := { config : Control; client : Client }.

(** Modelled from the spec: the constants [successfulSnapshotStatus] and
    [failedSnapshotStatus] are declared in another file of package [etcd];
    the spec gives a record the outcome status success or failed. *)
Inductive snapshotStatus := successfulSnapshotStatus | failedSnapshotStatus.

(** Modelled from the spec: the constant [compressedExtension] is declared
    in another file of package [etcd]; it is the one recognised
    compressed-archive extension, and the scenario of the spec classifies
    [snapshot-20240101.zip] as compressed. *)
Definition compressedExtension : string := ".zip".

(** [s3Config], the copy of the storage configuration kept in a record *)
Record s3Config := {
  Endpoint : string;
  EndpointCA : string;
  SkipSSLVerify : bool;
  Bucket : string;
  s3Region : string;
  Folder : string;
  Insecure : bool
}.

(** [v1.ConfigMap], of which only the data matters here *)
Definition ConfigMap : Type := list (string * string).

(** [snapshotFile], with the fields [s3.go] sets.  (The struct is declared
    elsewhere in package [etcd]; [Status] is an option because the zero
    value of the Go field is neither outcome.) *)
Record snapshotFile := {
  Name : string;
  NodeName : string;
  CreatedAt : Time;
  Size : Z;
  S3cfg : s3Config;
  Status : option snapshotStatus;
  Message : string;
  Compressed : bool;
  metadataSource : option ConfigMap
}.

(** The [s3Config] literal that [upload] and [listSnapshots] both build *)
Definition s3Config_of (c : Control) : s3Config :=
  {| Endpoint := EtcdS3Endpoint c;
     EndpointCA := EtcdS3EndpointCA c;
     SkipSSLVerify := EtcdS3SkipSSLVerify c;
     Bucket := EtcdS3BucketName c;
     s3Region := EtcdS3Region c;
     Folder := EtcdS3Folder c;
     Insecure := EtcdS3Insecure c |}.

(** ** The world outside the program *)

(** An object stored in the bucket *)
Record Object := {
  objKey : string;
  objData : list ascii;
  objContentType : string;
  objLastModified : Time
}.

(** [minio.ObjectInfo], as sent on the channel of [ListObjects] *)
Record ObjectInfo := {
  Key : string;
  oiSize : Z;
  LastModified : Time;
  Err : option error
}.

(** A local file *)
Record File := { content : list ascii; mode : Z }.

(** The calls that leave the process, in the order they are made *)
Inductive Call :=
  | CallReadFile (name : string)
  | CallNew (endpoint : string) (opts : Options)
  | CallBucketExists (bucket : string)
  | CallFPutObject (bucket key filePath contentType : string) (numThreads : Z)
  | CallStatObject (bucket key : string)
  | CallListObjects (bucket prefix : string) (recursive : bool)
  | CallRemoveObject (bucket key : string).

(** What can go wrong outside the program *)
Record Faults := {
  newFault : string -> option error;             (* [minio.New] rejects the endpoint *)
  bucketExistsResult : string -> error + bool;   (* the answer of [BucketExists] *)
  putFault : string -> option error;             (* the transfer to a key fails *)
  getObjectCheck : string -> string -> option error;
                                                 (* [GetObject] rejects bucket or key *)
  statFault : string -> option error;            (* the request for a key fails *)
  copyFault : option (nat * error);              (* the copy stops after so many bytes *)
  createFault : string -> option error;          (* [os.Create] fails *)
  chmodFault : string -> option error;           (* [os.Chmod] fails *)
  listFault : option (nat * error);              (* the listing fails after so many items *)
  removeFault : string -> option error           (* the removal of a key fails *)
}.

Record World := {
  tlsClientConfig : option TLSConfig;
      (* the [TLSClientConfig] of [http.DefaultTransport] *)
  objects : list Object;       (* the objects of the bucket, in listing order *)
  files : gmap string File;    (* the local file system *)
  clock : Time;                (* the store's clock *)
  calls : list Call;
  faults : Faults
}.

Definition set_tls (t : option TLSConfig) (w : World) : World :=
  {| tlsClientConfig := t; objects := objects w; files := files w;
     clock := clock w; calls := calls w; faults := faults w |}.

Definition set_objects (os : list Object) (w : World) : World :=
  {| tlsClientConfig := tlsClientConfig w; objects := os; files := files w;
     clock := clock w; calls := calls w; faults := faults w |}.

Definition set_files (fs : gmap string File) (w : World) : World :=
  {| tlsClientConfig := tlsClientConfig w; objects := objects w; files := fs;
     clock := clock w; calls := calls w; faults := faults w |}.

Definition log (c : Call) (w : World) : World :=
  {| tlsClientConfig := tlsClientConfig w; objects := objects w;
     files := files w; clock := clock w; calls := calls w ++ [c];
     faults := faults w |}.

(** ** The libraries the program calls *)

(** Library routines that are only known by their contract. *)
Class Libraries := {
  (** [sort.Slice(x, less)], with [less] read on the elements *)
  sort_Slice : forall {A : Type}, (A -> A -> bool) -> list A -> list A;
  (** [base64.StdEncoding.DecodeString]; [None] is a decoding error *)
  base64_DecodeString : string -> option (list ascii);
  (** [pem.Decode]: the bytes of the first PEM block, if there is one *)
  pem_Decode : list ascii -> option (list ascii);
  (** [x509.ParseCertificates]: its error, if any *)
  x509_ParseCertificates : list ascii -> option error
}.

(** The functions of package [etcd] that [s3.go] calls and that are
    declared in its other files. *)
Class Package := {
  generateSnapshotConfigMapKey : snapshotFile -> string;
  snapshotDir : Control -> bool -> World -> (error + string) * World
}.

(** *** The file system: package [os] and [io.CopyN] *)

Module OS.

Definition ReadFile (name : string) (w : World) : (error + list ascii) * World :=
  let w := log (CallReadFile name) w in
  match files w !! name with
  | Some f => (inr (content f), w)
  | None => (inl ("open " +:+ name +:+ ": no such file or directory"), w)
  end.

(** [os.Create]: the file is created with mode 0666 (before umask) or,
    if it exists, truncated. *)
Definition Create (name : string) (w : World) : option error * World :=
  match createFault (faults w) name with
  | Some e => (Some e, w)
  | None =>
      let m := match files w !! name with Some f => mode f | None => 438 end in
      (None, set_files (<[name := {| content := []; mode := m |}]> (files w)) w)
  end.

Definition Chmod (name : string) (m : Z) (w : World) : option error * World :=
  match chmodFault (faults w) name with
  | Some e => (Some e, w)
  | None =>
      match files w !! name with
      | Some f =>
          (None, set_files (<[name := {| content := content f; mode := m |}]> (files w)) w)
      | None =>
          (Some ("chmod " +:+ name +:+ ": no such file or directory"), w)
      end
  end.

(** [io.CopyN(dst, src, n)] into the open file [name] *)
Definition CopyN (name : string) (src : list ascii) (n : Z) (w : World)
    : option error * World :=
  let write (data : list ascii) :=
    let m := match files w !! name with Some f => mode f | None => 438 end in
    set_files (<[name := {| content := data; mode := m |}]> (files w)) w in
  match copyFault (faults w) with
  | Some (k, e) => (Some e, write (take k (take (Z.to_nat n) src)))
  | None =>
      if (Z.of_nat (length src) <? n) then (Some "EOF", write src)
      else (None, write (take (Z.to_nat n) src))
  end.

End OS.

(** *** The object store: package [minio] *)

Module Minio.

Record ListObjectsOptions := { Prefix : string; Recursive : bool }.

Record UploadInfo := { uiSize : Z }.

(** The handle [GetObject] returns *)
Record ObjectHandle := { hBucket : string; hKey : string }.

Definition New (endpoint : string) (opts : Options) (w : World)
    : (error + Client) * World :=
  let w := log (CallNew endpoint opts) w in
  match newFault (faults w) endpoint with
  | Some e => (inl e, w)
  | None => (inr {| endpoint := endpoint; options := opts |}, w)
  end.

Definition BucketExists (bucket : string) (w : World) : (error + bool) * World :=
  let w := log (CallBucketExists bucket) w in
  (bucketExistsResult (faults w) bucket, w).

Definition info_of (o : Object) : ObjectInfo :=
  {| Key := objKey o; oiSize := Z.of_nat (length (objData o));
     LastModified := objLastModified o; Err := None |}.

Definition under (prefix : string) (o : Object) : bool :=
  HasPrefix (objKey o) prefix.

(** What follows the prefix in the key of an object under it *)
Definition after_prefix (prefix : string) (o : Object) : list ascii :=
  drop (len prefix) (bytes (objKey o)).

Definition has_delimiter (l : list ascii) : bool :=
  existsb (fun c => Ascii.eqb c GoPath.slash) l.

(** The common prefix that stands for the keys going through a
    delimiter: the key up to and including the first slash after the
    prefix.  It is listed as an entry of size 0. *)
Definition common_prefix (prefix : string) (o : Object) : string :=
  str (bytes prefix ++ GoPath.element (after_prefix prefix o) ++ [GoPath.slash]).

Definition prefix_info (p : string) : ObjectInfo :=
  {| Key := p; oiSize := 0; LastModified := {| sec := 0; nsec := 0 |};
     Err := None |}.

(** The entries of a listing.  A recursive listing has every object whose
    key starts with the prefix.  A listing that is not recursive uses the
    slash as delimiter: it has the objects whose key has no slash after
    the prefix, then one common prefix for the others. *)
Definition entries (opts : ListObjectsOptions) (os : list Object)
    : list ObjectInfo :=
  let matching := filter (fun o => under (Prefix opts) o = true) os in
  if Recursive opts then info_of <$> matching
  else
    (info_of <$>
       filter (fun o => has_delimiter (after_prefix (Prefix opts) o) = false)
         matching)
    ++ (prefix_info <$>
          remove_dups
            (common_prefix (Prefix opts) <$>
               filter (fun o => has_delimiter (after_prefix (Prefix opts) o) = true)
                 matching)).

Definition error_info (e : error) : ObjectInfo :=
  {| Key := EmptyString; oiSize := 0; LastModified := {| sec := 0; nsec := 0 |};
     Err := Some e |}.

(** [ListObjects]: the items sent on the channel until it is closed.  A
    failing listing sends an item that carries the error, and stops. *)
Definition ListObjects (bucket : string) (opts : ListObjectsOptions) (w : World)
    : list ObjectInfo * World :=
  let w := log (CallListObjects bucket (Prefix opts) (Recursive opts)) w in
  let items := entries opts (objects w) in
  (match listFault (faults w) with
   | Some (n, e) => take n items ++ [error_info e]
   | None => items
   end, w).

(** [RemoveObject]; removing a key that is not there succeeds. *)
Definition RemoveObject (bucket key : string) (w : World) : option error * World :=
  let w := log (CallRemoveObject bucket key) w in
  match removeFault (faults w) key with
  | Some e => (Some e, w)
  | None =>
      (None, set_objects (filter (fun o => objKey o ≠ key) (objects w)) w)
  end.

(** The store keeps its keys in order; an object put under an existing
    key replaces it. *)
Fixpoint put (o : Object) (os : list Object) : list Object :=
  match os with
  | [] => [o]
  | x :: os' =>
      if String.eqb (objKey x) (objKey o) then o :: os'
      else if String.ltb (objKey o) (objKey x) then o :: x :: os'
      else x :: put o os'
  end.

(** [FPutObject]: the local file is sent to the key. *)
Definition FPutObject (bucket key filePath contentType : string)
    (numThreads : Z) (w : World) : (error + UploadInfo) * World :=
  let w := log (CallFPutObject bucket key filePath contentType numThreads) w in
  match files w !! filePath with
  | None => (inl ("stat " +:+ filePath +:+ ": no such file or directory"), w)
  | Some f =>
      match putFault (faults w) key with
      | Some e => (inl e, w)
      | None =>
          let o := {| objKey := key; objData := content f;
                      objContentType := contentType;
                      objLastModified := clock w |} in
          (inr {| uiSize := Z.of_nat (length (content f)) |},
           set_objects (put o (objects w)) w)
      end
  end.

(** [GetObject] checks the names and returns a handle; it sends nothing.
    The request is made by the first [Stat] or read of the handle, which
    is where a missing key shows. *)
Definition GetObject (bucket key : string) (w : World)
    : (error + ObjectHandle) * World :=
  match getObjectCheck (faults w) bucket key with
  | Some e => (inl e, w)
  | None => (inr {| hBucket := bucket; hKey := key |}, w)
  end.

(** The method [Stat] of the handle *)
Definition Stat (r : ObjectHandle) (w : World) : (error + Object) * World :=
  let w := log (CallStatObject (hBucket r) (hKey r)) w in
  match statFault (faults w) (hKey r) with
  | Some e => (inl e, w)
  | None =>
      match list_find (fun o => objKey o = hKey r) (objects w) with
      | Some (_, o) => (inr o, w)
      | None => (inl "The specified key does not exist.", w)
      end
  end.

End Minio.

(** ** The program: [s3.go] *)

Section Program.
Context {lib : Libraries} {pkg : Package}.

Definition bucketLookupType (endpoint : string) : BucketLookupType :=
  if Contains endpoint "aliyun" (* backwards compt with RKE1 *)
  then BucketLookupDNS
  else BucketLookupAuto.

(** [isValidCertificate] checks to see if the given byte slice is a valid
    x509 certificate. *)
Definition isValidCertificate (c : list ascii) : bool :=
  match pem_Decode c with
  | None => false
  | Some p =>
      match x509_ParseCertificates p with
      | Some _ => false
      | None => true
      end
  end.

Definition readS3EndpointCA (endpointCA : string) (w : World)
    : (error + list ascii) * World :=
  match base64_DecodeString endpointCA with
  | None => OS.ReadFile endpointCA w
  | Some ca => (inr ca, w)
  end.

Definition invalidCertificate : error :=
  "endpoint-ca is not a valid x509 certificate".

(** [setTransportCA]; the transport it is given, changes and returns is
    [http.DefaultTransport]. *)
Definition setTransportCA (endpointCA : string) (insecureSkipVerify : bool)
    (w : World) : option error * World :=
  match readS3EndpointCA endpointCA w with
  | (inl err, w) => (Some err, w)
  | (inr ca, w) =>
      if negb (isValidCertificate ca) then (Some invalidCertificate, w)
      else
        (None,
         set_tls (Some {| RootCAs := Some ca;
                          InsecureSkipVerify := insecureSkipVerify |}) w)
  end.

Definition bucketNameNotSet : error := "s3 bucket name was not set".

(** The [switch] of [NewS3] that prepares the transport *)
Definition prepareTransport (config : Control) (w : World) : option error * World :=
  if negb (is_empty (EtcdS3EndpointCA config)) then
    setTransportCA (EtcdS3EndpointCA config) (EtcdS3SkipSSLVerify config) w
  else if EtcdS3 config && EtcdS3SkipSSLVerify config then
    (None,
     set_tls (Some {| RootCAs := None;
                      InsecureSkipVerify := EtcdS3SkipSSLVerify config |}) w)
  else (None, w).

(** [NewS3] creates a new value of type s3 pointer with a copy of the
    config.Control pointer and initializes a new Minio client. *)
Definition NewS3 (config : Control) (w : World) : (error + S3) * World :=
  if is_empty (EtcdS3BucketName config) then (inl bucketNameNotSet, w)
  else
    match prepareTransport config w with
    | (Some err, w) => (inl err, w)
    | (None, w) =>
        let creds :=
          if (len (EtcdS3AccessKey config) =? 0)%nat
             && (len (EtcdS3SecretKey config) =? 0)%nat
          then NewIAM EmptyString (* for running on ec2 instance *)
          else NewStaticV4 (EtcdS3AccessKey config) (EtcdS3SecretKey config)
                 EmptyString in
        let opt :=
          {| Creds := creds;
             Secure := negb (EtcdS3Insecure config);
             Region := EtcdS3Region config;
             BucketLookup := bucketLookupType (EtcdS3Endpoint config) |} in
        match Minio.New (EtcdS3Endpoint config) opt w with
        | (inl err, w) => (inl err, w)
        | (inr c, w) =>
            match Minio.BucketExists (EtcdS3BucketName config) w with
            | (inl err, w) => (inl err, w)
            | (inr exists_, w) =>
                if negb exists_ then
                  (inl ("bucket: " +:+ EtcdS3BucketName config +:+ " does not exist"),
                   w)
                else (inr {| config := config; client := c |}, w)
            end
        end
    end.

(** [upload] uploads the given snapshot to the configured S3 compatible
    backend.  It returns the record together with the error. *)
Definition upload (s : S3) (snapshot : string) (extraMetadata : option ConfigMap)
    (now : Time) (w : World) : (snapshotFile * option error) * World :=
  let basename := GoFilepath.Base snapshot in
  let snapshotKey := GoPath.Join [EtcdS3Folder (config s); basename] in
  let compressed := HasSuffix snapshot compressedExtension in
  let contentType :=
    if compressed then "application/zip" else "application/octet-stream" in
  let sf (status : snapshotStatus) (message : string) (size : Z) :=
    {| Name := basename;
       NodeName := "s3";
       CreatedAt := now;
       Size := size;
       S3cfg := s3Config_of (config s);
       Status := Some status;
       Message := message;
       Compressed := compressed;
       metadataSource := extraMetadata |} in
  match Minio.FPutObject (EtcdS3BucketName (config s)) snapshotKey snapshot
          contentType 2 w with
  | (inl err, w) =>
      ((sf failedSnapshotStatus (Base64.EncodeToString err) 0, Some err), w)
  | (inr uploadInfo, w) =>
      ((sf successfulSnapshotStatus EmptyString (Minio.uiSize uploadInfo), None), w)
  end.

(** [Download] downloads the given snapshot from the configured S3
    compatible backend.  It may change [s.config]. *)
Definition Download (s : S3) (w : World) : option error * S3 * World :=
  let cfg := config s in
  let snapshotKey :=
    GoPath.Join [EtcdS3Folder cfg; ClusterResetRestorePath cfg] in
  match Minio.GetObject (EtcdS3BucketName cfg) snapshotKey w with
  | (inl _, w) => (None, s, w)
  | (inr r, w) =>
      match snapshotDir cfg true w with
      | (inl err, w) =>
          (Some ("failed to get the snapshot dir: " +:+ err), s, w)
      | (inr dir, w) =>
          let fullSnapshotPath :=
            GoFilepath.Join [dir; ClusterResetRestorePath cfg] in
          match OS.Create fullSnapshotPath w with
          | (Some err, w) => (Some err, s, w)
          | (None, w) =>
              match Minio.Stat r w with
              | (inl err, w) => (Some err, s, w)
              | (inr stat, w) =>
                  match OS.CopyN fullSnapshotPath (objData stat)
                          (Z.of_nat (length (objData stat))) w with
                  | (Some err, w) => (Some err, s, w)
                  | (None, w) =>
                      let s' :=
                        {| config := set_ClusterResetRestorePath fullSnapshotPath cfg;
                           client := client s |} in
                      let '(err, w) := OS.Chmod fullSnapshotPath 384 w in
                      (err, s', w)
                  end
              end
          end
      end
  end.

(** [snapshotPrefix] returns the prefix used in the naming of the
    snapshots. *)
Definition snapshotPrefix (s : S3) : string :=
  GoPath.Join [EtcdS3Folder (config s); EtcdSnapshotName (config s)].

(** The loop over the channel of [ListObjects] in [snapshotRetention] *)
Fixpoint collect (items snapshotFiles : list ObjectInfo)
    : error + list ObjectInfo :=
  match items with
  | [] => inr snapshotFiles
  | info :: items' =>
      match Err info with
      | Some e => inl e
      | None => collect items' (snapshotFiles ++ [info])
      end
  end.

(** [less] of the sort: newest first *)
Definition newestFirst (a b : ObjectInfo) : bool :=
  Before (LastModified b) (LastModified a).

(** The loop that removes the entries past the retention count *)
Fixpoint remove_loop (bucket : string) (dfs : list ObjectInfo) (w : World)
    : option error * World :=
  match dfs with
  | [] => (None, w)
  | df :: dfs' =>
      match Minio.RemoveObject bucket (Key df) w with
      | (Some err, w) => (Some err, w)
      | (None, w) => remove_loop bucket dfs' w
      end
  end.

(** [snapshotRetention] prunes snapshots in the configured S3 compatible
    backend for this specific node. *)
Definition snapshotRetention (s : S3) (w : World) : option error * World :=
  let cfg := config s in
  if EtcdSnapshotRetention cfg <? 1 then (None, w)
  else
    let loo := {| Minio.Recursive := true; Minio.Prefix := snapshotPrefix s |} in
    let '(items, w) := Minio.ListObjects (EtcdS3BucketName cfg) loo w in
    match collect items [] with
    | inl err => (Some err, w)
    | inr snapshotFiles =>
        if Z.of_nat (length snapshotFiles) <=? EtcdSnapshotRetention cfg
        then (None, w)
        else
          (* sort newest-first so we can prune entries past the retention count *)
          let sorted := sort_Slice newestFirst snapshotFiles in
          remove_loop (EtcdS3BucketName cfg)
            (drop (Z.to_nat (EtcdSnapshotRetention cfg)) sorted) w
    end.

(** The record [listSnapshots] builds for one object *)
Definition listed (cfg : Control) (obj : ObjectInfo) : snapshotFile :=
  let filename := GoPath.Base (Key obj) in
  let '(basename, compressed) := CutSuffix filename compressedExtension in
  let '(parsed, err) :=
    Strconv.ParseInt (slice_from basename (LastIndexByte basename "-" + 1)) in
  let ts := match err with
            | Some _ => Unix (LastModified obj)
            | None => parsed
            end in
  {| Name := filename;
     NodeName := "s3";
     CreatedAt := ofUnix ts;
     Size := oiSize obj;
     S3cfg := s3Config_of cfg;
     Status := Some successfulSnapshotStatus;
     Message := EmptyString;
     Compressed := compressed;
     metadataSource := None |}.

(** The loop over the channel of [ListObjects] in [listSnapshots] *)
Fixpoint list_loop (cfg : Control) (objs : list ObjectInfo)
    (snapshots : gmap string snapshotFile) : error + gmap string snapshotFile :=
  match objs with
  | [] => inr snapshots
  | obj :: objs' =>
      match Err obj with
      | Some e => inl e
      | None =>
          if oiSize obj =? 0 then list_loop cfg objs' snapshots
          else
            let sf := listed cfg obj in
            let sfKey := generateSnapshotConfigMapKey sf in
            list_loop cfg objs' (<[sfKey := sf]> snapshots)
      end
  end.

(** [listSnapshots] provides a list of currently stored snapshots in S3
    along with their relevant metadata. *)
Definition listSnapshots (s : S3) (w : World)
    : (error + gmap string snapshotFile) * World :=
  let cfg := config s in
  let loo :=
    if negb (is_empty (EtcdS3Folder cfg))
    then {| Minio.Prefix := EtcdS3Folder cfg; Minio.Recursive := true |}
    else {| Minio.Prefix := EmptyString; Minio.Recursive := false |} in
  let '(objs, w) := Minio.ListObjects (EtcdS3BucketName cfg) loo w in
  (list_loop cfg objs ∅, w).

End Program.

(** ** An instance of the libraries, to run the program on examples *)

Module Sample.

(** A sort by insertion *)
Fixpoint insert {A : Type} (less : A -> A -> bool) (x : A) (l : list A) : list A :=
  match l with
  | [] => [x]
  | y :: l' => if less x y then x :: l else y :: insert less x l'
  end.

Fixpoint insertion_sort {A : Type} (less : A -> A -> bool) (l : list A) : list A :=
  match l with
  | [] => []
  | x :: l' => insert less x (insertion_sort less l')
  end.

(** The value of a digit of the standard base64 alphabet *)
Fixpoint position (c : ascii) (alphabet : list ascii) (i : Z) : option Z :=
  match alphabet with
  | [] => None
  | a :: alphabet' =>
      if Ascii.eqb a c then Some i else position c alphabet' (i + 1)
  end.

Definition dec (c : ascii) : option Z := position c (bytes Base64.encodeStd) 0.

Definition chr (v : Z) : ascii := ascii_of_N (Z.to_N (Z.land v 255)).

(** A decoder of padded standard base64 (without line breaks) *)
Fixpoint decode (l : list ascii) : option (list ascii) :=
  match l with
  | [] => Some []
  | a :: b :: c :: d :: rest =>
      match dec a, dec b with
      | Some x, Some y =>
          let b1 := chr (Z.lor (Z.shiftl x 2) (Z.shiftr y 4)) in
          if Ascii.eqb c Base64.padChar then
            if Ascii.eqb d Base64.padChar && bool_decide (rest = [])
            then Some [b1] else None
          else
            match dec c with
            | Some z =>
                let b2 := chr (Z.lor (Z.shiftl y 4) (Z.shiftr z 2)) in
                if Ascii.eqb d Base64.padChar then
                  if bool_decide (rest = []) then Some [b1; b2] else None
                else
                  match dec d with
                  | Some u =>
                      let b3 := chr (Z.lor (Z.shiftl z 6) u) in
                      match decode rest with
                      | Some r => Some (b1 :: b2 :: b3 :: r)
                      | None => None
                      end
                  | None => None
                  end
            | None => None
            end
      | _, _ => None
      end
  | _ => None
  end.

Definition pemBegin : string := "-----BEGIN CERTIFICATE-----".
Definition pemEnd : string := "-----END CERTIFICATE-----".

(** A PEM block on three lines: the begin line, the base64 body, the end
    line *)
Definition pem_block (c : list ascii) : option (list ascii) :=
  let header := bytes pemBegin ++ ["010"%char] in
  if bool_decide (take (length header) c = header) then
    let rest := drop (length header) c in
    let footer := "010"%char :: bytes pemEnd in
    let i := index_from rest footer 0 in
    if 0 <=? i then decode (take (Z.to_nat i) rest) else None
  else None.

(** DER certificates are sequences: each starts with the byte 0x30. *)
Definition parse_der (der : list ascii) : option error :=
  match der with
  | [] => None
  | t :: _ =>
      if Ascii.eqb t "0" then None
      else Some "x509: malformed certificate"
  end.

#[export] Instance libraries : Libraries :=
  {| sort_Slice := @insertion_sort;
     base64_DecodeString := fun s => decode (bytes s);
     pem_Decode := pem_block;
     x509_ParseCertificates := parse_der |}.

(** The key of a record is made of its origin and its name; the snapshot
    directory is the configured one. *)
#[export] Instance package : Package :=
  {| generateSnapshotConfigMapKey := fun sf => NodeName sf +:+ "-" +:+ Name sf;
     snapshotDir := fun _ _ w => (inr "/var/lib/rancher/k3s/server/db/snapshots", w) |}.

Definition noFaults : Faults :=
  {| newFault := fun _ => None;
     bucketExistsResult := fun _ => inr true;
     putFault := fun _ => None;
     getObjectCheck := fun _ key =>
       if is_empty key then Some "Object name cannot be empty" else None;
     statFault := fun _ => None;
     copyFault := None;
     createFault := fun _ => None;
     chmodFault := fun _ => None;
     listFault := None;
     removeFault := fun _ => None |}.

Definition world (os : list Object) (fs : gmap string File) : World :=
  {| tlsClientConfig := None; objects := os; files := fs;
     clock := {| sec := 1704067200; nsec := 0 |}; calls := [];
     faults := noFaults |}.

Definition control_tls (bucket folder : string) (etcdS3 skipVerify : bool)
    (ca : string) : Control :=
  {| EtcdS3 := etcdS3;
     EtcdS3BucketName := bucket;
     EtcdS3Endpoint := "s3.example.com";
     EtcdS3EndpointCA := ca;
     EtcdS3SkipSSLVerify := skipVerify;
     EtcdS3AccessKey := EmptyString;
     EtcdS3SecretKey := EmptyString;
     EtcdS3Insecure := false;
     EtcdS3Region := "us-east-1";
     EtcdS3Folder := folder;
     EtcdS3Timeout := 30;
     EtcdSnapshotName := "etcd-snapshot";
     EtcdSnapshotRetention := 3;
     ClusterResetRestorePath := "etcd-snapshot-node1-1704067200" |}.

Definition control (bucket folder : string) : Control :=
  control_tls bucket folder true false EmptyString.

Definition handle (cfg : Control) : S3 :=
  {| config := cfg;
     client :=
       {| endpoint := EtcdS3Endpoint cfg;
          options :=
            {| Creds := NewIAM EmptyString;
               Secure := negb (EtcdS3Insecure cfg);
               Region := EtcdS3Region cfg;
               BucketLookup := bucketLookupType (EtcdS3Endpoint cfg) |} |} |}.

Definition object (key : string) (data : string) (t : Z) : Object :=
  {| objKey := key; objData := bytes data;
     objContentType := "application/octet-stream";
     objLastModified := {| sec := t; nsec := 0 |} |}.

End Sample.

(** ** Vocabulary of the specification *)

Section CertificateWords.
Context {lib : Libraries}.

(** A byte sequence is a well-formed certificate when it is PEM-decodable
    and the block parses as certificates. *)
Definition wellFormed (ca : list ascii) : Prop :=
  exists p, pem_Decode ca = Some p /\ x509_ParseCertificates p = None.

(** The bytes a custom CA value stands for: its base64 decoding or, when
    it is not base64, the contents of the file of that name. *)
Definition caBytes (value : string) (w : World) : option (list ascii) :=
  match base64_DecodeString value with
  | Some ca => Some ca
  | None => content <$> files w !! value
  end.

End CertificateWords.

(** A plain name: not empty, without a slash, and not starting with a
    dot. *)
Definition plain (l : list ascii) : Prop :=
  match l with
  | [] => False
  | c :: _ => c <> GoPath.dot /\ Forall (fun x => x <> GoPath.slash) l
  end.

(** The text that base64 produces: digits of the alphabet and padding *)
Definition base64_text (l : list ascii) : Prop :=
  Forall (fun c => c ∈ bytes Base64.encodeStd \/ c = Base64.padChar) l.

(** The part of a name that follows its last occurrence of [c]; the whole
    name when [c] does not occur. *)
Definition after_last (c : ascii) (l : list ascii) : list ascii :=
  fold_left (fun acc x => if Ascii.eqb x c then [] else acc ++ [x]) l [].

(** The trailing segment of the name of an object: what follows the last
    hyphen of its base name, the compressed-archive extension removed. *)
Definition trailing_segment (key : string) : list ascii :=
  after_last "-" (bytes (fst (CutSuffix (GoPath.Base key) compressedExtension))).

Definition is_digit (c : ascii) : bool :=
  (Strconv.code "0" <=? Strconv.code c) && (Strconv.code c <=? Strconv.code "9").

(** The number that decimal digits write, continuing from [n] *)
Definition digits_value_from (n : Z) (ds : list ascii) : Z :=
  fold_left (fun a c => a * 10 + (Strconv.code c - Strconv.code "0")) ds n.

Definition digits_value (ds : list ascii) : Z := digits_value_from 0 ds.

(** A decimal integer: one digit or more, after an optional plus sign *)
Definition decimal (l : list ascii) : option Z :=
  let ds := match l with
            | c :: r => if Ascii.eqb c "+" then r else l
            | [] => []
            end in
  if negb (length ds =? 0)%nat && forallb is_digit ds
  then Some (digits_value ds) else None.

(** The objects a listing of [folder] reaches: those whose key starts with
    the folder and, when the folder is empty, has no slash (the top level
    of the bucket). *)
Definition reached (folder : string) (o : Object) : Prop :=
  Minio.under folder o = true
  /\ (folder = EmptyString -> Minio.has_delimiter (bytes (objKey o)) = false).

(** The orders [sort.Slice] sorts by: strict weak orders. *)
Definition strict_weak {A : Type} (less : A -> A -> bool) : Prop :=
  (forall a b, less a b = true -> less b a = false)
  /\ (forall a b c, less a b = false -> less b c = false -> less a c = false).

(** The objects under the snapshot prefix of a handle *)
Definition matching (s : S3) (w : World) : list Object :=
  filter (fun o => Minio.under (snapshotPrefix s) o = true) (objects w).

(** The objects that are left once the keys [ks] are removed *)
Definition without (ks : list string) (os : list Object) : list Object :=
  filter (fun o => objKey o ∉ ks) os.

(** ** Sample worlds with faults *)

Module Faulty.

(** The store refuses to remove [key]. *)
Definition refuses (key : string) (e : error) : Faults :=
  {| newFault := newFault Sample.noFaults;
     bucketExistsResult := bucketExistsResult Sample.noFaults;
     putFault := putFault Sample.noFaults;
     getObjectCheck := getObjectCheck Sample.noFaults;
     statFault := statFault Sample.noFaults;
     copyFault := copyFault Sample.noFaults;
     createFault := createFault Sample.noFaults;
     chmodFault := chmodFault Sample.noFaults;
     listFault := None;
     removeFault := fun k => if String.eqb k key then Some e else None |}.

(** The listing fails after [n] entries. *)
Definition listingFails (n : nat) (e : error) : Faults :=
  {| newFault := newFault Sample.noFaults;
     bucketExistsResult := bucketExistsResult Sample.noFaults;
     putFault := putFault Sample.noFaults;
     getObjectCheck := getObjectCheck Sample.noFaults;
     statFault := statFault Sample.noFaults;
     copyFault := copyFault Sample.noFaults;
     createFault := createFault Sample.noFaults;
     chmodFault := chmodFault Sample.noFaults;
     listFault := Some (n, e);
     removeFault := removeFault Sample.noFaults |}.

Definition world (fs : Faults) (os : list Object) (files : gmap string File)
    : World :=
  {| tlsClientConfig := None; objects := os; files := files;
     clock := {| sec := 1704067200; nsec := 0 |}; calls := [];
     faults := fs |}.

(** Five snapshots of one node, of times 1 to 5, and an object of another
    folder *)
Definition five : list Object :=
  [Sample.object "backups/etcd-snapshot-node1-1" "a" 1;
   Sample.object "backups/etcd-snapshot-node1-5" "e" 5;
   Sample.object "backups/etcd-snapshot-node1-3" "c" 3;
   Sample.object "backups/etcd-snapshot-node1-2" "b" 2;
   Sample.object "backups/etcd-snapshot-node1-4" "d" 4;
   Sample.object "elsewhere/note" "n" 0].

(** A PEM block of the sample format, and the custom CA value that holds
    it in base64 *)
Definition pem : string :=
  "-----BEGIN CERTIFICATE-----" +:+ String "010" "MDEy"
  +:+ String "010" "-----END CERTIFICATE-----".

Definition pemValue : string := Base64.EncodeToString pem.

End Faulty.

(** * Properties *)

(** ** Strings *)

Module GoStringFacts.
Import GoString.

Lemma bytes_str l : bytes (str l) = l.
Proof. apply list_ascii_of_string_of_list_ascii. Qed.

Lemma str_bytes s : str (bytes s) = s.
Proof. apply string_of_list_ascii_of_string. Qed.

Lemma bytes_inj s t : bytes s = bytes t -> s = t.
Proof. intros E. rewrite <- (str_bytes s), <- (str_bytes t). now f_equal. Qed.

Lemma bytes_app s t : bytes (s +:+ t) = bytes s ++ bytes t.
Proof. induction s as [|c s IH]; simpl; [reflexivity|]. now f_equal. Qed.

Lemma is_empty_true s : is_empty s = true <-> s = EmptyString.
Proof. unfold is_empty. apply bool_decide_eq_true. Qed.

Lemma is_empty_false s : is_empty s = false <-> s <> EmptyString.
Proof. unfold is_empty. apply bool_decide_eq_false. Qed.

Lemma take_is_prefix {A} (sub l : list A) :
  take (length sub) l = sub <-> exists post, l = sub ++ post.
Proof.
  split.
  - intros E. exists (drop (length sub) l).
    rewrite <- E at 1. symmetry. apply take_drop.
  - intros [post ->]. now rewrite take_app_length.
Qed.

(** The scan finds an occurrence exactly when there is one. *)
Lemma index_from_found l sub i :
  0 <= i ->
  (0 <= index_from l sub i <-> exists pre post, l = pre ++ sub ++ post).
Proof.
  revert i. induction l as [|c l IH]; intros i Hi.
  - simpl. case_bool_decide as E.
    + split; [intros _|lia].
      apply take_is_prefix in E as [post E]. now exists [], post.
    + split; [lia|]. intros (pre & post & E'). exfalso. apply E.
      symmetry in E'. apply app_eq_nil in E' as [_ E'].
      apply app_eq_nil in E' as [-> _]. reflexivity.
  - cbn [index_from]. case_bool_decide as E.
    + split; [intros _|lia].
      apply take_is_prefix in E as [post E]. now exists [], post.
    + rewrite IH by lia. split.
      * intros (pre & post & ->). now exists (c :: pre), post.
      * intros (pre & post & E'). destruct pre as [|c' pre].
        -- exfalso. apply E. apply take_is_prefix. now exists post.
        -- injection E' as _ ->. now exists pre, post.
Qed.

Lemma Contains_spec s substr :
  Contains s substr = true <-> exists pre post, s = pre +:+ substr +:+ post.
Proof.
  unfold Contains, Index. rewrite Z.leb_le, index_from_found by lia. split.
  - intros (pre & post & E). exists (str pre), (str post).
    apply bytes_inj. now rewrite !bytes_app, !bytes_str.
  - intros (pre & post & ->). exists (bytes pre), (bytes post).
    now rewrite !bytes_app.
Qed.

End GoStringFacts.

(** ** Bucket addressing *)

(** The endpoint of the legacy vendor is not addressed in path style: the
    lookup type chosen for it is the DNS (virtual-host) one. *)
Lemma bucketLookupType_aliyun_not_path :
  Contains "oss-cn-hangzhou.aliyuncs.com" "aliyun" = true
  /\ bucketLookupType "oss-cn-hangzhou.aliyuncs.com" = BucketLookupDNS
  /\ bucketLookupType "oss-cn-hangzhou.aliyuncs.com" <> BucketLookupPath.
Proof. repeat split; [reflexivity..|discriminate]. Qed.

(** C9 (as amended): the addressing mode is a substring match on the
    endpoint.  An endpoint that contains [aliyun] gets DNS (virtual-host
    style) addressing, every other endpoint gets automatic detection, and
    path style is never selected. *)
Theorem bucketLookupType_substring (endpoint : string) :
  (bucketLookupType endpoint = BucketLookupDNS
   <-> exists pre post, endpoint = pre +:+ "aliyun" +:+ post)
  /\ (bucketLookupType endpoint = BucketLookupAuto
      <-> ~ exists pre post, endpoint = pre +:+ "aliyun" +:+ post)
  /\ bucketLookupType endpoint <> BucketLookupPath.
Proof.
  unfold bucketLookupType.
  rewrite <- (GoStringFacts.Contains_spec endpoint "aliyun").
  destruct (Contains endpoint "aliyun"); repeat split; try easy.
Qed.

(** ** Construction of the handle *)

Section Construction.
Context {lib : Libraries}.

Lemma tls_log c w : tlsClientConfig (log c w) = tlsClientConfig w.
Proof. reflexivity. Qed.

Lemma New_tls e o w : tlsClientConfig (snd (Minio.New e o w)) = tlsClientConfig w.
Proof. unfold Minio.New. simpl. now destruct (newFault _ _). Qed.

Lemma BucketExists_tls b w :
  tlsClientConfig (snd (Minio.BucketExists b w)) = tlsClientConfig w.
Proof. reflexivity. Qed.

(** After the transport is prepared, [NewS3] does not touch it again. *)
Lemma NewS3_tls config w :
  EtcdS3BucketName config <> EmptyString ->
  tlsClientConfig (snd (NewS3 config w))
  = tlsClientConfig (snd (prepareTransport config w)).
Proof.
  intros Hb. unfold NewS3.
  apply GoStringFacts.is_empty_false in Hb. rewrite Hb.
  destruct (prepareTransport config w) as [[e|] w1]; [reflexivity|].
  cbn [snd].
  match goal with |- context [Minio.New ?e ?o w1] =>
    pose proof (New_tls e o w1) as HN; destruct (Minio.New e o w1) as [[e1|c] w2]
  end; cbn [snd] in *; [exact HN|].
  pose proof (BucketExists_tls (EtcdS3BucketName config) w2) as HB.
  destruct (Minio.BucketExists (EtcdS3BucketName config) w2) as [[e2|b] w3];
    cbn [snd] in *; [congruence|].
  destruct b; cbn [negb snd]; congruence.
Qed.

Lemma NewS3_returns_early config w :
  is_empty (EtcdS3BucketName config) = true ->
  NewS3 config w = (inl bucketNameNotSet, w).
Proof. intros Hb. unfold NewS3. now rewrite Hb. Qed.

(** C3: with an empty bucket name [NewS3] fails at once with the
    configuration error and returns no handle; the world is left as it
    was, so no transport was prepared and no call was made. *)
Theorem NewS3_empty_bucket_name (config : Control) (w : World) :
  EtcdS3BucketName config = EmptyString ->
  NewS3 config w = (inl bucketNameNotSet, w).
Proof.
  intros Hb. unfold NewS3.
  apply GoStringFacts.is_empty_true in Hb. now rewrite Hb.
Qed.

(** C10: without a custom CA, [NewS3] (given a bucket name) makes the
    default transport skip TLS verification when both [EtcdS3] and the
    skip-verify flag are set, and only then: in every other case, and so
    with the skip-verify flag set but [EtcdS3] unset, the TLS
    configuration of the default transport is left unchanged. *)
Theorem NewS3_skip_verify_needs_both_flags (config : Control) (w : World) :
  EtcdS3EndpointCA config = EmptyString ->
  let w' := snd (NewS3 config w) in
  (EtcdS3BucketName config <> EmptyString ->
   EtcdS3 config = true -> EtcdS3SkipSSLVerify config = true ->
   tlsClientConfig w' = Some {| RootCAs := None; InsecureSkipVerify := true |})
  /\ (EtcdS3 config && EtcdS3SkipSSLVerify config = false ->
      tlsClientConfig w' = tlsClientConfig w)
  /\ (EtcdS3 config = false -> EtcdS3SkipSSLVerify config = true ->
      tlsClientConfig w' = tlsClientConfig w)
  /\ (tlsClientConfig w = None ->
      (exists t, tlsClientConfig w' = Some t /\ InsecureSkipVerify t = true) ->
      EtcdS3 config = true /\ EtcdS3SkipSSLVerify config = true).
Proof.
  intros Hca w'.
  assert (Hp : prepareTransport config w
               = if EtcdS3 config && EtcdS3SkipSSLVerify config
                 then (None, set_tls (Some {| RootCAs := None;
                          InsecureSkipVerify := EtcdS3SkipSSLVerify config |}) w)
                 else (None, w)).
  { unfold prepareTransport. rewrite Hca. reflexivity. }
  assert (Hw : tlsClientConfig w'
               = if String.eqb (EtcdS3BucketName config) EmptyString
                 then tlsClientConfig w
                 else tlsClientConfig (snd (prepareTransport config w))).
  { subst w'. destruct (String.eqb_spec (EtcdS3BucketName config) EmptyString) as [E|E].
    - rewrite NewS3_returns_early; [reflexivity|].
    now apply GoStringFacts.is_empty_true.
    - now apply NewS3_tls. }
  rewrite Hp in Hw. split; [|split; [|split]].
  - intros Hb E1 E2. rewrite Hw, E1, E2.
    destruct (String.eqb_spec (EtcdS3BucketName config) EmptyString); easy.
  - intros E. rewrite Hw, E. now destruct (String.eqb _ _).
  - intros E1 E2. rewrite Hw, E1. now destruct (String.eqb _ _).
  - intros Hnone (t & Ht & Hs). rewrite Hw in Ht.
    destruct (EtcdS3 config), (EtcdS3SkipSSLVerify config); try easy;
      cbn in Ht; destruct (String.eqb _ _); congruence.
Qed.

(** C4: a custom CA value is decoded as base64 first and read as a file
    path otherwise; when the bytes it stands for are a PEM-decodable,
    parseable certificate, [setTransportCA] raises no error and makes the
    transport trust that pool, with the skip-verify flag as given; when
    they are not, it fails with the invalid-certificate error, leaves the
    transport as it was, and [NewS3] fails with that error. *)
Theorem setTransportCA_checks_certificate
    (value : string) (insecureSkipVerify : bool) (w : World) :
  (forall ca, base64_DecodeString value = Some ca ->
     readS3EndpointCA value w = (inr ca, w))
  /\ (base64_DecodeString value = None ->
      readS3EndpointCA value w = OS.ReadFile value w)
  /\ (forall ca, caBytes value w = Some ca ->
      let '(err, w') := setTransportCA value insecureSkipVerify w in
      (wellFormed ca ->
         err = None
         /\ tlsClientConfig w'
            = Some {| RootCAs := Some ca;
                      InsecureSkipVerify := insecureSkipVerify |})
      /\ (~ wellFormed ca ->
          err = Some invalidCertificate
          /\ tlsClientConfig w' = tlsClientConfig w
          /\ forall config,
               EtcdS3BucketName config <> EmptyString ->
               EtcdS3EndpointCA config = value -> value <> EmptyString ->
               EtcdS3SkipSSLVerify config = insecureSkipVerify ->
               fst (NewS3 config w) = inl invalidCertificate)).
Proof.
  split; [|split].
  - intros ca E. unfold readS3EndpointCA. now rewrite E.
  - intros E. unfold readS3EndpointCA. now rewrite E.
  - intros ca Hca.
    assert (Hread : exists w1, readS3EndpointCA value w = (inr ca, w1)
                               /\ tlsClientConfig w1 = tlsClientConfig w).
    { unfold caBytes in Hca. unfold readS3EndpointCA.
      destruct (base64_DecodeString value) as [b|].
      - injection Hca as ->. now exists w.
      - unfold OS.ReadFile. cbn [files log].
        destruct (files w !! value) as [f|]; [|discriminate].
        injection Hca as <-. eexists. split; reflexivity. }
    destruct Hread as (w1 & Hread & Htls).
    assert (Hvalid : isValidCertificate ca = true <-> wellFormed ca).
    { unfold isValidCertificate, wellFormed. split.
      - destruct (pem_Decode ca) as [p|]; [|discriminate].
        destruct (x509_ParseCertificates p) eqn:E; [discriminate|].
        intros _. now exists p.
      - intros (p & -> & ->). reflexivity. }
    destruct (setTransportCA value insecureSkipVerify w) as [err w'] eqn:Hset.
    unfold setTransportCA in Hset. rewrite Hread in Hset.
    destruct (isValidCertificate ca) eqn:Hv; cbn [negb] in Hset;
      injection Hset as <- <-.
    + split; [intros _; now split|].
      intros Hn. exfalso. apply Hn, Hvalid. reflexivity.
    + split.
      { intros Hwf. apply Hvalid in Hwf. discriminate. }
      intros _. split; [reflexivity|]. split; [exact Htls|].
      intros config Hb <- Hne <-. unfold NewS3, prepareTransport.
      apply GoStringFacts.is_empty_false in Hb, Hne. rewrite Hb, Hne.
      cbn [negb]. unfold setTransportCA. rewrite Hread, Hv. reflexivity.
Qed.

End Construction.

Lemma NewS3_empty_bucket_name_witness :
  EtcdS3BucketName (Sample.control EmptyString "backups") = EmptyString
  /\ NewS3 (lib := Sample.libraries)
       (Sample.control EmptyString "backups") (Sample.world [] ∅)
     = (inl bucketNameNotSet, Sample.world [] ∅).
Proof.
  split; [reflexivity|].
  apply (NewS3_empty_bucket_name (Sample.control EmptyString "backups")).
  reflexivity.
Defined.

Lemma NewS3_skip_verify_needs_both_flags_witness :
  let config := Sample.control_tls "bucket" "backups" false true EmptyString in
  let w := Sample.world [] ∅ in
  EtcdS3EndpointCA config = EmptyString
  /\ tlsClientConfig (snd (NewS3 (lib := Sample.libraries) config w))
     = tlsClientConfig w.
Proof.
  intros config w. split; [reflexivity|].
  apply (NewS3_skip_verify_needs_both_flags config w eq_refl); reflexivity.
Defined.

(** Both outcomes of the certificate check occur: a base64 value holding
    a PEM block is accepted, a base64 value holding other bytes is
    rejected. *)
Example setTransportCA_accepts :
  let value := Base64.EncodeToString
    ("-----BEGIN CERTIFICATE-----" +:+ String "010" "MDEy"
     +:+ String "010" "-----END CERTIFICATE-----") in
  exists ca w',
    caBytes (lib := Sample.libraries) value (Sample.world [] ∅) = Some ca
    /\ wellFormed (lib := Sample.libraries) ca
    /\ setTransportCA (lib := Sample.libraries) value true (Sample.world [] ∅)
       = (None, w')
    /\ tlsClientConfig w' = Some {| RootCAs := Some ca; InsecureSkipVerify := true |}.
Proof.
  intros value. eexists _, _. split; [vm_compute; reflexivity|].
  split; [eexists; split; vm_compute; reflexivity|].
  split; vm_compute; reflexivity.
Qed.

Example setTransportCA_rejects :
  setTransportCA (lib := Sample.libraries)
    (Base64.EncodeToString "not a certificate") false (Sample.world [] ∅)
  = (Some invalidCertificate, Sample.world [] ∅).
Proof. vm_compute. reflexivity. Qed.

(** ** Paths *)

Module GoPathFacts.
Import GoString GoPath GoStringFacts.

Lemma is_byte_Some c d : is_byte (Some c) d = Ascii.eqb c d.
Proof. reflexivity. Qed.

Lemma eqb_neq (c d : ascii) : c <> d -> Ascii.eqb c d = false.
Proof. intros. now apply Ascii.eqb_neq. Qed.

Lemma byte_at_middle (pre post : list ascii) c :
  byte_at (pre ++ c :: post) (length pre) = Some c.
Proof. unfold byte_at. now rewrite list_lookup_middle. Qed.

(** The backward scan stops at the last occurrence. *)
Lemma lastIndexByte_loop_last pre post c n :
  (n <= length post)%nat ->
  Forall (fun x => x <> c) (take n post) ->
  lastIndexByte_loop (pre ++ c :: post) c (length pre + 1 + n)
  = Z.of_nat (length pre).
Proof.
  induction n as [|n IH]; intros Hn Hall.
  - replace (length pre + 1 + 0)%nat with (S (length pre)) by lia.
    cbn [lastIndexByte_loop]. now rewrite byte_at_middle, is_byte_Some, Ascii.eqb_refl.
  - replace (length pre + 1 + S n)%nat with (S (length pre + 1 + n)) by lia.
    cbn [lastIndexByte_loop].
    destruct (post !! n) as [x|] eqn:Hx.
    2:{ apply lookup_ge_None in Hx. lia. }
    rewrite (take_S_r _ _ _ Hx) in Hall.
    apply Forall_app in Hall as [Hall Hlast].
    rewrite Forall_singleton in Hlast.
    assert (E : byte_at (pre ++ c :: post) (length pre + 1 + n) = Some x).
    { unfold byte_at. rewrite lookup_app_r by lia.
      replace (length pre + 1 + n - length pre)%nat with (S n) by lia.
      exact Hx. }
    rewrite E, is_byte_Some, (eqb_neq _ _ Hlast). apply IH; [lia|exact Hall].
Qed.

Lemma lastIndexByte_loop_none l c n :
  (n <= length l)%nat ->
  Forall (fun x => x <> c) (take n l) ->
  lastIndexByte_loop l c n = -1.
Proof.
  induction n as [|n IH]; intros Hn Hall; [reflexivity|].
  cbn [lastIndexByte_loop].
  destruct (l !! n) as [x|] eqn:Hx.
  2:{ apply lookup_ge_None in Hx. lia. }
  rewrite (take_S_r _ _ _ Hx) in Hall.
  apply Forall_app in Hall as [Hall Hlast].
  rewrite Forall_singleton in Hlast.
  unfold byte_at. rewrite Hx, is_byte_Some, (eqb_neq _ _ Hlast).
  apply IH; [lia|exact Hall].
Qed.

Lemma strip_trailing_keeps (l : list ascii) x :
  x <> slash -> strip_trailing (l ++ [x]) (length (l ++ [x])) = length (l ++ [x]).
Proof.
  intros Hx. rewrite length_app. cbn [length].
  replace (length l + 1)%nat with (S (length l)) by lia.
  cbn [strip_trailing].
  now rewrite byte_at_middle, is_byte_Some, (eqb_neq _ _ Hx).
Qed.

(** The base name of [dir/name] is [name]. *)
Lemma Base_dir_name (dir name : list ascii) :
  name <> [] -> Forall (fun x => x <> slash) name ->
  Base (str (dir ++ slash :: name)) = str name.
Proof.
  intros Hne Hall. unfold Base.
  replace (is_empty (str (dir ++ slash :: name))) with false.
  2:{ symmetry. apply is_empty_false. intros E.
      apply (f_equal bytes) in E. rewrite bytes_str in E.
      now destruct dir. }
  rewrite bytes_str. cbv zeta.
  assert (Hstrip : strip_trailing (dir ++ slash :: name)
                     (length (dir ++ slash :: name))
                   = length (dir ++ slash :: name)).
  { destruct (exists_last Hne) as (name' & x & ->).
    apply Forall_app in Hall as [_ Hx]. rewrite Forall_singleton in Hx.
    replace (dir ++ slash :: name' ++ [x]) with ((dir ++ slash :: name') ++ [x])
      by now rewrite <- app_assoc.
    now apply strip_trailing_keeps. }
  rewrite Hstrip, firstn_all.
  assert (Hidx : lastIndexByte_loop (dir ++ slash :: name) slash
                   (length (dir ++ slash :: name)) = Z.of_nat (length dir)).
  { rewrite length_app. cbn [length].
    replace (length dir + S (length name))%nat
      with (length dir + 1 + length name)%nat by lia.
    apply lastIndexByte_loop_last; [lia|]. now rewrite firstn_all. }
  rewrite Hidx.
  replace (0 <=? Z.of_nat (length dir)) with true by (symmetry; apply Z.leb_le; lia).
  replace (Z.to_nat (Z.of_nat (length dir) + 1)) with (length dir + 1)%nat by lia.
  replace (drop (length dir + 1) (dir ++ slash :: name)) with name.
  2:{ replace (dir ++ slash :: name) with ((dir ++ [slash]) ++ name)
        by now rewrite <- app_assoc.
      rewrite drop_app_length'; [reflexivity|]. rewrite length_app. reflexivity. }
  destruct name; [congruence|reflexivity].
Qed.

Lemma element_all (l : list ascii) :
  Forall (fun x => x <> slash) l -> element l = l.
Proof.
  induction 1 as [|x l Hx _ IH]; [reflexivity|].
  cbn [element]. now rewrite (eqb_neq _ _ Hx), IH.
Qed.

Lemma element_to_slash (l rest : list ascii) :
  Forall (fun x => x <> slash) l -> element (l ++ slash :: rest) = l.
Proof.
  induction 1 as [|x l Hx _ IH]; cbn [element app].
  - reflexivity.
  - now rewrite (eqb_neq _ _ Hx), IH.
Qed.

Lemma clean_loop_end fuel p rooted r out dotdot :
  (length p <= r)%nat -> clean_loop fuel p rooted r out dotdot = out.
Proof.
  intros Hr. destruct fuel; [reflexivity|]. cbn [clean_loop].
  replace (r <? length p)%nat with false; [reflexivity|].
  symmetry. apply Nat.ltb_ge. exact Hr.
Qed.

Lemma clean_loop_slash fuel p rooted r out dotdot :
  byte_at p r = Some slash ->
  clean_loop (S fuel) p rooted r out dotdot
  = clean_loop fuel p rooted (r + 1) out dotdot.
Proof.
  intros Hb. cbn [clean_loop].
  assert (Hr : (r <? length p)%nat = true).
  { apply Nat.ltb_lt. apply lookup_lt_Some in Hb. exact Hb. }
  now rewrite Hr, Hb.
Qed.

Lemma clean_loop_element fuel p r out dotdot c :
  byte_at p r = Some c -> c <> slash -> c <> dot ->
  clean_loop (S fuel) p false r out dotdot
  = clean_loop fuel p false (r + length (element (drop r p)))
      ((if (length out =? 0)%nat then out else out ++ [slash])
         ++ element (drop r p)) dotdot.
Proof.
  intros Hb Hs Hd. cbn [clean_loop].
  assert (Hr : (r <? length p)%nat = true).
  { apply Nat.ltb_lt. apply lookup_lt_Some in Hb. exact Hb. }
  rewrite Hr, Hb, !is_byte_Some, (eqb_neq _ _ Hs), (eqb_neq _ _ Hd).
  cbn [negb andb orb]. now destruct (length out =? 0)%nat.
Qed.

(** [Clean] leaves [folder/name] as it is when both are plain names. *)
Lemma Clean_plain (f nm : list ascii) :
  plain f -> plain nm ->
  Clean (str (f ++ slash :: nm)) = str (f ++ slash :: nm).
Proof.
  intros Hf Hnm.
  destruct f as [|a f']; [easy|]. destruct nm as [|b nm']; [easy|].
  destruct Hf as [Hadot Hf], Hnm as [Hbdot Hnm].
  pose proof (Forall_inv Hf) as Haslash. pose proof (Forall_inv Hnm) as Hbslash.
  cbv beta in Haslash, Hbslash.
  set (f := a :: f') in *. set (nm := b :: nm') in *.
  unfold Clean.
  replace (is_empty (str (f ++ slash :: nm))) with false.
  2:{ symmetry. apply is_empty_false. intros E.
      apply (f_equal bytes) in E. rewrite bytes_str in E. discriminate. }
  rewrite bytes_str. cbv zeta.
  set (p := f ++ slash :: nm).
  assert (H0 : byte_at p 0 = Some a) by reflexivity.
  rewrite H0, is_byte_Some, (eqb_neq _ _ Haslash).
  assert (Hlen : exists k, length p = S (S (S k))).
  { exists (length f' + length nm')%nat. subst p f nm.
    rewrite length_app. cbn [length]. lia. }
  destruct Hlen as [k Hlen]. rewrite Hlen.
  rewrite (clean_loop_element _ _ _ _ _ a H0 Haslash Hadot).
  rewrite drop_0. subst p. rewrite (element_to_slash f nm Hf).
  cbn [length Nat.eqb app Nat.add].
  fold f.
  rewrite clean_loop_slash by apply byte_at_middle.
  assert (Hb : byte_at (f ++ slash :: nm) (length f + 1) = Some b).
  { replace (f ++ slash :: nm) with ((f ++ [slash]) ++ b :: nm')
      by now rewrite <- app_assoc.
    replace (length f + 1)%nat with (length (f ++ [slash]))
      by (rewrite length_app; reflexivity).
    apply byte_at_middle. }
  rewrite (clean_loop_element _ _ _ _ _ b Hb Hbslash Hbdot).
  replace (drop (length f + 1) (f ++ slash :: nm)) with nm.
  2:{ replace (f ++ slash :: nm) with ((f ++ [slash]) ++ nm)
        by now rewrite <- app_assoc.
      rewrite drop_app_length'; [reflexivity|]. rewrite length_app. reflexivity. }
  rewrite (element_all nm Hnm).
  rewrite clean_loop_end.
  2:{ rewrite length_app. cbn [length]. lia. }
  replace (length f =? 0)%nat with false by reflexivity.
  rewrite <- app_assoc. reflexivity.
Qed.

Lemma plain_bytes_nonempty l : plain l -> is_empty (str l) = false.
Proof.
  intros Hp. apply is_empty_false. intros E.
  apply (f_equal bytes) in E. rewrite bytes_str in E. now subst l.
Qed.

(** Joining a plain folder and a plain name puts one slash between
    them. *)
Lemma Join_plain (f nm : list ascii) :
  plain f -> plain nm ->
  Join [str f; str nm] = str (f ++ slash :: nm).
Proof.
  intros Hf Hnm. unfold Join.
  cbn [fmap list_fmap sum_list]. unfold len. rewrite !bytes_str.
  destruct f as [|a f']; [easy|].
  cbn [length Nat.add Nat.eqb].
  cbn [join_loop length Nat.ltb Nat.leb orb].
  rewrite (plain_bytes_nonempty _ Hf). cbn [negb orb].
  rewrite !bytes_str. cbn [app length Nat.ltb Nat.leb orb].
  unfold id. cbn [Nat.add Nat.eqb].
  replace (a :: (f' ++ [slash]) ++ nm) with ((a :: f') ++ slash :: nm)
    by (cbn [app]; now rewrite <- app_assoc).
  now apply Clean_plain.
Qed.

Lemma HasSuffix_app s t suffix :
  HasSuffix t suffix = true -> HasSuffix (s +:+ t) suffix = true.
Proof.
  unfold HasSuffix, len. rewrite bytes_app, length_app.
  intros Ht. apply andb_true_iff in Ht as [Hl Hd].
  apply Nat.leb_le in Hl. apply bool_decide_eq_true in Hd.
  apply andb_true_iff. split; [apply Nat.leb_le; lia|].
  apply bool_decide_eq_true.
  replace (length (bytes s) + length (bytes t) - length (bytes suffix))%nat
    with (length (bytes s) + (length (bytes t) - length (bytes suffix)))%nat
    by lia.
  now rewrite drop_app_add'.
Qed.

End GoPathFacts.

(** ** Upload *)

Module Base64Facts.
Import GoString Base64.

Lemma enc_in_alphabet v : enc v ∈ bytes encodeStd.
Proof.
  unfold enc. change 63 with (Z.ones 6). rewrite Z.land_ones by lia.
  pose proof (Z.mod_pos_bound v (2 ^ 6) ltac:(lia)) as Hb.
  apply list_elem_of_In, nth_In.
  change (length (bytes encodeStd)) with 64%nat. lia.
Qed.

(** The encoding is made of digits of the alphabet and padding only. *)
Lemma encode_text src : base64_text (encode src).
Proof.
  unfold base64_text.
  assert (Hgen : forall n src, (length src < n)%nat ->
            Forall (fun c => c ∈ bytes encodeStd \/ c = padChar) (encode src)).
  { clear src. induction n as [|n IH]; intros src Hn; [lia|].
    destruct src as [|a [|b [|c rest]]]; cbn [encode].
    - constructor.
    - repeat (apply Forall_cons; split;
                [first [left; apply enc_in_alphabet | now right]|]).
      constructor.
    - repeat (apply Forall_cons; split;
                [first [left; apply enc_in_alphabet | now right]|]).
      constructor.
    - repeat (apply Forall_cons; split; [left; apply enc_in_alphabet|]).
      apply IH. cbn [length] in Hn. lia. }
  apply (Hgen (S (length src))). lia.
Qed.

Lemma EncodeToString_text s : base64_text (bytes (EncodeToString s)).
Proof.
  unfold EncodeToString. rewrite GoStringFacts.bytes_str. apply encode_text.
Qed.

End Base64Facts.

Lemma put_elem_of (o : Object) (os : list Object) : o ∈ Minio.put o os.
Proof.
  induction os as [|x os IH]; cbn [Minio.put].
  - apply list_elem_of_here.
  - destruct (String.eqb _ _); [apply list_elem_of_here|].
    destruct (String.ltb _ _); [apply list_elem_of_here|].
    now apply list_elem_of_further.
Qed.

(** C5: when the transfer fails, the record has status failed, its message
    is the standard base64 encoding of the text of the error (so made of
    base64 digits and padding only), and [upload] returns the record and
    the error; when the transfer succeeds, the record has status success
    and its size is the byte count the transfer reported. *)
Theorem upload_records_outcome
    (s : S3) (snapshot : string) (extraMetadata : option ConfigMap)
    (now : Time) (w : World) :
  let bucket := EtcdS3BucketName (config s) in
  let key := GoPath.Join [EtcdS3Folder (config s); GoFilepath.Base snapshot] in
  let contentType :=
    if HasSuffix snapshot compressedExtension
    then "application/zip" else "application/octet-stream" in
  let '(sf, err, w') := upload s snapshot extraMetadata now w in
  match fst (Minio.FPutObject bucket key snapshot contentType 2 w) with
  | inl e =>
      err = Some e
      /\ Status sf = Some failedSnapshotStatus
      /\ Message sf = Base64.EncodeToString e
      /\ base64_text (bytes (Message sf))
  | inr uploadInfo =>
      err = None
      /\ Status sf = Some successfulSnapshotStatus
      /\ Size sf = Minio.uiSize uploadInfo
  end.
Proof.
  cbv zeta. unfold upload.
  destruct (Minio.FPutObject _ _ _ _ _ _) as [[e|info] w']; cbn [fst].
  - repeat split. apply Base64Facts.EncodeToString_text.
  - repeat split.
Qed.

(** The transfer fails when the local file is missing or the store refuses
    it, and succeeds otherwise, reporting the length of the file. *)
Lemma FPutObject_outcome bucket key filePath contentType n w :
  fst (Minio.FPutObject bucket key filePath contentType n w)
  = match files w !! filePath with
    | None => inl ("stat " +:+ filePath +:+ ": no such file or directory")
    | Some f =>
        match putFault (faults w) key with
        | Some e => inl e
        | None => inr {| Minio.uiSize := Z.of_nat (length (content f)) |}
        end
    end.
Proof.
  unfold Minio.FPutObject. cbn [files log faults].
  destruct (files w !! filePath); [|reflexivity].
  now destruct (putFault (faults w) key).
Qed.

(** C6: the object key that [upload] sends the file to is the folder
    path-joined with the base name of the file, and the file is classified
    by its suffix: with the compressed-archive extension the record is
    marked compressed and the content type is the archive one, otherwise
    it is the binary stream one; after a successful transfer the bucket
    holds an object under that key with that content type.  For a plain
    folder name, a file [dir/name] goes to [folder/name], and
    [snapshot-20240101.zip] is compressed, of the archive type, under
    [folder/snapshot-20240101.zip]. *)
Theorem upload_key_and_classification
    (s : S3) (snapshot : string) (extraMetadata : option ConfigMap)
    (now : Time) (w : World) :
  let bucket := EtcdS3BucketName (config s) in
  let key := GoPath.Join [EtcdS3Folder (config s); GoFilepath.Base snapshot] in
  let compressed := HasSuffix snapshot compressedExtension in
  let contentType :=
    if compressed then "application/zip" else "application/octet-stream" in
  let '(sf, err, w') := upload s snapshot extraMetadata now w in
  Name sf = GoFilepath.Base snapshot
  /\ Compressed sf = compressed
  /\ calls w' = calls w ++ [CallFPutObject bucket key snapshot contentType 2]
  /\ (err = None ->
      exists o, o ∈ objects w' /\ objKey o = key
                /\ objContentType o = contentType)
  /\ (forall folder dir name,
        EtcdS3Folder (config s) = str folder -> plain folder ->
        snapshot = str (dir ++ GoPath.slash :: name) -> plain name ->
        key = str (folder ++ GoPath.slash :: name))
  /\ (forall folder dir,
        EtcdS3Folder (config s) = str folder -> plain folder ->
        snapshot = str dir +:+ "/snapshot-20240101.zip" ->
        Compressed sf = true
        /\ contentType = "application/zip"
        /\ key = str folder +:+ "/snapshot-20240101.zip").
Proof.
  cbv zeta.
  assert (Hkey : forall folder dir name,
    EtcdS3Folder (config s) = str folder -> plain folder ->
    snapshot = str (dir ++ GoPath.slash :: name) -> plain name ->
    GoPath.Join [EtcdS3Folder (config s); GoFilepath.Base snapshot]
    = str (folder ++ GoPath.slash :: name)).
  { intros folder dir name -> Hf -> Hn. unfold GoFilepath.Base.
    rewrite GoPathFacts.Base_dir_name.
    - now apply GoPathFacts.Join_plain.
    - now destruct name.
    - destruct name; [easy|]. apply Hn. }
  assert (Hzip : forall dir, snapshot = str dir +:+ "/snapshot-20240101.zip" ->
            HasSuffix snapshot compressedExtension = true).
  { intros dir ->. now apply GoPathFacts.HasSuffix_app. }
  unfold upload.
  destruct (Minio.FPutObject _ _ _ _ _ _) as [[e|info] w'] eqn:Hput;
    cbn [Name Compressed].
  - split; [reflexivity|]. split; [reflexivity|]. split.
    { unfold Minio.FPutObject in Hput. cbn [files log faults] in Hput.
      destruct (files w !! snapshot); [destruct (putFault _ _)|];
        injection Hput as _ <-; reflexivity. }
    split; [discriminate|]. split; [exact Hkey|].
    intros folder dir Hfolder Hf Hs. rewrite (Hzip dir Hs).
    split; [reflexivity|]. split; [reflexivity|].
    rewrite (Hkey folder dir (bytes "snapshot-20240101.zip") Hfolder Hf).
    + apply GoStringFacts.bytes_inj.
      now rewrite GoStringFacts.bytes_app, !GoStringFacts.bytes_str.
    + rewrite Hs. apply GoStringFacts.bytes_inj.
      now rewrite GoStringFacts.bytes_app, !GoStringFacts.bytes_str.
    + split; [discriminate|]. repeat constructor; discriminate.
  - split; [reflexivity|]. split; [reflexivity|]. split.
    { unfold Minio.FPutObject in Hput. cbn [files log faults] in Hput.
      destruct (files w !! snapshot); [destruct (putFault _ _)|];
        try discriminate. injection Hput as _ <-. reflexivity. }
    split.
    { intros _. unfold Minio.FPutObject in Hput. cbn [files log faults] in Hput.
      destruct (files w !! snapshot) as [f|]; [|discriminate].
      destruct (putFault _ _); [discriminate|]. injection Hput as _ <-.
      eexists. split; [apply put_elem_of|]. split; reflexivity. }
    split; [exact Hkey|].
    intros folder dir Hfolder Hf Hs. rewrite (Hzip dir Hs).
    split; [reflexivity|]. split; [reflexivity|].
    rewrite (Hkey folder dir (bytes "snapshot-20240101.zip") Hfolder Hf).
    + apply GoStringFacts.bytes_inj.
      now rewrite GoStringFacts.bytes_app, !GoStringFacts.bytes_str.
    + rewrite Hs. apply GoStringFacts.bytes_inj.
      now rewrite GoStringFacts.bytes_app, !GoStringFacts.bytes_str.
    + split; [discriminate|]. repeat constructor; discriminate.
Qed.

(** The scenario on a sample world: the file is there, the transfer
    succeeds, and the object lands under [backups/snapshot-20240101.zip]. *)
Example upload_zip_scenario :
  let w := Sample.world []
             {[ "/var/lib/snapshots/snapshot-20240101.zip"
                := {| content := bytes "archive"; mode := 384 |} ]} in
  let '(sf, err, w') :=
    upload (Sample.handle (Sample.control "bucket" "backups"))
      "/var/lib/snapshots/snapshot-20240101.zip" None (clock w) w in
  err = None /\ Compressed sf = true /\ Size sf = 7
  /\ Status sf = Some successfulSnapshotStatus
  /\ (fun o => (objKey o, objContentType o)) <$> objects w'
     = [("backups/snapshot-20240101.zip", "application/zip")].
Proof. vm_compute. repeat split. Qed.

(** ** Listing: the timestamp of a record *)

Module StrconvFacts.
Import GoString Strconv GoStringFacts.

Lemma is_digit_range c :
  is_digit c = true -> 0 <= code c - code "0" <= 9.
Proof.
  unfold is_digit. intros Hd. apply andb_true_iff in Hd as [H1 H2].
  apply Z.leb_le in H1, H2. change (code "0") with 48 in *.
  change (code "9") with 57 in *. lia.
Qed.

Lemma digits_value_from_ge ds n :
  forallb is_digit ds = true -> 0 <= n -> n <= digits_value_from n ds.
Proof.
  revert n. induction ds as [|c ds IH]; intros n Hall Hn; cbn; [lia|].
  cbn in Hall. apply andb_true_iff in Hall as [Hc Hall].
  pose proof (is_digit_range c Hc) as Hr.
  specialize (IH (n * 10 + (code c - code "0")) Hall ltac:(lia)).
  unfold digits_value_from in IH. lia.
Qed.

(** The unsigned conversion yields the number the digits write when it
    fits 64 bits, and an error in every other case. *)
Lemma parseUint_loop_spec cs n :
  0 <= n <= maxUint64 ->
  if forallb is_digit cs && (digits_value_from n cs <=? maxUint64)
  then parseUint_loop cs n = (digits_value_from n cs, None)
  else parseUint_loop cs n = (0, Some ErrSyntax)
       \/ parseUint_loop cs n = (maxUint64, Some ErrRange).
Proof.
  revert n. induction cs as [|c cs IH]; intros n Hn.
  - cbn [forallb andb digits_value_from fold_left parseUint_loop].
    replace (n <=? maxUint64) with true by (symmetry; apply Z.leb_le; lia).
    reflexivity.
  - cbn [forallb parseUint_loop]. fold (is_digit c).
    destruct (is_digit c) eqn:Hc; cbn [andb]; [|now left].
    pose proof (is_digit_range c Hc) as Hr.
    change (digits_value_from n (c :: cs))
      with (digits_value_from (n * 10 + (code c - code "0")) cs).
    unfold maxUint64 in *.
    change (2 ^ 64 - 1) with 18446744073709551615 in *.
    change ((18446744073709551615 / 10) + 1) with 1844674407370955162.
    change (2 ^ 64) with 18446744073709551616.
    destruct (1844674407370955162 <=? n) eqn:Hcut.
    { apply Z.leb_le in Hcut.
      destruct (forallb is_digit cs) eqn:Hall; cbn [andb]; [|now right].
      assert (Hpos : 0 <= n * 10 + (code c - code "0")) by lia.
      pose proof (digits_value_from_ge cs _ Hall Hpos) as Hge.
      replace (_ <=? _) with false by (symmetry; apply Z.leb_gt; lia).
      now right. }
    apply Z.leb_gt in Hcut.
    destruct (Z_lt_ge_dec (n * 10 + (code c - code "0")) 18446744073709551616)
      as [Hfit|Hwrap].
    + rewrite Z.mod_small by lia.
      replace (_ <? n * 10) with false by (symmetry; apply Z.ltb_ge; lia).
      replace (18446744073709551615 <? _) with false
        by (symmetry; apply Z.ltb_ge; lia).
      cbn [orb]. apply IH. lia.
    + replace ((n * 10 + (code c - code "0")) mod 18446744073709551616)
        with (n * 10 + (code c - code "0") - 18446744073709551616).
      2:{ apply Z.mod_unique with (q := 1); lia. }
      replace (_ <? n * 10) with true by (symmetry; apply Z.ltb_lt; lia).
      cbn [orb].
      destruct (forallb is_digit cs) eqn:Hall; cbn [andb]; [|now right].
      assert (Hpos : 0 <= n * 10 + (code c - code "0")) by lia.
      pose proof (digits_value_from_ge cs _ Hall Hpos) as Hge.
      replace (_ <=? _) with false by (symmetry; apply Z.leb_gt; lia).
      now right.
Qed.

Lemma ParseUint_spec ds :
  if negb (length ds =? 0)%nat && forallb is_digit ds
     && (digits_value ds <=? maxUint64)
  then ParseUint (str ds) = (digits_value ds, None)
  else ParseUint (str ds) = (0, Some ErrSyntax)
       \/ ParseUint (str ds) = (maxUint64, Some ErrRange).
Proof.
  unfold ParseUint. destruct ds as [|c ds].
  - cbn. now left.
  - replace (is_empty (str (c :: ds))) with false by reflexivity.
    rewrite bytes_str. cbn [length Nat.eqb negb andb].
    apply (parseUint_loop_spec (c :: ds) 0). unfold maxUint64. lia.
Qed.

(** For a text without a minus sign, [ParseInt] succeeds exactly on the
    decimal integers below [2 ^ 63], with their value. *)
Lemma ParseInt_decimal seg :
  Forall (fun x => x <> "-"%char) seg ->
  match decimal seg with
  | Some v =>
      if v <? 2 ^ 63 then ParseInt (str seg) = (v, None)
      else snd (ParseInt (str seg)) <> None
  | None => snd (ParseInt (str seg)) <> None
  end.
Proof.
  intros Hminus. unfold ParseInt, decimal. rewrite bytes_str.
  destruct seg as [|c0 rest]; [cbn; discriminate|].
  pose proof (Forall_inv Hminus) as Hc0. cbv beta in Hc0.
  rewrite (proj2 (Ascii.eqb_neq _ _) Hc0). rewrite orb_false_r.
  set (ds := if Ascii.eqb c0 "+" then rest else c0 :: rest).
  replace (if Ascii.eqb c0 "+" then str rest else str (c0 :: rest))
    with (str ds) by (subst ds; now destruct (Ascii.eqb c0 "+")).
  pose proof (ParseUint_spec ds) as Hu.
  destruct (negb (length ds =? 0)%nat && forallb is_digit ds) eqn:Hd;
    cbn [andb] in Hu.
  - apply andb_true_iff in Hd as [_ Hall].
    pose proof (digits_value_from_ge ds 0 Hall ltac:(lia)) as Hge.
    fold (digits_value ds) in Hge.
    destruct (digits_value ds <=? maxUint64) eqn:Hmax.
    + rewrite Hu. cbn [negb andb].
      destruct (digits_value ds <? 2 ^ 63) eqn:Hlt.
      * apply Z.ltb_lt in Hlt.
        replace (2 ^ 63 <=? digits_value ds) with false
          by (symmetry; apply Z.leb_gt; lia).
        reflexivity.
      * apply Z.ltb_ge in Hlt.
        replace (2 ^ 63 <=? digits_value ds) with true
          by (symmetry; apply Z.leb_le; lia).
        cbn. discriminate.
    + apply Z.leb_gt in Hmax. unfold maxUint64 in Hmax.
      replace (digits_value ds <? 2 ^ 63) with false
        by (symmetry; apply Z.ltb_ge; lia).
      destruct Hu as [-> | ->]; cbn; discriminate.
  - destruct Hu as [-> | ->]; cbn; discriminate.
Qed.

End StrconvFacts.

Module SegmentFacts.
Import GoString GoStringFacts GoPathFacts.

Lemma after_last_snoc c l x :
  after_last c (l ++ [x])
  = if Ascii.eqb x c then [] else after_last c l ++ [x].
Proof. unfold after_last. now rewrite fold_left_app. Qed.

(** Either [c] does not occur, or the name splits at its last
    occurrence. *)
Lemma after_last_split c l :
  (Forall (fun x => x <> c) l /\ after_last c l = l)
  \/ (exists pre post,
        l = pre ++ c :: post /\ Forall (fun x => x <> c) post
        /\ after_last c l = post).
Proof.
  induction l as [|x l IH] using rev_ind.
  - left. split; [constructor|reflexivity].
  - rewrite after_last_snoc. destruct (Ascii.eqb_spec x c) as [->|Hx].
    + right. exists l, []. repeat split. constructor.
    + destruct IH as [[Hall E]|(pre & post & -> & Hall & E)].
      * left. split; [|now rewrite E].
        apply Forall_app. split; [exact Hall|]. now constructor.
      * right. exists pre, (post ++ [x]). split; [now rewrite <- app_assoc|].
        split; [|now rewrite E].
        apply Forall_app. split; [exact Hall|]. now constructor.
Qed.

Lemma after_last_free c l : Forall (fun x => x <> c) (after_last c l).
Proof.
  destruct (after_last_split c l) as [[Hall ->]|(pre & post & _ & Hall & ->)];
    exact Hall.
Qed.

(** The slice taken after [LastIndexByte] is the part after the last
    occurrence. *)
Lemma slice_after_LastIndexByte s c :
  slice_from s (LastIndexByte s c + 1) = str (after_last c (bytes s)).
Proof.
  unfold slice_from, LastIndexByte, len.
  destruct (after_last_split c (bytes s))
    as [[Hall ->]|(pre & post & E & Hall & ->)].
  - rewrite lastIndexByte_loop_none; [reflexivity|lia|now rewrite firstn_all].
  - rewrite E. rewrite length_app. cbn [length].
    replace (length pre + S (length post))%nat
      with (length pre + 1 + length post)%nat by lia.
    rewrite lastIndexByte_loop_last; [|lia|now rewrite firstn_all].
    replace (Z.to_nat (Z.of_nat (length pre) + 1)) with (length pre + 1)%nat
      by lia.
    replace (pre ++ c :: post) with ((pre ++ [c]) ++ post)
      by now rewrite <- app_assoc.
    rewrite drop_app_length'; [reflexivity|]. rewrite length_app. reflexivity.
Qed.

End SegmentFacts.

Section Listing.
Context {pkg : Package}.

Lemma list_loop_total cfg items snapshots :
  Forall (fun o => Err o = None) items ->
  exists m, list_loop cfg items snapshots = inr m.
Proof.
  intros Hall. revert snapshots.
  induction Hall as [|obj items Hobj _ IH]; intros snapshots.
  - now exists snapshots.
  - cbn [list_loop]. rewrite Hobj. destruct (oiSize obj =? 0); apply IH.
Qed.

Lemma entries_no_error opts os :
  Forall (fun o => Err o = None) (Minio.entries opts os).
Proof.
  unfold Minio.entries. destruct (Minio.Recursive opts).
  - apply Forall_fmap, Forall_forall. now intros.
  - apply Forall_app. split; apply Forall_fmap, Forall_forall; now intros.
Qed.

(** The timestamp of a listed record, as [ParseInt] decides it *)
Lemma listed_CreatedAt cfg obj :
  CreatedAt (listed cfg obj)
  = match decimal (trailing_segment (Key obj)) with
    | Some v =>
        if v <? 2 ^ 63 then ofUnix v else ofUnix (Unix (LastModified obj))
    | None => ofUnix (Unix (LastModified obj))
    end.
Proof.
  unfold listed, trailing_segment.
  destruct (CutSuffix (GoPath.Base (Key obj)) compressedExtension)
    as [basename compressed]. cbn [fst].
  rewrite SegmentFacts.slice_after_LastIndexByte.
  pose proof (StrconvFacts.ParseInt_decimal _
                (SegmentFacts.after_last_free "-" (bytes basename))) as Hp.
  destruct (Strconv.ParseInt _) as [parsed err].
  destruct (decimal _) as [v|].
  - destruct (v <? 2 ^ 63).
    + injection Hp as -> ->. reflexivity.
    + cbn [snd] in Hp. now destruct err.
  - cbn [snd] in Hp. now destruct err.
Qed.

(** C7 (as amended): the timestamp of a listed record is the value of
    the trailing segment of the name (what follows the last hyphen of
    the base name without the archive extension) when that segment is a
    decimal integer that fits a signed 64-bit number; in every other
    case it is the last-modified time of the object in whole seconds.
    The listing never fails on a timestamp: it fails only on an error
    that the listing itself reports. *)
Theorem listSnapshots_timestamp (s : S3) (w : World) (obj : ObjectInfo) :
  let seg := trailing_segment (Key obj) in
  let sf := listed (config s) obj in
  (forall v, decimal seg = Some v -> v < 2 ^ 63 -> CreatedAt sf = ofUnix v)
  /\ (forall v, decimal seg = Some v -> 2 ^ 63 <= v ->
        CreatedAt sf = ofUnix (Unix (LastModified obj)))
  /\ (decimal seg = None -> CreatedAt sf = ofUnix (Unix (LastModified obj)))
  /\ (listFault (faults w) = None ->
      exists snapshots, fst (listSnapshots s w) = inr snapshots).
Proof.
  cbv zeta. pose proof (listed_CreatedAt (config s) obj) as Hc.
  split; [|split; [|split]].
  - intros v Hv Hlt. rewrite Hc, Hv.
    now replace (v <? 2 ^ 63) with true by (symmetry; apply Z.ltb_lt; lia).
  - intros v Hv Hge. rewrite Hc, Hv.
    now replace (v <? 2 ^ 63) with false by (symmetry; apply Z.ltb_ge; lia).
  - intros Hv. now rewrite Hc, Hv.
  - intros Hf. unfold listSnapshots, Minio.ListObjects.
    cbn [faults log objects]. rewrite Hf. cbn [fst].
    apply list_loop_total, entries_no_error.
Qed.

(** What the loop of [listSnapshots] leaves under a key: the record of
    an object of size other than zero that has this key, or what was
    there when no such object came. *)
Lemma list_loop_lookup cfg items m0 m k :
  list_loop cfg items m0 = inr m ->
  (m !! k = m0 !! k
   /\ forall obj, obj ∈ items -> oiSize obj <> 0 ->
        generateSnapshotConfigMapKey (listed cfg obj) <> k)
  \/ (exists obj, obj ∈ items /\ oiSize obj <> 0
        /\ generateSnapshotConfigMapKey (listed cfg obj) = k
        /\ m !! k = Some (listed cfg obj)).
Proof.
  revert m0. induction items as [|obj items IH]; intros m0 Hloop.
  - injection Hloop as <-. left. split; [reflexivity|].
    intros obj Hin. now apply not_elem_of_nil in Hin.
  - cbn [list_loop] in Hloop. destruct (Err obj); [discriminate|].
    destruct (Z.eqb_spec (oiSize obj) 0) as [Hz|Hnz].
    + destruct (IH _ Hloop) as [[E Hno]|(obj' & Hin & Hs & Hk & E)].
      * left. split; [exact E|]. intros o Hin Hs.
        apply elem_of_cons in Hin as [->|Hin]; [congruence|now apply Hno].
      * right. exists obj'. split; [now apply list_elem_of_further|easy].
    + destruct (IH _ Hloop) as [[E Hno]|(obj' & Hin & Hs & Hk & E)].
      * destruct (decide (generateSnapshotConfigMapKey (listed cfg obj) = k))
          as [Hk|Hk].
        -- right. exists obj. split; [apply list_elem_of_here|].
           split; [exact Hnz|]. split; [exact Hk|].
           rewrite E, <- Hk. apply lookup_insert_eq.
        -- left. split.
           ++ rewrite E. now apply lookup_insert_ne.
           ++ intros o Hin Hs.
              apply elem_of_cons in Hin as [->|Hin]; [exact Hk|now apply Hno].
      * right. exists obj'. split; [now apply list_elem_of_further|easy].
Qed.

Lemma listed_Size cfg obj : Size (listed cfg obj) = oiSize obj.
Proof.
  unfold listed. destruct (CutSuffix _ _) as [basename compressed].
  now destruct (Strconv.ParseInt _) as [parsed err].
Qed.

Lemma info_of_size o : oiSize (Minio.info_of o) <> 0 <-> objData o <> [].
Proof. cbn. destruct (objData o); cbn; split; intros; (congruence || lia). Qed.

Lemma under_empty o : Minio.under EmptyString o = true.
Proof.
  unfold Minio.under, HasPrefix, len. cbn [bytes list_ascii_of_string length].
  rewrite take_0. reflexivity.
Qed.

(** The entries of size other than zero that [listSnapshots] receives
    are the objects its listing reaches that hold data. *)
Lemma listSnapshots_entries folder os obj :
  let loo :=
    if negb (is_empty folder)
    then {| Minio.Prefix := folder; Minio.Recursive := true |}
    else {| Minio.Prefix := EmptyString; Minio.Recursive := false |} in
  (obj ∈ Minio.entries loo os /\ oiSize obj <> 0)
  <-> exists o, o ∈ os /\ reached folder o /\ objData o <> []
                /\ obj = Minio.info_of o.
Proof.
  cbv zeta. unfold reached, Minio.entries.
  destruct (is_empty folder) eqn:He; cbn [negb Minio.Prefix Minio.Recursive].
  - apply GoStringFacts.is_empty_true in He. subst folder. split.
    + intros [Hin Hs]. apply elem_of_app in Hin as [Hin|Hin].
      * apply list_elem_of_fmap in Hin as (o & -> & Hin).
        apply list_elem_of_filter in Hin as [Hleaf Hin].
        apply list_elem_of_filter in Hin as [Hu Hin].
        exists o. split; [exact Hin|]. split; [split; [exact Hu|]|].
        -- intros _. exact Hleaf.
        -- split; [now apply info_of_size|reflexivity].
      * apply list_elem_of_fmap in Hin as (p & -> & _). now cbn in Hs.
    + intros (o & Hin & [Hu Hleaf] & Hd & ->).
      split; [|now apply info_of_size].
      apply elem_of_app. left. apply list_elem_of_fmap. exists o.
      split; [reflexivity|]. apply list_elem_of_filter.
      split; [now apply Hleaf|]. apply list_elem_of_filter. now split.
  - apply GoStringFacts.is_empty_false in He. split.
    + intros [Hin Hs]. apply list_elem_of_fmap in Hin as (o & -> & Hin).
      apply list_elem_of_filter in Hin as [Hu Hin].
      exists o. split; [exact Hin|]. split; [now split|].
      split; [now apply info_of_size|reflexivity].
    + intros (o & Hin & [Hu _] & Hd & ->).
      split; [|now apply info_of_size].
      apply list_elem_of_fmap. exists o. split; [reflexivity|].
      apply list_elem_of_filter. now split.
Qed.

(** C8 (as amended): when the listing does not fail, [listSnapshots]
    asks for one listing of the folder prefix, recursive when the folder
    is not empty; with an empty folder the listing is not recursive and
    reaches the top level of the bucket only (the keys without a slash).
    Every object it reaches that holds data has a record in the result
    under its key (the record of an object with the same key), and every
    record of the result comes from such an object: objects of size zero
    do not appear. *)
Theorem listSnapshots_lists_folder (s : S3) (w : World) :
  listFault (faults w) = None ->
  let cfg := config s in
  let folder := EtcdS3Folder cfg in
  let key (o : Object) :=
    generateSnapshotConfigMapKey (listed cfg (Minio.info_of o)) in
  exists snapshots,
    listSnapshots s w
    = (inr snapshots,
       log (CallListObjects (EtcdS3BucketName cfg) folder
              (negb (is_empty folder))) w)
    /\ (forall o, o ∈ objects w -> reached folder o -> objData o <> [] ->
          exists o', o' ∈ objects w /\ reached folder o' /\ objData o' <> []
                     /\ key o' = key o
                     /\ snapshots !! key o = Some (listed cfg (Minio.info_of o')))
    /\ (forall k sf, snapshots !! k = Some sf ->
          Size sf <> 0
          /\ exists o, o ∈ objects w /\ reached folder o /\ objData o <> []
                       /\ sf = listed cfg (Minio.info_of o) /\ k = key o).
Proof.
  intros Hf. cbv zeta. unfold listSnapshots, Minio.ListObjects.
  cbn [faults log objects]. rewrite Hf.
  set (loo := if negb (is_empty (EtcdS3Folder (config s)))
              then {| Minio.Prefix := EtcdS3Folder (config s);
                      Minio.Recursive := true |}
              else {| Minio.Prefix := EmptyString; Minio.Recursive := false |}).
  destruct (list_loop_total (config s) (Minio.entries loo (objects w)) ∅
              (entries_no_error _ _)) as [m Hm].
  exists m. rewrite Hm. split.
  { f_equal. subst loo.
    destruct (is_empty (EtcdS3Folder (config s))) eqn:He; cbn; [|reflexivity].
    apply GoStringFacts.is_empty_true in He. now rewrite He. }
  pose proof (listSnapshots_entries (EtcdS3Folder (config s)) (objects w))
    as Hent. cbv zeta in Hent. fold loo in Hent.
  split.
  - intros o Hin Hr Hd.
    destruct (list_loop_lookup _ _ _ _
                (generateSnapshotConfigMapKey
                   (listed (config s) (Minio.info_of o))) Hm)
      as [[_ Hno]|(obj' & Hin' & Hs' & Hk' & E)].
    + exfalso. apply (Hno (Minio.info_of o)); [| |reflexivity].
      * apply (Hent (Minio.info_of o)). now exists o.
      * now apply info_of_size.
    + destruct (proj1 (Hent obj') (conj Hin' Hs')) as (o' & Ho' & Hr' & Hd' & ->).
      now exists o'.
  - intros k sf Hk.
    destruct (list_loop_lookup _ _ _ _ k Hm)
      as [[E _]|(obj' & Hin' & Hs' & Hk' & E)].
    + rewrite Hk, lookup_empty in E. discriminate.
    + rewrite Hk in E. injection E as ->.
      destruct (proj1 (Hent obj') (conj Hin' Hs')) as (o' & Ho' & Hr' & Hd' & ->).
      split; [now rewrite listed_Size|]. now exists o'.
Qed.
End Listing.

(** The timestamp is not always what the specification says: digits that
    overflow 64 bits do not
    give their numeric value, and the fallback drops the fraction of a
    second of the last-modified time. *)
Lemma listed_timestamp_not_as_stated :
  let cfg := Sample.control "bucket" "backups" in
  let big := {| Key := "backups/snap-99999999999999999999"; oiSize := 1;
                LastModified := {| sec := 1704067200; nsec := 0 |};
                Err := None |} in
  let odd := {| Key := "backups/snap-latest"; oiSize := 1;
                LastModified := {| sec := 1704067200; nsec := 500000000 |};
                Err := None |} in
  (trailing_segment (Key big) = bytes "99999999999999999999"
   /\ digits_value (trailing_segment (Key big)) = 99999999999999999999
   /\ CreatedAt (listed cfg big) <> ofUnix 99999999999999999999
   /\ CreatedAt (listed cfg big) = LastModified big)
  /\ (trailing_segment (Key odd) = bytes "latest"
      /\ CreatedAt (listed cfg odd) <> LastModified odd
      /\ CreatedAt (listed cfg odd) = ofUnix 1704067200).
Proof.
  cbv zeta. repeat split; try (vm_compute; reflexivity);
    vm_compute; discriminate.
Qed.

(** With an empty folder an object below the top level is not listed:
    the result is empty although the bucket holds an object with data. *)
Lemma listSnapshots_empty_folder_misses_nested :
  let w := Sample.world
             [Sample.object "node1/etcd-snapshot-node1-1704067200" "data"
                1704067200] ∅ in
  let s := Sample.handle (Sample.control "bucket" EmptyString) in
  EtcdS3Folder (config s) = EmptyString
  /\ (fun o => (objKey o, length (objData o))) <$> objects w
     = [("node1/etcd-snapshot-node1-1704067200", 4%nat)]
  /\ fst (listSnapshots (pkg := Sample.package) s w) = inr ∅.
Proof. vm_compute. repeat split. Qed.

Lemma listSnapshots_lists_folder_witness :
  let w := Sample.world
             [Sample.object "backups/etcd-snapshot-node1-1704067200" "data"
                1704067200;
              Sample.object "backups/marker" EmptyString 1704067200] ∅ in
  let s := Sample.handle (Sample.control "bucket" "backups") in
  listFault (faults w) = None
  /\ exists snapshots,
       fst (listSnapshots (pkg := Sample.package) s w) = inr snapshots
       /\ forall k sf, snapshots !! k = Some sf -> Size sf <> 0.
Proof.
  intros w s. split; [reflexivity|].
  destruct (listSnapshots_lists_folder (pkg := Sample.package) s w eq_refl)
    as (snapshots & E & _ & Hall).
  exists snapshots. split; [now rewrite E|].
  intros k sf Hk. exact (proj1 (Hall k sf Hk)).
Defined.

(** ** Download *)

Section Downloading.
Context {pkg : Package}.

(** C2 (as amended): when the call of [GetObject] itself returns an
    error, [Download] returns no error and is a no-op: no request is
    sent, no file is created and the restore path is unchanged. *)
Theorem Download_rejected_request_is_noop (s : S3) (w : World) (e : error) :
  getObjectCheck (faults w) (EtcdS3BucketName (config s))
    (GoPath.Join [EtcdS3Folder (config s);
                  ClusterResetRestorePath (config s)]) = Some e ->
  Download s w = (None, s, w).
Proof. intros He. unfold Download, Minio.GetObject. now rewrite He. Qed.

(** A key that is not in the bucket is not such a case: [GetObject]
    accepts it, the destination file is created, and the error of [Stat]
    is returned. *)
Lemma Download_missing_key (s : S3) (w : World) (dir : string) (w1 : World) :
  let cfg := config s in
  let key := GoPath.Join [EtcdS3Folder cfg; ClusterResetRestorePath cfg] in
  let dest := GoFilepath.Join [dir; ClusterResetRestorePath cfg] in
  getObjectCheck (faults w) (EtcdS3BucketName cfg) key = None ->
  snapshotDir cfg true w = (inr dir, w1) ->
  createFault (faults w1) dest = None ->
  statFault (faults w1) key = None ->
  Forall (fun o => objKey o <> key) (objects w1) ->
  exists w',
    Download s w = (Some "The specified key does not exist.", s, w')
    /\ content <$> files w' !! dest = Some [].
Proof.
  intros cfg key dest Hget Hdir Hcreate Hstat Hmiss.
  unfold Download, Minio.GetObject. fold cfg. fold key.
  rewrite Hget, Hdir. fold dest.
  unfold OS.Create. rewrite Hcreate.
  unfold Minio.Stat. cbn [Minio.hKey Minio.hBucket faults log set_files objects].
  rewrite Hstat.
  replace (list_find (fun o => objKey o = key) (objects w1)) with
    (@None (nat * Object)).
  2:{ symmetry. apply list_find_None. exact Hmiss. }
  eexists. split; [reflexivity|].
  cbn [files log set_files]. now rewrite lookup_insert_eq.
Qed.

End Downloading.

(** On a sample world whose bucket is empty, [Download] returns the error
    of [Stat] and leaves the destination file behind, created and empty. *)
Lemma Download_missing_key_is_an_error :
  let s := Sample.handle (Sample.control "bucket" "backups") in
  let w := Sample.world [] ∅ in
  let '(err, s', w') := Download (pkg := Sample.package) s w in
  objects w = []
  /\ err = Some "The specified key does not exist."
  /\ files w'
       !! "/var/lib/rancher/k3s/server/db/snapshots/etcd-snapshot-node1-1704067200"
     = Some {| content := []; mode := 438 |}
  /\ calls w' = [CallStatObject "bucket" "backups/etcd-snapshot-node1-1704067200"].
Proof. vm_compute. repeat split. Qed.

Lemma Download_rejected_request_is_noop_witness :
  let cfg := Sample.control "bucket" EmptyString in
  let s := {| config := set_ClusterResetRestorePath EmptyString cfg;
              client := client (Sample.handle cfg) |} in
  let w := Sample.world [] ∅ in
  getObjectCheck (faults w) (EtcdS3BucketName (config s))
    (GoPath.Join [EtcdS3Folder (config s); ClusterResetRestorePath (config s)])
  = Some "Object name cannot be empty"
  /\ Download (pkg := Sample.package) s w = (None, s, w).
Proof.
  intros cfg s w. split; [reflexivity|].
  apply (Download_rejected_request_is_noop (pkg := Sample.package) s w
           "Object name cannot be empty").
  reflexivity.
Defined.

(** ** Retention *)

Module TimeFacts.

Lemma Before_iff t u :
  Before t u = true
  <-> sec t < sec u \/ (sec t = sec u /\ nsec t < nsec u).
Proof.
  unfold Before. rewrite orb_true_iff, andb_true_iff.
  now rewrite !Z.ltb_lt, Z.eqb_eq.
Qed.

Lemma Before_false_iff t u :
  Before t u = false
  <-> sec u < sec t \/ (sec t = sec u /\ nsec u <= nsec t).
Proof.
  rewrite <- not_true_iff_false, Before_iff. lia.
Qed.

Lemma Before_same t u :
  Before t u = false -> Before u t = false -> t = u.
Proof.
  rewrite !Before_false_iff. destruct t, u. cbn. intros. f_equal; lia.
Qed.

Lemma newestFirst_strict_weak : strict_weak newestFirst.
Proof.
  unfold newestFirst. split.
  - intros a b. rewrite Before_iff, Before_false_iff. lia.
  - intros a b c. rewrite !Before_false_iff. lia.
Qed.

End TimeFacts.

Lemma collect_all items acc :
  Forall (fun o => Err o = None) items -> collect items acc = inr (acc ++ items).
Proof.
  intros Hall. revert acc. induction Hall as [|o items Ho _ IH]; intros acc.
  - now rewrite app_nil_r.
  - cbn [collect]. rewrite Ho, IH, <- app_assoc. reflexivity.
Qed.

Lemma without_nil os : without [] os = os.
Proof.
  unfold without. induction os as [|o os IH]; [reflexivity|].
  rewrite filter_cons_True by apply not_elem_of_nil. now rewrite IH.
Qed.

Lemma without_cons key ks os :
  without ks (filter (fun o => objKey o ≠ key) os) = without (key :: ks) os.
Proof.
  unfold without. rewrite list_filter_filter. apply list_filter_iff.
  intros o. rewrite not_elem_of_cons. tauto.
Qed.

(** Without faults the removal loop removes the keys it is given, one call
    each, in order. *)
Lemma remove_loop_removes bucket dfs w :
  (forall key, removeFault (faults w) key = None) ->
  exists w',
    remove_loop bucket dfs w = (None, w')
    /\ objects w' = without (Key <$> dfs) (objects w)
    /\ calls w' = calls w ++ ((fun df => CallRemoveObject bucket (Key df)) <$> dfs)
    /\ faults w' = faults w.
Proof.
  revert w. induction dfs as [|df dfs IH]; intros w Hf.
  - exists w. cbn. now rewrite without_nil, app_nil_r.
  - cbn [remove_loop]. unfold Minio.RemoveObject. cbn [faults log].
    rewrite Hf.
    match goal with |- context [remove_loop bucket dfs ?w1] =>
      destruct (IH w1 Hf) as (w' & -> & Ho & Hc & Hfa)
    end.
    exists w'. split; [reflexivity|].
    cbn [objects calls faults set_objects log] in Ho, Hc, Hfa.
    split; [|split; [|exact Hfa]].
    + rewrite Ho. cbn [fmap list_fmap]. apply without_cons.
    + rewrite Hc, <- app_assoc. reflexivity.
Qed.

Lemma NoDup_keys_filter (P : Object -> Prop) `{!forall o, Decision (P o)} os :
  NoDup (objKey <$> os) -> NoDup (objKey <$> filter P os).
Proof.
  induction os as [|o os IH]; [easy|].
  cbn [fmap list_fmap]. rewrite NoDup_cons. intros [Hnin Hnd].
  destruct (decide (P o)).
  - rewrite filter_cons_True by assumption. cbn [fmap list_fmap].
    apply NoDup_cons. split; [|now apply IH].
    intros Hin. apply Hnin. apply list_elem_of_fmap in Hin as (x & -> & Hx).
    apply list_elem_of_filter in Hx as [_ Hx].
    apply list_elem_of_fmap. now exists x.
  - rewrite filter_cons_False by assumption. now apply IH.
Qed.

Lemma matching_without s w ks :
  filter (fun o => Minio.under (snapshotPrefix s) o = true)
    (without ks (objects w))
  = without ks (matching s w).
Proof.
  unfold without, matching. rewrite !list_filter_filter.
  apply list_filter_iff. tauto.
Qed.

Lemma Key_info_of (os : list Object) :
  Key <$> (Minio.info_of <$> os) = objKey <$> os.
Proof. rewrite <- list_fmap_compose. reflexivity. Qed.

Lemma without_info ks (os : list Object) :
  Minio.info_of <$> without ks os
  = filter (fun i => Key i ∉ ks) (Minio.info_of <$> os).
Proof.
  unfold without. induction os as [|o os IH]; [reflexivity|].
  cbn [fmap list_fmap]. destruct (decide (objKey o ∈ ks)) as [Hin|Hnin].
  - rewrite !filter_cons_False by (cbn; tauto). exact IH.
  - rewrite !filter_cons_True by (cbn; tauto). cbn [fmap list_fmap].
    f_equal. exact IH.
Qed.

(** Removing the keys of the tail of a list without duplicate keys leaves
    its head. *)
Lemma filter_keeps_head (kept dropped : list ObjectInfo) :
  NoDup (Key <$> (kept ++ dropped)) ->
  filter (fun i => Key i ∉ Key <$> dropped) (kept ++ dropped) = kept.
Proof.
  rewrite fmap_app, NoDup_app. intros (_ & Hdisj & _).
  rewrite filter_app.
  replace (filter (fun i => Key i ∉ Key <$> dropped) dropped) with (@nil ObjectInfo).
  2:{ symmetry.
      assert (Hsub : forall l : list ObjectInfo, l ⊆ dropped ->
                filter (fun i => Key i ∉ Key <$> dropped) l = []).
      { induction l as [|i l IHl]; intros Hl; [reflexivity|].
        rewrite filter_cons_False.
        - apply IHl. intros x Hx. apply Hl. now apply list_elem_of_further.
        - intros Hnin. apply Hnin. apply list_elem_of_fmap. exists i.
          split; [reflexivity|]. apply Hl. apply list_elem_of_here. }
      now apply Hsub. }
  rewrite app_nil_r.
  assert (Hall : Forall (fun i => Key i ∉ Key <$> dropped) kept).
  { apply Forall_forall. intros i Hi. apply Hdisj.
    apply list_elem_of_fmap. now exists i. }
  clear Hdisj. induction Hall as [|i kept Hi _ IH]; [reflexivity|].
  rewrite filter_cons_True by exact Hi. now rewrite IH.
Qed.

Section Retention.
Context {lib : Libraries}.

(** The contract of [sort.Slice]: the result is a rearrangement of the
    slice, in which no element is less than one that comes before it. *)
Hypothesis sort_Slice_Permutation :
  forall (A : Type) (less : A -> A -> bool) (l : list A),
    sort_Slice less l ≡ₚ l.
Hypothesis sort_Slice_sorted :
  forall (A : Type) (less : A -> A -> bool) (l : list A),
    strict_weak less ->
    StronglySorted (fun a b => less b a = false) (sort_Slice less l).

(** One run without faults: the entries past the retention count are
    removed, after one listing. *)
Lemma snapshotRetention_run (s : S3) (w : World) :
  1 <= EtcdSnapshotRetention (config s) ->
  listFault (faults w) = None ->
  (forall key, removeFault (faults w) key = None) ->
  let infos := Minio.info_of <$> matching s w in
  let deleted :=
    if Z.of_nat (length infos) <=? EtcdSnapshotRetention (config s) then []
    else drop (Z.to_nat (EtcdSnapshotRetention (config s)))
           (sort_Slice newestFirst infos) in
  exists w',
    snapshotRetention s w = (None, w')
    /\ objects w' = without (Key <$> deleted) (objects w)
    /\ calls w'
       = calls w
         ++ CallListObjects (EtcdS3BucketName (config s)) (snapshotPrefix s) true
            :: ((fun df => CallRemoveObject (EtcdS3BucketName (config s)) (Key df))
                  <$> deleted)
    /\ faults w' = faults w.
Proof.
  intros HR Hlist Hremove infos deleted.
  unfold snapshotRetention.
  replace (EtcdSnapshotRetention (config s) <? 1) with false
    by (symmetry; apply Z.ltb_ge; lia).
  unfold Minio.ListObjects. cbn [faults log objects Minio.Prefix Minio.Recursive].
  rewrite Hlist. unfold Minio.entries. cbn [Minio.Prefix Minio.Recursive].
  fold (matching s w). fold infos.
  rewrite collect_all.
  2:{ subst infos. apply Forall_fmap, Forall_forall. now intros. }
  cbn [app]. subst deleted.
  destruct (Z.of_nat (length infos) <=? EtcdSnapshotRetention (config s)).
  - eexists. split; [reflexivity|]. cbn [objects calls faults log fmap list_fmap].
    now rewrite without_nil.
  - match goal with |- context [remove_loop ?b ?d ?w1] =>
      destruct (remove_loop_removes b d w1 Hremove) as (w' & -> & Ho & Hc & Hf)
    end.
    exists w'. split; [reflexivity|].
    cbn [objects calls faults log] in Ho, Hc, Hf.
    split; [exact Ho|]. split; [|exact Hf].
    rewrite Hc, <- app_assoc. reflexivity.
Qed.

(** What is removed: entries of the listing, as many as exceed the
    retention count, none of them newer than an entry that is kept; at
    most the retention count of objects stay under the prefix. *)
Lemma excess_oldest (s : S3) (w : World) :
  1 <= EtcdSnapshotRetention (config s) ->
  NoDup (objKey <$> objects w) ->
  let infos := Minio.info_of <$> matching s w in
  let deleted :=
    if Z.of_nat (length infos) <=? EtcdSnapshotRetention (config s) then []
    else drop (Z.to_nat (EtcdSnapshotRetention (config s)))
           (sort_Slice newestFirst infos) in
  (forall d, d ∈ deleted -> d ∈ infos)
  /\ NoDup (Key <$> deleted)
  /\ Z.of_nat (length deleted)
     = Z.max 0 (Z.of_nat (length infos) - EtcdSnapshotRetention (config s))
  /\ (forall d k, d ∈ deleted -> k ∈ infos -> k ∉ deleted ->
        Before (LastModified k) (LastModified d) = false)
  /\ Z.of_nat (length (without (Key <$> deleted) (matching s w)))
     <= EtcdSnapshotRetention (config s).
Proof.
  intros HR Hnd infos deleted.
  assert (Hkeys : NoDup (Key <$> infos)).
  { subst infos. rewrite Key_info_of. now apply NoDup_keys_filter. }
  subst deleted.
  destruct (Z.leb_spec (Z.of_nat (length infos)) (EtcdSnapshotRetention (config s)))
    as [Hle|Hgt].
  { split; [intros d Hd; now apply not_elem_of_nil in Hd|].
    split; [constructor|]. split; [cbn; lia|].
    split; [intros d k Hd; now apply not_elem_of_nil in Hd|].
    cbn [fmap list_fmap]. rewrite without_nil.
    subst infos. now rewrite length_fmap in Hle. }
  set (n := Z.to_nat (EtcdSnapshotRetention (config s))).
  set (sorted := sort_Slice newestFirst infos).
  pose proof (sort_Slice_Permutation _ newestFirst infos) as Hperm.
  pose proof (sort_Slice_sorted _ newestFirst infos
                TimeFacts.newestFirst_strict_weak) as Hsorted.
  fold sorted in Hperm, Hsorted.
  assert (Hlen : length sorted = length infos) by now apply Permutation_length.
  assert (Hskeys : NoDup (Key <$> sorted)) by now rewrite Hperm.
  rewrite <- (take_drop n sorted) in Hsorted, Hskeys.
  split; [|split; [|split; [|split]]].
  - intros d Hd. rewrite <- Hperm. now apply (subseteq_drop n sorted).
  - rewrite fmap_app in Hskeys. now apply NoDup_app in Hskeys as (_ & _ & ?).
  - rewrite length_drop, Hlen. lia.
  - intros d k Hd Hk Hnk.
    assert (Hk' : k ∈ take n sorted).
    { rewrite <- Hperm, <- (take_drop n sorted) in Hk.
      apply elem_of_app in Hk as [Hk|Hk]; [exact Hk|contradiction]. }
    pose proof (StronglySorted_app_1_elem_of _ _ _ _ _ Hsorted Hk' Hd) as Hrel.
    exact Hrel.
  - assert (E : Minio.info_of <$> without (Key <$> drop n sorted) (matching s w)
                ≡ₚ take n sorted).
    { rewrite without_info. fold infos. rewrite <- Hperm.
      pose proof (filter_keeps_head (take n sorted) (drop n sorted) Hskeys) as Hk.
      rewrite take_drop in Hk. now rewrite Hk. }
    apply Permutation_length in E. rewrite length_fmap in E.
    rewrite E, length_take. lia.
Qed.

(** With five objects of increasing times there is one way to sort them
    newest first. *)
Lemma sort_five (l : list Object) (o1 o2 o3 o4 o5 : Object) :
  l ≡ₚ [o1; o2; o3; o4; o5] ->
  Before (objLastModified o1) (objLastModified o2) = true ->
  Before (objLastModified o2) (objLastModified o3) = true ->
  Before (objLastModified o3) (objLastModified o4) = true ->
  Before (objLastModified o4) (objLastModified o5) = true ->
  sort_Slice newestFirst (Minio.info_of <$> l)
  = Minio.info_of <$> [o5; o4; o3; o2; o1].
Proof.
  intros Hl H12 H23 H34 H45.
  apply TimeFacts.Before_iff in H12, H23, H34, H45.
  apply (StronglySorted_unique_strong (fun a b => newestFirst b a = false)).
  - intros x1 x2 Hx1 Hx2 Hr1 Hr2. unfold newestFirst in Hr1, Hr2.
    pose proof (TimeFacts.Before_same _ _ Hr1 Hr2) as Hsame.
    rewrite (sort_Slice_Permutation _ newestFirst), Hl in Hx1.
    cbn [fmap list_fmap] in Hx1, Hx2.
    repeat (apply elem_of_cons in Hx1 as [->|Hx1]);
      [..|now apply not_elem_of_nil in Hx1];
      repeat (apply elem_of_cons in Hx2 as [->|Hx2]);
      try (now apply not_elem_of_nil in Hx2); try reflexivity;
      exfalso; cbn [LastModified Minio.info_of] in Hsame;
      apply (f_equal (fun t => (sec t, nsec t))) in Hsame;
      injection Hsame as Hs Hn; lia.
  - apply sort_Slice_sorted, TimeFacts.newestFirst_strict_weak.
  - cbn [fmap list_fmap]. unfold newestFirst.
    repeat (apply SSorted_cons; [|
      repeat (apply Forall_cons; split;
                [cbn [LastModified Minio.info_of];
                 apply TimeFacts.Before_false_iff; lia|]);
      apply Forall_nil_2]).
    apply SSorted_nil.
  - rewrite (sort_Slice_Permutation _ newestFirst), Hl.
    cbn [fmap list_fmap]. apply (Permutation_rev [_; _; _; _; _]).
Qed.

(** C1: with a retention count [R] of at least one and [N] objects
    under the snapshot prefix, a run of [snapshotRetention] that meets
    no fault removes nothing when [N <= R]; when [N > R] it removes
    exactly [N - R] of these objects, none of them newer than one it
    keeps, newest first among the removed, and nothing else; a second
    run right after removes nothing.  With [R = 3] and five objects of
    times [T1 < T2 < T3 < T4 < T5], the objects of [T2] and [T1] are
    removed and those of [T3], [T4] and [T5] remain. *)
Theorem snapshotRetention_prunes_oldest (s : S3) (w : World) :
  let R := EtcdSnapshotRetention (config s) in
  let bucket := EtcdS3BucketName (config s) in
  let N := Z.of_nat (length (matching s w)) in
  1 <= R ->
  NoDup (objKey <$> objects w) ->
  listFault (faults w) = None ->
  (forall key, removeFault (faults w) key = None) ->
  exists (deleted : list ObjectInfo) (w' : World),
    snapshotRetention s w = (None, w')
    /\ (N <= R -> deleted = [])
    /\ (R < N -> Z.of_nat (length deleted) = N - R)
    /\ (forall d, d ∈ deleted ->
          exists o, o ∈ matching s w /\ d = Minio.info_of o)
    /\ NoDup (Key <$> deleted)
    /\ (forall d o, d ∈ deleted -> o ∈ matching s w ->
          objKey o ∉ Key <$> deleted ->
          Before (objLastModified o) (LastModified d) = false)
    /\ objects w' = without (Key <$> deleted) (objects w)
    /\ calls w'
       = calls w
         ++ CallListObjects bucket (snapshotPrefix s) true
            :: ((fun d => CallRemoveObject bucket (Key d)) <$> deleted)
    /\ (exists w'',
          snapshotRetention s w' = (None, w'')
          /\ objects w'' = objects w'
          /\ calls w''
             = calls w' ++ [CallListObjects bucket (snapshotPrefix s) true])
    /\ (forall o1 o2 o3 o4 o5,
          R = 3 -> matching s w ≡ₚ [o1; o2; o3; o4; o5] ->
          Before (objLastModified o1) (objLastModified o2) = true ->
          Before (objLastModified o2) (objLastModified o3) = true ->
          Before (objLastModified o3) (objLastModified o4) = true ->
          Before (objLastModified o4) (objLastModified o5) = true ->
          Key <$> deleted = [objKey o2; objKey o1]
          /\ matching s w' ≡ₚ [o3; o4; o5]).
Proof.
  intros R bucket N HR Hnd Hlist Hremove.
  pose proof (snapshotRetention_run s w HR Hlist Hremove) as Hrun.
  pose proof (excess_oldest s w HR Hnd) as Hex.
  cbv zeta in Hrun, Hex.
  set (infos := Minio.info_of <$> matching s w) in *.
  assert (HN : Z.of_nat (length infos) = N).
  { subst infos N. now rewrite length_fmap. }
  rewrite HN in Hrun, Hex. fold R in Hrun, Hex.
  set (deleted := if N <=? R then []
                  else drop (Z.to_nat R) (sort_Slice newestFirst infos)) in *.
  destruct Hrun as (w' & Hrun & Hobjs & Hcalls & Hfaults).
  destruct Hex as (Hsub & Hdn & Hlen & Hold & Hkept).
  fold bucket in Hcalls.
  assert (Hmatch' : matching s w' = without (Key <$> deleted) (matching s w)).
  { unfold matching at 1. rewrite Hobjs. apply matching_without. }
  exists deleted, w'.
  split; [exact Hrun|]. split.
  { intros Hle. subst deleted.
    now replace (N <=? R) with true by (symmetry; apply Z.leb_le; lia). }
  split; [intros Hlt; lia|]. split.
  { intros d Hd. apply Hsub in Hd. subst infos.
    apply list_elem_of_fmap in Hd as (o & -> & Ho). now exists o. }
  split; [exact Hdn|]. split.
  { intros d o Hd Ho Hk. apply (Hold d (Minio.info_of o) Hd).
    - subst infos. apply list_elem_of_fmap. now exists o.
    - intros Hin. apply Hk. apply list_elem_of_fmap. now exists (Minio.info_of o). }
  split; [exact Hobjs|]. split; [exact Hcalls|]. split.
  - assert (Hremove' : forall key, removeFault (faults w') key = None)
      by (intros key; rewrite Hfaults; apply Hremove).
    assert (Hlist' : listFault (faults w') = None) by now rewrite Hfaults.
    destruct (snapshotRetention_run s w' HR Hlist' Hremove')
      as (w'' & Hrun' & Hobjs' & Hcalls' & _).
    cbv zeta in Hrun', Hobjs', Hcalls'. fold R in Hobjs', Hcalls'.
    rewrite length_fmap, Hmatch' in Hobjs', Hcalls'.
    replace (Z.of_nat (length (without (Key <$> deleted) (matching s w))) <=? R)
      with true in Hobjs', Hcalls' by (symmetry; apply Z.leb_le; exact Hkept).
    exists w''. split; [exact Hrun'|].
    cbn [fmap list_fmap] in Hobjs', Hcalls'. rewrite without_nil in Hobjs'.
    split; [exact Hobjs'|exact Hcalls'].
  - intros o1 o2 o3 o4 o5 HR3 Hperm H12 H23 H34 H45.
    assert (Hdel : deleted = Minio.info_of <$> [o2; o1]).
    { subst deleted infos.
      assert (HN5 : N = 5).
      { subst N. apply Permutation_length in Hperm. rewrite Hperm. reflexivity. }
      replace (N <=? R) with false by (symmetry; apply Z.leb_gt; lia).
      rewrite (sort_five _ o1 o2 o3 o4 o5 Hperm H12 H23 H34 H45), HR3.
      reflexivity. }
    split; [now rewrite Hdel|].
    rewrite Hmatch', Hdel. cbn [fmap list_fmap Key Minio.info_of].
    assert (Hk : NoDup (objKey <$> [o1; o2; o3; o4; o5])).
    { rewrite <- Hperm. unfold matching. now apply NoDup_keys_filter. }
    unfold without. rewrite Hperm. cbn [fmap list_fmap] in Hk.
    apply NoDup_cons in Hk as [Hk1 Hk]. apply NoDup_cons in Hk as [Hk2 _].
    rewrite !not_elem_of_cons in Hk1. rewrite !not_elem_of_cons in Hk2.
    destruct Hk1 as (H12' & H13' & H14' & H15' & _).
    destruct Hk2 as (H23' & H24' & H25' & _).
    assert (Hkeep : forall o, objKey o1 <> objKey o -> objKey o2 <> objKey o ->
              objKey o ∉ [objKey o2; objKey o1]).
    { intros o Hn1 Hn2. rewrite !not_elem_of_cons.
      split; [congruence|]. split; [congruence|]. apply not_elem_of_nil. }
    rewrite (filter_cons_False _ o1)
      by (intros Hn; apply Hn; apply list_elem_of_further, list_elem_of_here).
    rewrite (filter_cons_False _ o2) by (intros Hn; apply Hn; apply list_elem_of_here).
    rewrite (filter_cons_True _ o3) by now apply Hkeep.
    rewrite (filter_cons_True _ o4) by now apply Hkeep.
    rewrite (filter_cons_True _ o5) by now apply Hkeep.
    reflexivity.
Qed.

End Retention.

(** *** The sample sort meets the contract of [sort.Slice] *)

Module SampleFacts.
Import Sample.

Lemma insert_Permutation {A} (less : A -> A -> bool) x l :
  insert less x l ≡ₚ x :: l.
Proof.
  induction l as [|y l IH]; cbn [insert]; [reflexivity|].
  destruct (less x y); [reflexivity|].
  rewrite IH. apply Permutation_swap.
Qed.

Lemma insertion_sort_Permutation (A : Type) (less : A -> A -> bool) l :
  insertion_sort less l ≡ₚ l.
Proof.
  induction l as [|x l IH]; cbn [insertion_sort]; [reflexivity|].
  now rewrite insert_Permutation, IH.
Qed.

Lemma insert_sorted {A} (less : A -> A -> bool) x l :
  strict_weak less ->
  StronglySorted (fun a b => less b a = false) l ->
  StronglySorted (fun a b => less b a = false) (insert less x l).
Proof.
  intros [Hasym Hneg] Hs. induction Hs as [|y l Hs IH Hy]; cbn [insert].
  - repeat constructor.
  - destruct (less x y) eqn:Hxy.
    + apply SSorted_cons; [now apply SSorted_cons|].
      apply Forall_cons. split; [now apply Hasym|].
      eapply Forall_impl; [exact Hy|]. cbv beta. intros z Hz.
      apply (Hneg z y x Hz). now apply Hasym.
    + apply SSorted_cons; [exact IH|].
      rewrite insert_Permutation. apply Forall_cons. now split.
Qed.

Lemma insertion_sort_sorted (A : Type) (less : A -> A -> bool) l :
  strict_weak less ->
  StronglySorted (fun a b => less b a = false) (insertion_sort less l).
Proof.
  intros Hsw. induction l as [|x l IH]; cbn [insertion_sort].
  - constructor.
  - now apply insert_sorted.
Qed.

End SampleFacts.

Lemma snapshotRetention_prunes_oldest_witness :
  let s := Sample.handle (Sample.control "bucket" "backups") in
  let w := Sample.world
             [Sample.object "backups/etcd-snapshot-node1-1" "a" 1;
              Sample.object "backups/etcd-snapshot-node1-5" "e" 5;
              Sample.object "backups/etcd-snapshot-node1-3" "c" 3;
              Sample.object "backups/etcd-snapshot-node1-2" "b" 2;
              Sample.object "backups/etcd-snapshot-node1-4" "d" 4;
              Sample.object "elsewhere/note" "n" 0] ∅ in
  1 <= EtcdSnapshotRetention (config s)
  /\ NoDup (objKey <$> objects w)
  /\ listFault (faults w) = None
  /\ (forall key, removeFault (faults w) key = None)
  /\ exists deleted w',
       snapshotRetention (lib := Sample.libraries) s w = (None, w')
       /\ Z.of_nat (length deleted) = 2
       /\ objects w' = without (Key <$> deleted) (objects w).
Proof.
  intros s w.
  assert (H1 : 1 <= EtcdSnapshotRetention (config s)) by (cbn; lia).
  assert (H2 : NoDup (objKey <$> objects w)).
  { cbn. repeat (apply NoDup_cons; split;
                   [rewrite ?not_elem_of_cons; repeat split; try discriminate;
                    apply not_elem_of_nil|]).
    apply NoDup_nil_2. }
  assert (H3 : listFault (faults w) = None) by reflexivity.
  assert (H4 : forall key, removeFault (faults w) key = None) by reflexivity.
  repeat (split; [assumption|]).
  destruct (snapshotRetention_prunes_oldest (lib := Sample.libraries)
              SampleFacts.insertion_sort_Permutation
              SampleFacts.insertion_sort_sorted s w H1 H2 H3 H4)
    as (deleted & w' & Hrun & _ & Hlen & _ & _ & _ & Hobjs & _).
  exists deleted, w'. split; [exact Hrun|]. split; [|exact Hobjs].
  apply Hlen. vm_compute. reflexivity.
Defined.

(** The scenario on the sample world: the objects of times 2 and 1 are
    removed, in this order, and a second run removes nothing. *)
Example snapshotRetention_scenario :
  let s := Sample.handle (Sample.control "bucket" "backups") in
  let w := Sample.world
             [Sample.object "backups/etcd-snapshot-node1-1" "a" 1;
              Sample.object "backups/etcd-snapshot-node1-5" "e" 5;
              Sample.object "backups/etcd-snapshot-node1-3" "c" 3;
              Sample.object "backups/etcd-snapshot-node1-2" "b" 2;
              Sample.object "backups/etcd-snapshot-node1-4" "d" 4;
              Sample.object "elsewhere/note" "n" 0] ∅ in
  let '(err, w') := snapshotRetention (lib := Sample.libraries) s w in
  let '(err', w'') := snapshotRetention (lib := Sample.libraries) s w' in
  err = None
  /\ objKey <$> objects w'
     = ["backups/etcd-snapshot-node1-5"; "backups/etcd-snapshot-node1-3";
        "backups/etcd-snapshot-node1-4"; "elsewhere/note"]
  /\ calls w'
     = [CallListObjects "bucket" "backups/etcd-snapshot" true;
        CallRemoveObject "bucket" "backups/etcd-snapshot-node1-2";
        CallRemoveObject "bucket" "backups/etcd-snapshot-node1-1"]
  /\ err' = None
  /\ objects w'' = objects w'.
Proof. vm_compute. repeat split. Qed.

(** * Further properties of the program *)

(** ** Construction: what [NewS3] sends and when it gives a handle *)

Section ConstructionMore.
Context {lib : Libraries}.

Lemma len_zero s : (len s =? 0)%nat = true <-> s = EmptyString.
Proof.
  unfold len. rewrite Nat.eqb_eq. split.
  - intros Hl. apply GoStringFacts.bytes_inj. now destruct (bytes s).
  - now intros ->.
Qed.

Lemma readS3EndpointCA_world value w :
  let w' := snd (readS3EndpointCA value w) in
  faults w' = faults w
  /\ tlsClientConfig w' = tlsClientConfig w
  /\ calls w'
     = calls w ++ match base64_DecodeString value with
                  | Some _ => []
                  | None => [CallReadFile value]
                  end.
Proof.
  unfold readS3EndpointCA. destruct (base64_DecodeString value).
  - cbn. now rewrite app_nil_r.
  - unfold OS.ReadFile. cbn [files log]. now destruct (files w !! value).
Qed.

Lemma prepareTransport_world config w :
  let w' := snd (prepareTransport config w) in
  faults w' = faults w
  /\ calls w'
     = calls w
       ++ (if is_empty (EtcdS3EndpointCA config) then []
           else match base64_DecodeString (EtcdS3EndpointCA config) with
                | Some _ => []
                | None => [CallReadFile (EtcdS3EndpointCA config)]
                end).
Proof.
  unfold prepareTransport.
  destruct (is_empty (EtcdS3EndpointCA config)); cbn [negb].
  - destruct (EtcdS3 config && EtcdS3SkipSSLVerify config); cbn;
      now rewrite app_nil_r.
  - unfold setTransportCA.
    pose proof (readS3EndpointCA_world (EtcdS3EndpointCA config) w) as Hr.
    cbv zeta in Hr.
    destruct (readS3EndpointCA (EtcdS3EndpointCA config) w) as [[e|ca] w1];
      cbn [snd] in Hr; destruct Hr as (Hf & _ & Hc); [now split|].
    destruct (isValidCertificate ca); cbn; now split.
Qed.

(** The options of the client that [NewS3] builds *)
Lemma NewS3_steps config w :
  EtcdS3BucketName config <> EmptyString ->
  let creds :=
    if (len (EtcdS3AccessKey config) =? 0)%nat
       && (len (EtcdS3SecretKey config) =? 0)%nat
    then NewIAM EmptyString
    else NewStaticV4 (EtcdS3AccessKey config) (EtcdS3SecretKey config)
           EmptyString in
  let opt := {| Creds := creds;
                Secure := negb (EtcdS3Insecure config);
                Region := EtcdS3Region config;
                BucketLookup := bucketLookupType (EtcdS3Endpoint config) |} in
  let bucket := EtcdS3BucketName config in
  match prepareTransport config w with
  | (Some err, w1) => NewS3 config w = (inl err, w1)
  | (None, w1) =>
      let w2 := log (CallNew (EtcdS3Endpoint config) opt) w1 in
      let w3 := log (CallBucketExists bucket) w2 in
      match newFault (faults w) (EtcdS3Endpoint config) with
      | Some e => NewS3 config w = (inl e, w2)
      | None =>
          match bucketExistsResult (faults w) bucket with
          | inl e => NewS3 config w = (inl e, w3)
          | inr false =>
              NewS3 config w
              = (inl ("bucket: " +:+ bucket +:+ " does not exist"), w3)
          | inr true =>
              NewS3 config w
              = (inr {| config := config;
                        client := {| endpoint := EtcdS3Endpoint config;
                                     options := opt |} |}, w3)
          end
      end
  end.
Proof.
  intros Hb. cbv zeta. unfold NewS3.
  apply GoStringFacts.is_empty_false in Hb. rewrite Hb.
  pose proof (prepareTransport_world config w) as Hw. cbv zeta in Hw.
  destruct (prepareTransport config w) as [[err|] w1]; [reflexivity|].
  cbn [snd] in Hw. destruct Hw as [Hf _].
  unfold Minio.New, Minio.BucketExists. cbn [faults log]. rewrite Hf.
  destruct (newFault (faults w) (EtcdS3Endpoint config)); [reflexivity|].
  cbn [faults log]. rewrite Hf.
  destruct (bucketExistsResult (faults w) (EtcdS3BucketName config)) as [e|[|]];
    reflexivity.
Qed.

(** X1: the client is built for the configured endpoint and region, over
    TLS unless the insecure flag is set, with the credentials of the
    instance when both keys are empty and with the static pair of keys
    as soon as one of them is given. *)
Theorem NewS3_client_options
    (config : Control) (w : World) (ep : string) (opts : Options) :
  CallNew ep opts ∈ calls (snd (NewS3 config w)) ->
  CallNew ep opts ∉ calls w ->
  ep = EtcdS3Endpoint config
  /\ Secure opts = negb (EtcdS3Insecure config)
  /\ Region opts = EtcdS3Region config
  /\ BucketLookup opts = bucketLookupType (EtcdS3Endpoint config)
  /\ (EtcdS3AccessKey config = EmptyString ->
      EtcdS3SecretKey config = EmptyString ->
      Creds opts = NewIAM EmptyString)
  /\ (EtcdS3AccessKey config <> EmptyString
      \/ EtcdS3SecretKey config <> EmptyString ->
      Creds opts
      = NewStaticV4 (EtcdS3AccessKey config) (EtcdS3SecretKey config)
          EmptyString).
Proof.
  intros Hin Hnew.
  destruct (decide (EtcdS3BucketName config = EmptyString)) as [Hb|Hb].
  { rewrite NewS3_returns_early in Hin by now apply GoStringFacts.is_empty_true.
    contradiction. }
  pose proof (NewS3_steps config w Hb) as Hs. cbv zeta in Hs.
  pose proof (prepareTransport_world config w) as Hw. cbv zeta in Hw.
  destruct (prepareTransport config w) as [[err|] w1]; cbn [snd] in Hw;
    destruct Hw as [_ Hc].
  { rewrite Hs in Hin. cbn [snd] in Hin. rewrite Hc in Hin.
    apply elem_of_app in Hin as [Hin|Hin]; [contradiction|].
    destruct (is_empty _); [now apply not_elem_of_nil in Hin|].
    destruct (base64_DecodeString _); [now apply not_elem_of_nil in Hin|].
    apply list_elem_of_singleton in Hin. discriminate. }
  assert (Hopt : CallNew ep opts
                 = CallNew (EtcdS3Endpoint config)
                     {| Creds :=
                          if (len (EtcdS3AccessKey config) =? 0)%nat
                             && (len (EtcdS3SecretKey config) =? 0)%nat
                          then NewIAM EmptyString
                          else NewStaticV4 (EtcdS3AccessKey config)
                                 (EtcdS3SecretKey config) EmptyString;
                        Secure := negb (EtcdS3Insecure config);
                        Region := EtcdS3Region config;
                        BucketLookup := bucketLookupType (EtcdS3Endpoint config) |}).
  { assert (Hpre : CallNew ep opts ∉ calls w1).
    { rewrite Hc. intros Hp. apply elem_of_app in Hp as [Hp|Hp]; [contradiction|].
      destruct (is_empty _); [now apply not_elem_of_nil in Hp|].
      destruct (base64_DecodeString _); [now apply not_elem_of_nil in Hp|].
      apply list_elem_of_singleton in Hp. discriminate. }
    destruct (newFault (faults w) (EtcdS3Endpoint config)).
    - rewrite Hs in Hin. cbn [snd calls log] in Hin.
      apply elem_of_app in Hin as [Hin|Hin]; [contradiction|].
      now apply list_elem_of_singleton in Hin.
    - assert (Hin' : CallNew ep opts
                     ∈ (calls w1 ++ [CallNew (EtcdS3Endpoint config)
                          {| Creds :=
                               if (len (EtcdS3AccessKey config) =? 0)%nat
                                  && (len (EtcdS3SecretKey config) =? 0)%nat
                               then NewIAM EmptyString
                               else NewStaticV4 (EtcdS3AccessKey config)
                                      (EtcdS3SecretKey config) EmptyString;
                             Secure := negb (EtcdS3Insecure config);
                             Region := EtcdS3Region config;
                             BucketLookup :=
                               bucketLookupType (EtcdS3Endpoint config) |}])
                       ++ [CallBucketExists (EtcdS3BucketName config)]).
      { destruct (bucketExistsResult (faults w) (EtcdS3BucketName config))
          as [e|[|]]; rewrite Hs in Hin; exact Hin. }
      apply elem_of_app in Hin' as [Hin'|Hin'].
      + apply elem_of_app in Hin' as [Hin'|Hin']; [contradiction|].
        now apply list_elem_of_singleton in Hin'.
      + apply list_elem_of_singleton in Hin'. discriminate. }
  injection Hopt as -> ->. cbn [Secure Region BucketLookup Creds].
  repeat (split; [reflexivity|]). split.
  - intros -> ->. reflexivity.
  - intros Hk.
    destruct ((len (EtcdS3AccessKey config) =? 0)%nat
              && (len (EtcdS3SecretKey config) =? 0)%nat) eqn:E; [|reflexivity].
    apply andb_true_iff in E as [E1 E2]. apply len_zero in E1, E2. tauto.
Qed.

(** X2: [NewS3] gives a handle only for a bucket that the store reported
    to exist, and the handle keeps the configuration it was given; when
    the store reports that the bucket is absent, the error names it. *)
Theorem NewS3_handle_needs_bucket (cfg : Control) (w : World) :
  (forall s w', NewS3 cfg w = (inr s, w') ->
     EtcdS3BucketName cfg <> EmptyString
     /\ bucketExistsResult (faults w) (EtcdS3BucketName cfg) = inr true
     /\ newFault (faults w) (EtcdS3Endpoint cfg) = None
     /\ config s = cfg
     /\ endpoint (client s) = EtcdS3Endpoint cfg
     /\ exists before,
          calls w' = before ++ [CallBucketExists (EtcdS3BucketName cfg)])
  /\ (bucketExistsResult (faults w) (EtcdS3BucketName cfg) = inr false ->
      forall w1, EtcdS3BucketName cfg <> EmptyString ->
      prepareTransport cfg w = (None, w1) ->
      newFault (faults w) (EtcdS3Endpoint cfg) = None ->
      fst (NewS3 cfg w)
      = inl ("bucket: " +:+ EtcdS3BucketName cfg +:+ " does not exist")).
Proof.
  split.
  - intros s w' Hnew.
    destruct (decide (EtcdS3BucketName cfg = EmptyString)) as [Hb|Hb].
    { rewrite NewS3_returns_early in Hnew
        by now apply GoStringFacts.is_empty_true. discriminate. }
    pose proof (NewS3_steps cfg w Hb) as Hs. cbv zeta in Hs.
    destruct (prepareTransport cfg w) as [[err|] w1]; [congruence|].
    destruct (newFault (faults w) (EtcdS3Endpoint cfg)); [congruence|].
    destruct (bucketExistsResult (faults w) (EtcdS3BucketName cfg))
      as [e|[|]]; try congruence.
    rewrite Hs in Hnew. injection Hnew as <- <-.
    split; [exact Hb|]. repeat (split; [reflexivity|]). eexists. reflexivity.
  - intros Hfalse w1 Hb Hp Hn.
    pose proof (NewS3_steps cfg w Hb) as Hs. cbv zeta in Hs.
    rewrite Hp, Hn, Hfalse in Hs. now rewrite Hs.
Qed.

Lemma isValidCertificate_wellFormed ca :
  isValidCertificate ca = true <-> wellFormed ca.
Proof.
  unfold isValidCertificate, wellFormed. split.
  - destruct (pem_Decode ca) as [p|]; [|discriminate].
    destruct (x509_ParseCertificates p) eqn:E; [discriminate|].
    intros _. now exists p.
  - intros (p & -> & ->). reflexivity.
Qed.

(** The three outcomes of [setTransportCA] *)
Lemma setTransportCA_outcome value skip w :
  let w1 := match base64_DecodeString value with
            | Some _ => w
            | None => log (CallReadFile value) w
            end in
  setTransportCA value skip w
  = match caBytes value w with
    | None =>
        (Some ("open " +:+ value +:+ ": no such file or directory"), w1)
    | Some ca =>
        if isValidCertificate ca
        then (None, set_tls (Some {| RootCAs := Some ca;
                                     InsecureSkipVerify := skip |}) w1)
        else (Some invalidCertificate, w1)
    end.
Proof.
  cbv zeta. unfold setTransportCA, readS3EndpointCA, caBytes.
  destruct (base64_DecodeString value) as [ca|].
  - now destruct (isValidCertificate ca).
  - unfold OS.ReadFile. cbn [files log].
    destruct (files w !! value) as [f|]; cbn [fmap option_fmap option_map];
      [|reflexivity].
    now destruct (isValidCertificate (content f)).
Qed.

(** X3: a custom CA that cannot be read or is not a certificate stops
    [NewS3] before any client is built: it returns an error and no
    handle, the transport is as it was, and nothing was called but the
    read of the file when the value is not base64. *)
Theorem NewS3_unusable_CA (cfg : Control) (w : World) :
  EtcdS3BucketName cfg <> EmptyString ->
  EtcdS3EndpointCA cfg <> EmptyString ->
  (caBytes (EtcdS3EndpointCA cfg) w = None
   \/ exists ca, caBytes (EtcdS3EndpointCA cfg) w = Some ca /\ ~ wellFormed ca) ->
  let '(r, w') := NewS3 cfg w in
  (exists e, r = inl e)
  /\ (caBytes (EtcdS3EndpointCA cfg) w = None ->
      r = inl ("open " +:+ EtcdS3EndpointCA cfg
               +:+ ": no such file or directory"))
  /\ tlsClientConfig w' = tlsClientConfig w
  /\ calls w'
     = calls w ++ match base64_DecodeString (EtcdS3EndpointCA cfg) with
                  | Some _ => []
                  | None => [CallReadFile (EtcdS3EndpointCA cfg)]
                  end.
Proof.
  intros Hb Hca Hbad.
  pose proof (NewS3_steps cfg w Hb) as Hs. cbv zeta in Hs.
  unfold prepareTransport in Hs.
  apply GoStringFacts.is_empty_false in Hca. rewrite Hca in Hs. cbn [negb] in Hs.
  rewrite setTransportCA_outcome in Hs.
  assert (Hcalls : forall w0,
            w0 = match base64_DecodeString (EtcdS3EndpointCA cfg) with
                 | Some _ => w
                 | None => log (CallReadFile (EtcdS3EndpointCA cfg)) w
                 end ->
            tlsClientConfig w0 = tlsClientConfig w
            /\ calls w0
               = calls w ++ match base64_DecodeString (EtcdS3EndpointCA cfg) with
                            | Some _ => []
                            | None => [CallReadFile (EtcdS3EndpointCA cfg)]
                            end).
  { intros w0 ->. destruct (base64_DecodeString _); cbn; [|easy].
    now rewrite app_nil_r. }
  destruct Hbad as [Hnone|(ca & Hsome & Hnwf)].
  - rewrite Hnone in Hs. rewrite Hs.
    split; [eauto|]. split; [reflexivity|]. now apply Hcalls.
  - rewrite Hsome in Hs.
    replace (isValidCertificate ca) with false in Hs.
    2:{ symmetry. apply not_true_iff_false. intros Hv.
        now apply Hnwf, isValidCertificate_wellFormed. }
    rewrite Hs. split; [eauto|]. split; [congruence|]. now apply Hcalls.
Qed.

(** X4: with a custom CA that is a well-formed certificate, [NewS3]
    leaves the default transport trusting that CA, with certificate
    verification skipped exactly when the skip-verify flag is set,
    whatever the [EtcdS3] flag is and whether or not the rest of the
    construction succeeds. *)
Theorem NewS3_trusts_custom_CA (cfg : Control) (w : World) (ca : list ascii) :
  EtcdS3BucketName cfg <> EmptyString ->
  EtcdS3EndpointCA cfg <> EmptyString ->
  caBytes (EtcdS3EndpointCA cfg) w = Some ca ->
  wellFormed ca ->
  tlsClientConfig (snd (NewS3 cfg w))
  = Some {| RootCAs := Some ca;
            InsecureSkipVerify := EtcdS3SkipSSLVerify cfg |}.
Proof.
  intros Hb Hca Hsome Hwf. rewrite (NewS3_tls cfg w Hb).
  unfold prepareTransport.
  apply GoStringFacts.is_empty_false in Hca. rewrite Hca. cbn [negb].
  rewrite setTransportCA_outcome, Hsome.
  apply isValidCertificate_wellFormed in Hwf. rewrite Hwf. reflexivity.
Qed.

End ConstructionMore.

(** ** Names, keys and the agreement of [upload] and [listSnapshots] *)

Module NameFacts.
Import GoString GoPath GoStringFacts GoPathFacts.

(** A base name is never empty and, unless it is the root, has no slash. *)
Lemma Base_flat path :
  Base path <> EmptyString
  /\ (Base path = "/" \/ Forall (fun x => x <> slash) (bytes (Base path))).
Proof.
  unfold Base. destruct (is_empty path).
  { split; [discriminate|]. right. repeat constructor. discriminate. }
  cbv zeta.
  set (p1 := take (strip_trailing (bytes path) (length (bytes path))) (bytes path)).
  assert (Hseg : exists p2,
            (if 0 <=? lastIndexByte_loop p1 slash (length p1)
             then drop (Z.to_nat (lastIndexByte_loop p1 slash (length p1) + 1)) p1
             else p1) = p2
            /\ Forall (fun x => x <> slash) p2).
  { destruct (SegmentFacts.after_last_split slash p1)
      as [[Hall _]|(pre & post & E & Hall & _)].
    - rewrite lastIndexByte_loop_none; [|lia|now rewrite firstn_all].
      now exists p1.
    - exists post. split; [|exact Hall]. clearbody p1. subst p1.
      rewrite length_app. cbn [length].
      replace (length pre + S (length post))%nat
        with (length pre + 1 + length post)%nat by lia.
      rewrite lastIndexByte_loop_last; [|lia|now rewrite firstn_all].
      replace (0 <=? Z.of_nat (length pre)) with true
        by (symmetry; apply Z.leb_le; lia).
      replace (Z.to_nat (Z.of_nat (length pre) + 1)) with (length pre + 1)%nat
        by lia.
      replace (pre ++ slash :: post) with ((pre ++ [slash]) ++ post)
        by now rewrite <- app_assoc.
      rewrite drop_app_length'; [reflexivity|]. rewrite length_app. reflexivity. }
  destruct Hseg as (p2 & -> & Hall).
  destruct p2 as [|c p2]; cbn [length Nat.eqb].
  - split; [discriminate|]. now left.
  - split.
    + intros E. apply (f_equal bytes) in E. rewrite bytes_str in E. discriminate.
    + right. now rewrite bytes_str.
Qed.

(** The suffix test sees the name only: a directory in front of it does
    not change it, for a suffix without a slash. *)
Lemma HasSuffix_dir (dir name : list ascii) suffix :
  Forall (fun x => x <> slash) (bytes suffix) ->
  HasSuffix (str (dir ++ slash :: name)) suffix = HasSuffix (str name) suffix.
Proof.
  intros Hs. unfold HasSuffix, len. rewrite !bytes_str.
  rewrite length_app. cbn [length].
  destruct (Nat.leb_spec (length (bytes suffix)) (length name)) as [Hle|Hgt].
  - replace (length (bytes suffix) <=? length dir + S (length name))%nat
      with true by (symmetry; apply Nat.leb_le; lia).
    cbn [andb]. f_equal.
    replace (length dir + S (length name) - length (bytes suffix))%nat
      with (length (dir ++ [slash]) + (length name - length (bytes suffix)))%nat
      by (rewrite length_app; cbn [length]; lia).
    replace (dir ++ slash :: name) with ((dir ++ [slash]) ++ name)
      by now rewrite <- app_assoc.
    now rewrite drop_app_add'.
  - cbn [andb].
    destruct (length (bytes suffix) <=? length dir + S (length name))%nat;
      [|reflexivity].
    cbn [andb]. apply bool_decide_eq_false. intros E.
    assert (Hin : slash ∈ bytes suffix).
    { rewrite <- E.
      rewrite drop_app_le by lia. apply elem_of_app. right.
      apply list_elem_of_here. }
    rewrite Forall_forall in Hs. now apply (Hs slash Hin).
Qed.

End NameFacts.

Lemma listed_fields cfg obj :
  Name (listed cfg obj) = GoPath.Base (Key obj)
  /\ NodeName (listed cfg obj) = "s3"
  /\ Size (listed cfg obj) = oiSize obj
  /\ Compressed (listed cfg obj)
     = HasSuffix (GoPath.Base (Key obj)) compressedExtension
  /\ S3cfg (listed cfg obj) = s3Config_of cfg
  /\ Status (listed cfg obj) = Some successfulSnapshotStatus
  /\ Message (listed cfg obj) = EmptyString.
Proof.
  unfold listed, CutSuffix.
  destruct (HasSuffix (GoPath.Base (Key obj)) compressedExtension);
    destruct (Strconv.ParseInt _) as [parsed err]; repeat split.
Qed.

Lemma upload_fields s snapshot md now w :
  let sf := fst (fst (upload s snapshot md now w)) in
  Name sf = GoFilepath.Base snapshot
  /\ NodeName sf = "s3"
  /\ CreatedAt sf = now
  /\ Compressed sf = HasSuffix snapshot compressedExtension
  /\ S3cfg sf = s3Config_of (config s)
  /\ metadataSource sf = md.
Proof.
  cbv zeta. unfold upload.
  destruct (Minio.FPutObject _ _ _ _ _ _) as [[e|info] w']; repeat split.
Qed.

(** X5: the name of a record, whether [upload] made it from a local path
    or [listSnapshots] from an object key, is a base name: it is not
    empty and it has no slash (unless it is the root itself). *)
Theorem record_names_are_base_names :
  (forall s snapshot md now w,
     let name := Name (fst (fst (upload s snapshot md now w))) in
     name <> EmptyString
     /\ (name = "/" \/ Forall (fun x => x <> GoPath.slash) (bytes name)))
  /\ (forall cfg obj,
        let name := Name (listed cfg obj) in
        name <> EmptyString
        /\ (name = "/" \/ Forall (fun x => x <> GoPath.slash) (bytes name))).
Proof.
  split.
  - intros s snapshot md now w name. subst name.
    rewrite (proj1 (upload_fields s snapshot md now w)).
    apply NameFacts.Base_flat.
  - intros cfg obj name. subst name.
    rewrite (proj1 (listed_fields cfg obj)). apply NameFacts.Base_flat.
Qed.

Section UploadThenList.
Context {pkg : Package}.

Lemma HasPrefix_app (a b : list ascii) : HasPrefix (str (a ++ b)) (str a) = true.
Proof.
  unfold HasPrefix, len. rewrite !GoStringFacts.bytes_str.
  apply andb_true_iff. split.
  - apply Nat.leb_le. rewrite length_app. lia.
  - apply bool_decide_eq_true. now rewrite take_app_length.
Qed.

Lemma listSnapshots_without_fault s w :
  listFault (faults w) = None ->
  fst (listSnapshots s w)
  = list_loop (config s)
      (Minio.entries
         (if negb (is_empty (EtcdS3Folder (config s)))
          then {| Minio.Prefix := EtcdS3Folder (config s); Minio.Recursive := true |}
          else {| Minio.Prefix := EmptyString; Minio.Recursive := false |})
         (objects w)) ∅.
Proof.
  intros Hf. unfold listSnapshots, Minio.ListObjects.
  cbn [faults log objects]. now rewrite Hf.
Qed.

(** X6: a snapshot that was uploaded is found again by the listing.  For
    a plain folder and a file [dir/name] that holds data, a successful
    [upload] stores an object under [folder/name], and the record that
    [listSnapshots] builds for this object agrees with the record that
    [upload] returned on the name, the origin, the size, the compressed
    flag, the storage configuration and the status; the listing has an
    entry under the derived key of that record. *)
Theorem upload_then_list
    (s : S3) (folder dir name : list ascii) (f : File)
    (md : option ConfigMap) (now : Time) (w : World) :
  let snapshot := str (dir ++ GoPath.slash :: name) in
  let key := str (folder ++ GoPath.slash :: name) in
  EtcdS3Folder (config s) = str folder -> plain folder -> plain name ->
  files w !! snapshot = Some f ->
  content f <> [] ->
  putFault (faults w) key = None ->
  listFault (faults w) = None ->
  let '(sf, err, w') := upload s snapshot md now w in
  err = None
  /\ exists o,
       o ∈ objects w' /\ objKey o = key /\ objData o = content f
       /\ let sf' := listed (config s) (Minio.info_of o) in
          Name sf' = Name sf /\ NodeName sf' = NodeName sf
          /\ Size sf' = Size sf /\ Compressed sf' = Compressed sf
          /\ S3cfg sf' = S3cfg sf /\ Status sf' = Status sf
          /\ exists snapshots found,
               fst (listSnapshots s w') = inr snapshots
               /\ snapshots !! generateSnapshotConfigMapKey sf' = Some found
               /\ generateSnapshotConfigMapKey found
                  = generateSnapshotConfigMapKey sf'.
Proof.
  intros snapshot key Hfolder Hpf Hpn Hfile Hdata Hput Hlist.
  assert (Hname : name <> [] /\ Forall (fun x => x <> GoPath.slash) name).
  { destruct name; [easy|]. split; [discriminate|apply Hpn]. }
  destruct Hname as [Hne Hns].
  assert (Hbase : GoFilepath.Base snapshot = str name).
  { unfold GoFilepath.Base. now apply GoPathFacts.Base_dir_name. }
  assert (Hkey : GoPath.Join [EtcdS3Folder (config s); GoFilepath.Base snapshot]
                 = key).
  { rewrite Hfolder, Hbase. now apply GoPathFacts.Join_plain. }
  unfold upload. rewrite Hkey. unfold Minio.FPutObject.
  cbn [files log faults]. rewrite Hfile, Hput.
  split; [reflexivity|].
  set (o := {| objKey := key; objData := content f;
               objContentType :=
                 if HasSuffix snapshot compressedExtension
                 then "application/zip" else "application/octet-stream";
               objLastModified := clock _ |}).
  exists o. split; [apply put_elem_of|]. split; [reflexivity|].
  split; [reflexivity|].
  pose proof (listed_fields (config s) (Minio.info_of o))
    as (HN & HNode & HS & HC & HCfg & HSt & _).
  cbn [Key Minio.info_of objKey o] in HN, HC.
  assert (Hkbase : GoPath.Base key = str name)
    by now apply GoPathFacts.Base_dir_name.
  rewrite Hkbase in HN, HC.
  cbv zeta. cbn [Name NodeName Size Compressed S3cfg Status].
  split; [now rewrite HN, Hbase|]. split; [exact HNode|].
  split; [rewrite HS; reflexivity|]. split.
  { rewrite HC. symmetry. apply NameFacts.HasSuffix_dir.
    repeat constructor; discriminate. }
  split; [exact HCfg|]. split; [exact HSt|].
  match goal with |- context [listSnapshots s ?w1] => set (w' := w1) end.
  assert (Hlist' : listFault (faults w') = None) by exact Hlist.
  rewrite (listSnapshots_without_fault s w' Hlist').
  set (loo := if negb (is_empty (EtcdS3Folder (config s)))
              then {| Minio.Prefix := EtcdS3Folder (config s);
                      Minio.Recursive := true |}
              else {| Minio.Prefix := EmptyString; Minio.Recursive := false |}).
  destruct (list_loop_total (config s) (Minio.entries loo (objects w')) ∅
              (entries_no_error loo (objects w'))) as [m Hm].
  rewrite Hm.
  assert (Hent : Minio.info_of o ∈ Minio.entries loo (objects w')
                 /\ oiSize (Minio.info_of o) <> 0).
  { apply (listSnapshots_entries (EtcdS3Folder (config s)) (objects w')).
    exists o. split; [apply put_elem_of|]. split; [|now split].
    split.
    - rewrite Hfolder. unfold Minio.under. cbn [objKey o]. apply HasPrefix_app.
    - rewrite Hfolder. intros E. apply (f_equal bytes) in E.
      rewrite GoStringFacts.bytes_str in E. now subst folder. }
  destruct (list_loop_lookup _ _ _ _
              (generateSnapshotConfigMapKey (listed (config s) (Minio.info_of o)))
              Hm) as [[_ Hno]|(obj' & _ & _ & Hk' & E)].
  - exfalso. now apply (Hno (Minio.info_of o) (proj1 Hent) (proj2 Hent)).
  - exists m, (listed (config s) obj'). split; [reflexivity|]. now split.
Qed.

End UploadThenList.

(** ** Download: what reaches the disk and the restore path *)

Lemma NoDup_keys_same (os : list Object) (x y : Object) :
  NoDup (objKey <$> os) -> x ∈ os -> y ∈ os -> objKey x = objKey y -> x = y.
Proof.
  induction os as [|o os IH]; intros Hnd Hx Hy Hk.
  - now apply not_elem_of_nil in Hx.
  - cbn [fmap list_fmap] in Hnd. apply NoDup_cons in Hnd as [Hnin Hnd].
    apply elem_of_cons in Hx as [->|Hx]; apply elem_of_cons in Hy as [->|Hy].
    + reflexivity.
    + exfalso. apply Hnin. rewrite Hk. apply list_elem_of_fmap. now exists y.
    + exfalso. apply Hnin. rewrite <- Hk. apply list_elem_of_fmap. now exists x.
    + now apply IH.
Qed.

Lemma CopyN_whole name (src : list ascii) w :
  copyFault (faults w) = None ->
  exists w',
    OS.CopyN name src (Z.of_nat (length src)) w = (None, w')
    /\ content <$> files w' !! name = Some src
    /\ objects w' = objects w /\ faults w' = faults w /\ calls w' = calls w.
Proof.
  intros Hc. unfold OS.CopyN. rewrite Hc.
  replace (Z.of_nat (length src) <? Z.of_nat (length src)) with false
    by (symmetry; apply Z.ltb_irrefl).
  eexists. split; [reflexivity|]. cbn [files set_files objects faults calls].
  rewrite lookup_insert_eq. cbn. now rewrite Nat2Z.id, firstn_all.
Qed.

Lemma Chmod_content name m w :
  let '(err, w') := OS.Chmod name m w in
  content <$> files w' !! name = content <$> files w !! name
  /\ objects w' = objects w
  /\ (err = None -> mode <$> files w' !! name = Some m)
  /\ (is_Some (files w !! name) -> err = chmodFault (faults w) name).
Proof.
  unfold OS.Chmod. destruct (chmodFault (faults w) name) as [e|].
  - split; [reflexivity|]. split; [reflexivity|]. split; [discriminate|].
    reflexivity.
  - destruct (files w !! name) as [f|] eqn:Hf.
    + cbn [files set_files objects]. rewrite lookup_insert_eq. cbn.
      split; [reflexivity|]. split; [reflexivity|]. split; reflexivity.
    + rewrite Hf. split; [reflexivity|]. split; [reflexivity|].
      split; [discriminate|]. intros [x Hx]. discriminate.
Qed.

Section DownloadMore.
Context {pkg : Package}.

(** X7: a download without faults writes the whole object to
    [dir/path], where [dir] is the snapshot directory: the file holds
    exactly the bytes of the object, the restore path of the
    configuration becomes the path of the file, and the result is the
    result of setting its mode to 0600. *)
Theorem Download_copies_object
    (s : S3) (w w1 : World) (dir : string) (o : Object) :
  let cfg := config s in
  let key := GoPath.Join [EtcdS3Folder cfg; ClusterResetRestorePath cfg] in
  let dest := GoFilepath.Join [dir; ClusterResetRestorePath cfg] in
  getObjectCheck (faults w) (EtcdS3BucketName cfg) key = None ->
  snapshotDir cfg true w = (inr dir, w1) ->
  createFault (faults w1) dest = None ->
  statFault (faults w1) key = None ->
  copyFault (faults w1) = None ->
  NoDup (objKey <$> objects w1) -> o ∈ objects w1 -> objKey o = key ->
  let '(err, s', w') := Download s w in
  err = chmodFault (faults w1) dest
  /\ config s' = set_ClusterResetRestorePath dest cfg
  /\ client s' = client s
  /\ content <$> files w' !! dest = Some (objData o)
  /\ (err = None -> mode <$> files w' !! dest = Some 384)
  /\ objects w' = objects w1.
Proof.
  intros cfg key dest Hget Hdir Hcreate Hstat Hcopy Hnd Ho Hk.
  unfold Download, Minio.GetObject. fold cfg. fold key.
  rewrite Hget, Hdir. fold dest.
  unfold OS.Create. rewrite Hcreate.
  unfold Minio.Stat. cbn [Minio.hKey Minio.hBucket faults log set_files objects].
  rewrite Hstat.
  destruct (list_find (fun x => objKey x = key) (objects w1)) as [[i x]|] eqn:Hfind.
  2:{ exfalso. apply list_find_None in Hfind. rewrite Forall_forall in Hfind.
      now apply (Hfind o Ho). }
  apply list_find_Some in Hfind as (Hix & Hxk & _).
  assert (x = o) as ->.
  { apply (NoDup_keys_same (objects w1)); [exact Hnd| |exact Ho|congruence].
    apply list_elem_of_lookup. now exists i. }
  match goal with |- context [OS.CopyN dest (objData o) _ ?w3] =>
    destruct (CopyN_whole dest (objData o) w3 Hcopy)
      as (w4 & -> & Hcontent & Hobjs & Hfaults & _)
  end.
  pose proof (Chmod_content dest 384 w4) as Hch.
  destruct (OS.Chmod dest 384 w4) as [err w5].
  destruct Hch as (Hc5 & Ho5 & Hm5 & He5).
  cbn [objects log set_files faults] in Hobjs, Hfaults.
  split.
  { rewrite He5, Hfaults; [reflexivity|].
    destruct (files w4 !! dest); [eauto|discriminate]. }
  cbn [config client]. repeat (split; [reflexivity|]).
  split; [now rewrite Hc5|]. split; [exact Hm5|]. now rewrite Ho5.
Qed.

(** X8: whatever goes wrong, [Download] changes nothing of the handle but
    the restore path, and changes that only after the whole object was
    copied: either the handle is as it was, or the restore path is the
    path of a file that holds all the bytes of the object with the
    requested key. *)
Theorem Download_restore_path (s : S3) (w : World) :
  let cfg := config s in
  let key := GoPath.Join [EtcdS3Folder cfg; ClusterResetRestorePath cfg] in
  let '(err, s', w') := Download s w in
  s' = s
  \/ (exists dir o,
        config s'
        = set_ClusterResetRestorePath
            (GoFilepath.Join [dir; ClusterResetRestorePath cfg]) cfg
        /\ client s' = client s
        /\ o ∈ objects w' /\ objKey o = key
        /\ content <$> files w' !! ClusterResetRestorePath (config s')
           = Some (objData o)).
Proof.
  cbv zeta. unfold Download, Minio.GetObject.
  destruct (getObjectCheck _ _ _); [now left|].
  destruct (snapshotDir (config s) true w) as [[e|dir] w1]; [now left|].
  unfold OS.Create. destruct (createFault _ _); [now left|].
  unfold Minio.Stat. cbn [Minio.hKey Minio.hBucket faults log set_files objects].
  destruct (statFault _ _); [now left|].
  destruct (list_find _ (objects w1)) as [[i o]|] eqn:Hfind; [|now left].
  apply list_find_Some in Hfind as (Hio & Hok & _).
  unfold OS.CopyN at 1. cbn [faults log set_files].
  destruct (copyFault (faults w1)) as [[k e]|]; [now left|].
  replace (Z.of_nat (length (objData o)) <? Z.of_nat (length (objData o)))
    with false by (symmetry; apply Z.ltb_irrefl).
  match goal with |- context [OS.Chmod ?d ?m ?w4] =>
    pose proof (Chmod_content d m w4) as Hch;
    destruct (OS.Chmod d m w4) as [err w5]
  end.
  destruct Hch as (Hc5 & Ho5 & _ & _).
  right. exists dir, o. cbn [config client ClusterResetRestorePath
                              set_ClusterResetRestorePath].
  split; [reflexivity|]. split; [reflexivity|]. split.
  { rewrite Ho5. cbn [objects set_files log].
    apply list_elem_of_lookup. now exists i. }
  split; [exact Hok|].
  rewrite Hc5. cbn [files set_files]. rewrite lookup_insert_eq. cbn.
  now rewrite Nat2Z.id, firstn_all.
Qed.

End DownloadMore.

(** ** Retention and listing under faults *)

Lemma collect_error items acc e rest :
  Forall (fun o => Err o = None) items ->
  collect (items ++ Minio.error_info e :: rest) acc = inl e.
Proof.
  intros Hall. revert acc. induction Hall as [|o items Ho _ IH]; intros acc.
  - reflexivity.
  - cbn [app collect]. now rewrite Ho.
Qed.

Lemma Forall_take_no_error n opts os :
  Forall (fun o => Err o = None) (take n (Minio.entries opts os)).
Proof. apply Forall_take, entries_no_error. Qed.

(** The removal loop stops at the first key whose removal fails: the keys
    before it are removed, the others are not asked for. *)
Lemma remove_loop_stops bucket (done : list ObjectInfo) d rest e w :
  Forall (fun x => removeFault (faults w) (Key x) = None) done ->
  removeFault (faults w) (Key d) = Some e ->
  exists w',
    remove_loop bucket (done ++ d :: rest) w = (Some e, w')
    /\ objects w' = without (Key <$> done) (objects w)
    /\ calls w'
       = calls w
         ++ ((fun df => CallRemoveObject bucket (Key df)) <$> (done ++ [d])).
Proof.
  intros Hdone Hd. revert w Hdone Hd.
  induction done as [|x done IH]; intros w Hdone Hd.
  - cbn [app remove_loop]. unfold Minio.RemoveObject. cbn [faults log].
    rewrite Hd. eexists. split; [reflexivity|]. cbn.
    now rewrite without_nil.
  - apply Forall_cons in Hdone as [Hx Hdone].
    cbn [app remove_loop]. unfold Minio.RemoveObject. cbn [faults log].
    rewrite Hx.
    match goal with |- context [remove_loop bucket _ ?w1] =>
      destruct (IH w1 Hdone Hd) as (w' & -> & Ho & Hc)
    end.
    exists w'. split; [reflexivity|].
    cbn [objects calls set_objects log] in Ho, Hc. split.
    + rewrite Ho. cbn [fmap list_fmap]. apply without_cons.
    + rewrite Hc, <- app_assoc. reflexivity.
Qed.

(** Whatever fails, the removal loop removes the keys of a first part of
    its list and nothing else. *)
Lemma remove_loop_prefix bucket dfs w :
  exists done rest,
    dfs = done ++ rest
    /\ objects (snd (remove_loop bucket dfs w))
       = without (Key <$> done) (objects w)
    /\ files (snd (remove_loop bucket dfs w)) = files w
    /\ tlsClientConfig (snd (remove_loop bucket dfs w)) = tlsClientConfig w.
Proof.
  revert w. induction dfs as [|d dfs IH]; intros w.
  - exists [], []. cbn. now rewrite without_nil.
  - cbn [remove_loop]. unfold Minio.RemoveObject. cbn [faults log].
    destruct (removeFault (faults w) (Key d)).
    + exists [], (d :: dfs). cbn. now rewrite without_nil.
    + match goal with |- context [remove_loop bucket dfs ?w1] =>
        destruct (IH w1) as (done & rest & -> & Ho & Hf & Ht)
      end.
      exists (d :: done), rest. split; [reflexivity|].
      cbn [objects files tlsClientConfig set_objects log] in Ho, Hf, Ht.
      change (objects (log (CallRemoveObject bucket (Key d)) w))
        with (objects w).
      split; [|now split]. rewrite Ho. cbn [fmap list_fmap].
      apply without_cons.
Qed.

Lemma filter_length_mono {A} (P Q : A -> Prop)
    `{!forall x, Decision (P x)} `{!forall x, Decision (Q x)} (l : list A) :
  (forall x, P x -> Q x) ->
  (length (filter P l) <= length (filter Q l))%nat.
Proof.
  intros HPQ. induction l as [|x l IH]; [reflexivity|].
  destruct (decide (P x)) as [Hp|Hp].
  - rewrite (filter_cons_True P) by exact Hp.
    rewrite (filter_cons_True Q) by now apply HPQ. cbn. lia.
  - rewrite (filter_cons_False P) by exact Hp.
    destruct (decide (Q x)).
    + rewrite (filter_cons_True Q) by assumption. cbn. lia.
    + now rewrite (filter_cons_False Q) by assumption.
Qed.

Section RetentionMore.
Context {lib : Libraries}.

Lemma snapshotRetention_listed (s : S3) (w : World) :
  1 <= EtcdSnapshotRetention (config s) ->
  let w1 := log (CallListObjects (EtcdS3BucketName (config s))
                   (snapshotPrefix s) true) w in
  let infos := Minio.info_of <$> matching s w in
  snapshotRetention s w
  = match listFault (faults w) with
    | Some (n, e) => (Some e, w1)
    | None =>
        if Z.of_nat (length infos) <=? EtcdSnapshotRetention (config s)
        then (None, w1)
        else remove_loop (EtcdS3BucketName (config s))
               (drop (Z.to_nat (EtcdSnapshotRetention (config s)))
                  (sort_Slice newestFirst infos)) w1
    end.
Proof.
  intros HR. cbv zeta. unfold snapshotRetention.
  replace (EtcdSnapshotRetention (config s) <? 1) with false
    by (symmetry; apply Z.ltb_ge; lia).
  unfold Minio.ListObjects. cbn [faults log objects Minio.Prefix Minio.Recursive].
  destruct (listFault (faults w)) as [[n e]|].
  - rewrite collect_error; [reflexivity|apply Forall_take_no_error].
  - unfold Minio.entries. cbn [Minio.Prefix Minio.Recursive].
    fold (matching s w). rewrite collect_all.
    2:{ apply Forall_fmap, Forall_forall. now intros. }
    reflexivity.
Qed.

Lemma snapshotRetention_disabled (s : S3) (w : World) :
  EtcdSnapshotRetention (config s) < 1 -> snapshotRetention s w = (None, w).
Proof.
  intros HR. unfold snapshotRetention.
  now replace (EtcdSnapshotRetention (config s) <? 1) with true
    by (symmetry; apply Z.ltb_lt; lia).
Qed.

(** X9: retention removes nothing unless it is enabled and the listing
    was complete: with a retention count below one it does nothing at
    all, and when the listing reports an error, wherever in the listing,
    that error is returned and no removal is asked for. *)
Theorem snapshotRetention_needs_complete_listing (s : S3) (w : World) :
  (EtcdSnapshotRetention (config s) < 1 -> snapshotRetention s w = (None, w))
  /\ (forall n e,
        1 <= EtcdSnapshotRetention (config s) ->
        listFault (faults w) = Some (n, e) ->
        snapshotRetention s w
        = (Some e,
           log (CallListObjects (EtcdS3BucketName (config s))
                  (snapshotPrefix s) true) w)).
Proof.
  split.
  - apply snapshotRetention_disabled.
  - intros n e HR Hf. rewrite (snapshotRetention_listed s w HR). cbv zeta.
    now rewrite Hf.
Qed.

(** X10: the first removal that fails ends the run: its error is
    returned, the entries that come before it in the removal order are
    gone from the bucket and stay gone, and no removal is asked for the
    entries after it. *)
Theorem snapshotRetention_stops_at_first_failure
    (s : S3) (w : World) (done : list ObjectInfo) (d : ObjectInfo)
    (rest : list ObjectInfo) (e : error) :
  let R := EtcdSnapshotRetention (config s) in
  let bucket := EtcdS3BucketName (config s) in
  let infos := Minio.info_of <$> matching s w in
  1 <= R -> R < Z.of_nat (length infos) ->
  listFault (faults w) = None ->
  drop (Z.to_nat R) (sort_Slice newestFirst infos) = done ++ d :: rest ->
  Forall (fun x => removeFault (faults w) (Key x) = None) done ->
  removeFault (faults w) (Key d) = Some e ->
  exists w',
    snapshotRetention s w = (Some e, w')
    /\ objects w' = without (Key <$> done) (objects w)
    /\ calls w'
       = calls w
         ++ CallListObjects bucket (snapshotPrefix s) true
            :: ((fun df => CallRemoveObject bucket (Key df)) <$> (done ++ [d])).
Proof.
  intros R bucket infos HR HN Hlist Hdrop Hdone Hd.
  rewrite (snapshotRetention_listed s w HR). cbv zeta. rewrite Hlist.
  fold infos R bucket.
  replace (Z.of_nat (length infos) <=? R) with false
    by (symmetry; apply Z.leb_gt; lia).
  rewrite Hdrop.
  match goal with |- context [remove_loop bucket _ ?w1] =>
    destruct (remove_loop_stops bucket done d rest e w1 Hdone Hd)
      as (w' & -> & Ho & Hc)
  end.
  exists w'. split; [reflexivity|]. split; [exact Ho|].
  rewrite Hc. cbn [calls log]. now rewrite <- app_assoc.
Qed.

(** The contract of [sort.Slice] that safety rests on: the result is a
    rearrangement of the slice. *)
Hypothesis sort_Slice_Permutation :
  forall (A : Type) (less : A -> A -> bool) (l : list A),
    sort_Slice less l ≡ₚ l.

(** X11: whatever fails during a run, retention never removes more than
    the excess: every object of the bucket after the run was there
    before, every object outside the snapshot prefix is still there, at
    least as many objects under the prefix remain as the retention count
    allows (all of them when there are fewer), and neither the local
    files nor the transport are touched. *)
Theorem snapshotRetention_never_removes_more (s : S3) (w : World) :
  NoDup (objKey <$> objects w) ->
  let R := EtcdSnapshotRetention (config s) in
  let w' := snd (snapshotRetention s w) in
  (forall o, o ∈ objects w' -> o ∈ objects w)
  /\ (forall o, o ∈ objects w ->
        Minio.under (snapshotPrefix s) o = false -> o ∈ objects w')
  /\ Z.min (Z.of_nat (length (matching s w))) R
     <= Z.of_nat (length (matching s w'))
  /\ files w' = files w
  /\ tlsClientConfig w' = tlsClientConfig w.
Proof.
  intros Hnd R w'.
  assert (Hsame : forall w0, objects w0 = objects w -> files w0 = files w ->
            tlsClientConfig w0 = tlsClientConfig w ->
            (forall o, o ∈ objects w0 -> o ∈ objects w)
            /\ (forall o, o ∈ objects w ->
                  Minio.under (snapshotPrefix s) o = false -> o ∈ objects w0)
            /\ Z.min (Z.of_nat (length (matching s w))) R
               <= Z.of_nat (length (matching s w0))
            /\ files w0 = files w
            /\ tlsClientConfig w0 = tlsClientConfig w).
  { intros w0 Ho Hf Ht. unfold matching. rewrite Ho.
    split; [easy|]. split; [easy|]. split; [lia|easy]. }
  destruct (Z.ltb_spec R 1) as [Hlt|HR].
  { subst w'. rewrite (snapshotRetention_disabled s w Hlt). now apply Hsame. }
  subst w'. rewrite (snapshotRetention_listed s w HR). cbv zeta.
  destruct (listFault (faults w)) as [[n e]|]; [now apply Hsame|].
  set (infos := Minio.info_of <$> matching s w). fold R.
  destruct (Z.leb_spec (Z.of_nat (length infos)) R) as [Hle|Hgt];
    [now apply Hsame|].
  clear Hsame.
  set (n := Z.to_nat R).
  set (sorted := sort_Slice newestFirst infos).
  match goal with |- context [remove_loop ?b ?d ?w1] =>
    destruct (remove_loop_prefix b d w1) as (done & rest & Hsplit & Ho & Hf & Ht);
    set (w' := snd (remove_loop b d w1)) in *
  end.
  cbn [objects files tlsClientConfig log] in Ho, Hf, Ht.
  pose proof (sort_Slice_Permutation _ newestFirst infos) as Hperm.
  fold sorted in Hperm.
  assert (Hdone : forall k, k ∈ Key <$> done ->
            exists m, m ∈ matching s w /\ objKey m = k).
  { intros k Hk. apply list_elem_of_fmap in Hk as (i & -> & Hi).
    assert (Hi' : i ∈ infos).
    { rewrite <- Hperm. apply (subseteq_drop n sorted). rewrite Hsplit.
      apply elem_of_app. now left. }
    subst infos. apply list_elem_of_fmap in Hi' as (m & -> & Hm). now exists m. }
  split; [|split; [|split; [|now split]]].
  - intros o Hin. rewrite Ho in Hin. unfold without in Hin.
    now apply list_elem_of_filter in Hin as [_ Hin].
  - intros o Hin Hu. rewrite Ho. unfold without. apply list_elem_of_filter.
    split; [|exact Hin]. intros Hk.
    destruct (Hdone _ Hk) as (m & Hm & Hmk).
    unfold matching in Hm. apply list_elem_of_filter in Hm as [Hmu _].
    unfold Minio.under in Hu, Hmu. rewrite Hmk in Hmu. congruence.
  - assert (Hkeys : NoDup (Key <$> sorted)).
    { rewrite Hperm. subst infos. rewrite Key_info_of.
      unfold matching. now apply NoDup_keys_filter. }
    assert (Hkept : length (without (Key <$> drop n sorted) (matching s w))
                    = n).
    { assert (E : Minio.info_of <$> without (Key <$> drop n sorted) (matching s w)
                  ≡ₚ take n sorted).
      { rewrite without_info. fold infos. rewrite <- Hperm.
        rewrite <- (take_drop n sorted) in Hkeys.
        pose proof (filter_keeps_head (take n sorted) (drop n sorted) Hkeys) as Hk.
        rewrite take_drop in Hk. now rewrite Hk. }
      apply Permutation_length in E. rewrite length_fmap in E.
      rewrite E, length_take.
      apply Permutation_length in Hperm. subst infos. lia. }
    assert (Hmatch : matching s w' = without (Key <$> done) (matching s w)).
    { unfold matching at 1. rewrite Ho. apply matching_without. }
    rewrite Hmatch.
    assert (Hmono : (length (without (Key <$> drop n sorted) (matching s w))
                     <= length (without (Key <$> done) (matching s w)))%nat).
    { unfold without. apply filter_length_mono. intros o Hnin Hin.
      apply Hnin. rewrite Hsplit, fmap_app. apply elem_of_app. now left. }
    subst infos. rewrite length_fmap in Hgt. lia.
Qed.

End RetentionMore.

Section ListingMore.
Context {pkg : Package}.

Lemma list_loop_app cfg l1 l2 m :
  list_loop cfg (l1 ++ l2) m
  = match list_loop cfg l1 m with
    | inl e => inl e
    | inr m1 => list_loop cfg l2 m1
    end.
Proof.
  revert m. induction l1 as [|obj l1 IH]; intros m; [reflexivity|].
  cbn [app list_loop]. destruct (Err obj); [reflexivity|].
  destruct (oiSize obj =? 0); apply IH.
Qed.

(** X12: an error of the listing makes [listSnapshots] fail with that
    error, however many objects were listed before it: no partial result
    is returned. *)
Theorem listSnapshots_listing_error (s : S3) (w : World) (n : nat) (e : error) :
  listFault (faults w) = Some (n, e) ->
  fst (listSnapshots s w) = inl e.
Proof.
  intros Hf. unfold listSnapshots, Minio.ListObjects.
  cbn [faults log objects]. rewrite Hf. cbn [fst].
  rewrite list_loop_app.
  match goal with |- context [list_loop ?c (take n ?items) ∅] =>
    destruct (list_loop_total c (take n items) ∅
                (Forall_take_no_error n _ _)) as [m ->]
  end.
  reflexivity.
Qed.

(** X13: the timestamp of a listed record is a whole number of seconds,
    and it is either the last-modified second of the object or a number
    read from the name, which is never negative and fits 63 bits: a
    hyphen in front of the digits separates, it is not a minus sign. *)
Theorem listed_timestamp_range (cfg : Control) (obj : ObjectInfo) :
  nsec (CreatedAt (listed cfg obj)) = 0
  /\ (sec (CreatedAt (listed cfg obj)) = sec (LastModified obj)
      \/ 0 <= sec (CreatedAt (listed cfg obj)) < 2 ^ 63).
Proof.
  rewrite listed_CreatedAt.
  destruct (decimal (trailing_segment (Key obj))) as [v|] eqn:Hd;
    [|split; [reflexivity|now left]].
  destruct (Z.ltb_spec v (2 ^ 63)) as [Hlt|Hge];
    [|split; [reflexivity|now left]].
  split; [reflexivity|]. right. cbn [sec ofUnix]. split; [|exact Hlt].
  unfold decimal in Hd.
  match type of Hd with (if ?c then _ else _) = _ =>
    destruct c eqn:Hc; [|discriminate] end.
  injection Hd as <-. apply andb_true_iff in Hc as [_ Hall].
  now apply (StrconvFacts.digits_value_from_ge _ 0 Hall).
Qed.


End ListingMore.

(** ** The message of a failed upload can be read back *)

Module Base64RoundTrip.
Import GoString Base64 Sample.

Lemma lor_sum Y c k :
  0 <= k -> 0 <= c < 2 ^ k -> Z.lor (Y * 2 ^ k) c = Y * 2 ^ k + c.
Proof.
  intros Hk Hc. rewrite <- Z.add_lor_land.
  replace (Z.land (Y * 2 ^ k) c) with 0; [lia|].
  symmetry. apply Z.bits_inj'. intros n Hn.
  rewrite Z.land_spec, Z.bits_0.
  destruct (Z.lt_ge_cases n k) as [Hlt|Hge].
  - now rewrite Z.mul_pow2_bits_low.
  - rewrite <- (Z.mod_small c (2 ^ k)) by lia.
    rewrite Z.mod_pow2_bits_high by lia. apply andb_false_r.
Qed.

Lemma byte_range a : 0 <= byte a < 256.
Proof.
  unfold byte. pose proof (N_ascii_bounded a). lia.
Qed.

Lemma chr_byte v a : v mod 256 = byte a -> chr v = a.
Proof.
  intros Hv. unfold chr. change 255 with (Z.ones 8).
  rewrite Z.land_ones by lia. change (2 ^ 8) with 256. rewrite Hv.
  unfold byte. rewrite N2Z.id. apply ascii_N_embedding.
Qed.

(** The three bytes of a group, packed *)
Lemma packed a b c :
  0 <= a < 256 -> 0 <= b < 256 -> 0 <= c < 256 ->
  Z.lor (Z.lor (Z.shiftl a 16) (Z.shiftl b 8)) c = a * 65536 + b * 256 + c.
Proof.
  intros Ha Hb Hc. rewrite !Z.shiftl_mul_pow2 by lia.
  replace (a * 2 ^ 16) with ((a * 256) * 2 ^ 8) by lia.
  rewrite <- Z.shiftl_mul_pow2, <- Z.shiftl_mul_pow2 by lia.
  rewrite <- Z.shiftl_lor. rewrite !Z.shiftl_mul_pow2 by lia.
  change 256 with (2 ^ 8) at 1. rewrite (lor_sum a b 8) by lia.
  rewrite (lor_sum _ c 8) by lia. lia.
Qed.

(** The four digits of a group *)
Lemma digits_of_group a b c :
  0 <= a < 256 -> 0 <= b < 256 -> 0 <= c < 256 ->
  let val := Z.lor (Z.lor (Z.shiftl a 16) (Z.shiftl b 8)) c in
  Z.land (Z.shiftr val 18) 63 = a / 4
  /\ Z.land (Z.shiftr val 12) 63 = (a mod 4) * 16 + b / 16
  /\ Z.land (Z.shiftr val 6) 63 = (b mod 16) * 4 + c / 64
  /\ Z.land val 63 = c mod 64.
Proof.
  intros Ha Hb Hc val. subst val. rewrite (packed a b c Ha Hb Hc).
  change 63 with (Z.ones 6). rewrite !Z.land_ones, !Z.shiftr_div_pow2 by lia.
  change (2 ^ 18) with 262144. change (2 ^ 12) with 4096.
  change (2 ^ 6) with 64.
  repeat split; Z.div_mod_to_equations; lia.
Qed.

(** Every digit of the alphabet is read back as its value, and none is
    the padding character. *)
Lemma dec_enc v :
  dec (enc v) = Some (Z.land v 63) /\ enc v <> padChar.
Proof.
  unfold enc. change 63 with (Z.ones 6). rewrite Z.land_ones by lia.
  pose proof (Z.mod_pos_bound v (2 ^ 6) ltac:(lia)) as Hb.
  change (2 ^ 6) with 64 in *.
  set (i := v mod 64) in *.
  assert (Hall : forallb
            (fun n => match dec (nth n (bytes encodeStd) padChar) with
                      | Some x => (x =? Z.of_nat n)
                                  && negb (Ascii.eqb (nth n (bytes encodeStd) padChar)
                                             padChar)
                      | None => false
                      end) (seq 0 64) = true) by (vm_compute; reflexivity).
  rewrite forallb_forall in Hall.
  specialize (Hall (Z.to_nat i) ltac:(apply in_seq; lia)).
  destruct (dec (nth (Z.to_nat i) (bytes encodeStd) padChar)) as [x|];
    [|discriminate].
  apply andb_true_iff in Hall as [Hx Hp]. apply Z.eqb_eq in Hx.
  split; [f_equal; lia|].
  apply negb_true_iff, Ascii.eqb_neq in Hp. exact Hp.
Qed.

Lemma decode_group (x y z u : Z) (a b c : ascii) :
  x = byte a / 4 -> y = (byte a mod 4) * 16 + byte b / 16 ->
  z = (byte b mod 16) * 4 + byte c / 64 -> u = byte c mod 64 ->
  chr (Z.lor (Z.shiftl x 2) (Z.shiftr y 4)) = a
  /\ chr (Z.lor (Z.shiftl y 4) (Z.shiftr z 2)) = b
  /\ chr (Z.lor (Z.shiftl z 6) u) = c.
Proof.
  intros -> -> -> ->.
  pose proof (byte_range a) as Ha. pose proof (byte_range b) as Hb.
  pose proof (byte_range c) as Hc.
  rewrite !Z.shiftl_mul_pow2, !Z.shiftr_div_pow2 by lia.
  split; [|split]; apply chr_byte.
  - rewrite lor_sum by (Z.div_mod_to_equations; lia).
    change (2 ^ 2) with 4. change (2 ^ 4) with 16.
    Z.div_mod_to_equations; lia.
  - rewrite lor_sum by (Z.div_mod_to_equations; lia).
    change (2 ^ 2) with 4. change (2 ^ 4) with 16.
    Z.div_mod_to_equations; lia.
  - rewrite lor_sum by (Z.div_mod_to_equations; lia).
    change (2 ^ 6) with 64. Z.div_mod_to_equations; lia.
Qed.

Lemma decode_encode src : decode (encode src) = Some src.
Proof.
  assert (Hgen : forall n src, (length src < n)%nat ->
            decode (encode src) = Some src).
  { clear src. induction n as [|n IH]; intros src Hn; [lia|].
    destruct src as [|a [|b [|c rest]]].
    - reflexivity.
    - cbn [encode].
      pose proof (digits_of_group (byte a) 0 0 (byte_range a)
                    ltac:(lia) ltac:(lia)) as Hd.
      cbv zeta in Hd. rewrite Z.shiftl_0_l, !Z.lor_0_r in Hd.
      destruct Hd as (H1 & H2 & _).
      cbn [decode].
      rewrite (proj1 (dec_enc _)), (proj1 (dec_enc _)), H1, H2.
      rewrite Ascii.eqb_refl. cbn [andb bool_decide decide_rel].
      rewrite bool_decide_eq_true_2 by reflexivity.
      destruct (decode_group (byte a / 4) (byte a mod 4 * 16 + 0 / 16)
                  0 0 a "000"%char "000"%char) as (E & _); try reflexivity.
      change (0 / 16) with 0 in *. rewrite Z.add_0_r in *.
      now rewrite E.
    - cbn [encode].
      pose proof (digits_of_group (byte a) (byte b) 0 (byte_range a)
                    (byte_range b) ltac:(lia)) as Hd.
      cbv zeta in Hd. rewrite !Z.lor_0_r in Hd.
      destruct Hd as (H1 & H2 & H3 & _).
      cbn [decode].
      rewrite (proj1 (dec_enc _)), (proj1 (dec_enc _)), H1, H2.
      rewrite (proj2 (Ascii.eqb_neq _ _) (proj2 (dec_enc _))).
      rewrite (proj1 (dec_enc _)), H3.
      rewrite Ascii.eqb_refl.
      rewrite bool_decide_eq_true_2 by reflexivity.
      destruct (decode_group (byte a / 4) (byte a mod 4 * 16 + byte b / 16)
                  (byte b mod 16 * 4 + 0 / 64) 0 a b "000"%char)
        as (E1 & E2 & _); try reflexivity.
      change (0 / 64) with 0 in *. rewrite Z.add_0_r in *.
      now rewrite E1, E2.
    - cbn [encode].
      pose proof (digits_of_group (byte a) (byte b) (byte c) (byte_range a)
                    (byte_range b) (byte_range c)) as Hd.
      cbv zeta in Hd. destruct Hd as (H1 & H2 & H3 & H4).
      cbn [decode].
      rewrite (proj1 (dec_enc _)), (proj1 (dec_enc _)), H1, H2.
      rewrite (proj2 (Ascii.eqb_neq _ _) (proj2 (dec_enc _))).
      rewrite (proj1 (dec_enc _)), H3.
      rewrite (proj2 (Ascii.eqb_neq _ _) (proj2 (dec_enc _))).
      rewrite (proj1 (dec_enc _)), H4.
      rewrite IH by (cbn [length] in Hn; lia).
      destruct (decode_group _ _ _ _ a b c eq_refl eq_refl eq_refl eq_refl)
        as (E1 & E2 & E3).
      now rewrite E1, E2, E3. }
  apply (Hgen (S (length src))). lia.
Qed.

End Base64RoundTrip.

(** X15: the message of a failed upload loses nothing of the error: a
    decoder of standard base64 reads the text of the error back from it,
    so two different errors never give the same message. *)
Theorem upload_message_reads_back :
  (forall s snapshot md now w e,
     snd (fst (upload s snapshot md now w)) = Some e ->
     Sample.decode (bytes (Message (fst (fst (upload s snapshot md now w)))))
     = Some (bytes e))
  /\ (forall e1 e2 : string,
        Base64.EncodeToString e1 = Base64.EncodeToString e2 -> e1 = e2).
Proof.
  assert (Hrt : forall t, Sample.decode (bytes (Base64.EncodeToString t))
                          = Some (bytes t)).
  { intros t. unfold Base64.EncodeToString.
    rewrite GoStringFacts.bytes_str. apply Base64RoundTrip.decode_encode. }
  split.
  - intros s snapshot md now w e. unfold upload.
    destruct (Minio.FPutObject _ _ _ _ _ _) as [[e'|info] w']; cbn.
    + intros [= ->]. apply Hrt.
    + discriminate.
  - intros e1 e2 E. apply GoStringFacts.bytes_inj.
    pose proof (Hrt e1) as H1. rewrite E, Hrt in H1. congruence.
Qed.

(** ** Upload and retention address the same objects *)

Module KeyFacts.
Import GoString GoPath GoStringFacts GoPathFacts.

(** [Clean] leaves a plain name as it is. *)
Lemma Clean_plain_name (nm : list ascii) : plain nm -> Clean (str nm) = str nm.
Proof.
  intros Hnm. destruct nm as [|a nm']; [easy|].
  destruct Hnm as [Hdot Hall]. pose proof (Forall_inv Hall) as Hslash.
  cbv beta in Hslash. set (nm := a :: nm') in *.
  unfold Clean.
  replace (is_empty (str nm)) with false by reflexivity.
  rewrite bytes_str. cbv zeta.
  assert (H0 : byte_at nm 0 = Some a) by reflexivity.
  rewrite H0, is_byte_Some, (eqb_neq _ _ Hslash).
  assert (Hout : clean_loop (length nm) nm false 0 [] 0 = nm).
  { change (length nm) with (S (length nm')).
    rewrite (clean_loop_element _ _ _ _ _ a H0 Hslash Hdot).
    rewrite drop_0, (element_all nm Hall).
    rewrite clean_loop_end by (cbn; lia).
    reflexivity. }
  rewrite Hout. reflexivity.
Qed.

(** With an empty folder the key is the name itself, without a slash in
    front. *)
Lemma Join_empty_folder (nm : list ascii) :
  plain nm -> Join [EmptyString; str nm] = str nm.
Proof.
  intros Hnm. unfold Join.
  cbn [fmap list_fmap sum_list]. unfold len. rewrite bytes_str.
  destruct nm as [|a nm']; [easy|].
  cbn [bytes list_ascii_of_string length Nat.add]. unfold id.
  cbn [Nat.add Nat.eqb].
  cbn [join_loop length Nat.ltb Nat.leb orb].
  replace (is_empty EmptyString) with true by reflexivity. cbn [negb orb].
  rewrite (plain_bytes_nonempty _ Hnm). cbn [negb orb].
  rewrite bytes_str. cbn [app]. now apply Clean_plain_name.
Qed.

Lemma plain_app (base tail : list ascii) :
  plain base -> Forall (fun x => x <> slash) tail -> plain (base ++ tail).
Proof.
  destruct base as [|a base]; [easy|]. intros [Hdot Hall] Htail.
  split; [exact Hdot|]. cbn [app]. apply Forall_cons.
  apply Forall_cons in Hall as [Ha Hall]. split; [exact Ha|].
  now apply Forall_app.
Qed.

End KeyFacts.

(** X16: what [upload] stores, retention finds.  When the base name of
    the local file starts with the configured snapshot name, the object
    that a successful [upload] stores is one of those under the snapshot
    prefix that [snapshotRetention] lists, for an empty folder (the key
    is then the bare name) as for a plain folder name. *)
Theorem uploaded_snapshot_is_under_prefix
    (s : S3) (dir base tail : list ascii) (f : File)
    (md : option ConfigMap) (now : Time) (w : World) :
  let snapshot := str (dir ++ GoPath.slash :: base ++ tail) in
  EtcdSnapshotName (config s) = str base -> plain base ->
  Forall (fun x => x <> GoPath.slash) tail ->
  (EtcdS3Folder (config s) = EmptyString
   \/ exists folder, EtcdS3Folder (config s) = str folder /\ plain folder) ->
  files w !! snapshot = Some f ->
  (forall key, putFault (faults w) key = None) ->
  let '(sf, err, w') := upload s snapshot md now w in
  err = None
  /\ exists o,
       o ∈ matching s w' /\ objData o = content f
       /\ GoPath.Base (objKey o) = Name sf
       /\ (EtcdS3Folder (config s) = EmptyString -> objKey o = str (base ++ tail)).
Proof.
  intros snapshot Hname Hbase Htail Hfolder Hfile Hput.
  pose proof (KeyFacts.plain_app base tail Hbase Htail) as Hplain.
  assert (Hne : base ++ tail <> []
                /\ Forall (fun x => x <> GoPath.slash) (base ++ tail)).
  { destruct (base ++ tail); [easy|]. split; [discriminate|apply Hplain]. }
  destruct Hne as [Hne Hns].
  assert (Hb : GoFilepath.Base snapshot = str (base ++ tail)).
  { unfold GoFilepath.Base. now apply GoPathFacts.Base_dir_name. }
  assert (Hkeys : exists pre : list ascii,
            GoPath.Join [EtcdS3Folder (config s); GoFilepath.Base snapshot]
            = str (pre ++ base ++ tail)
            /\ snapshotPrefix s = str (pre ++ base)
            /\ GoPath.Base (str (pre ++ base ++ tail)) = str (base ++ tail)
            /\ (EtcdS3Folder (config s) = EmptyString -> pre = [])).
  { unfold snapshotPrefix. rewrite Hb, Hname.
    destruct Hfolder as [->|(folder & -> & Hpf)].
    - exists []. rewrite !KeyFacts.Join_empty_folder by assumption.
      split; [reflexivity|]. split; [reflexivity|]. split; [|reflexivity].
      cbn [app].
      unfold GoPath.Base.
      replace (is_empty (str (base ++ tail))) with false.
      2:{ symmetry. now apply GoPathFacts.plain_bytes_nonempty. }
      rewrite GoStringFacts.bytes_str. cbv zeta.
      destruct (exists_last Hne) as (l' & x & E).
      assert (Hx : x <> GoPath.slash).
      { rewrite E in Hns. apply Forall_app in Hns as [_ Hx].
        now rewrite Forall_singleton in Hx. }
      rewrite E, GoPathFacts.strip_trailing_keeps, firstn_all by exact Hx.
      rewrite <- E.
      rewrite GoPathFacts.lastIndexByte_loop_none;
        [|lia|now rewrite firstn_all].
      cbn. destruct (base ++ tail); [congruence|reflexivity].
    - exists (folder ++ [GoPath.slash]).
      rewrite !GoPathFacts.Join_plain by assumption.
      rewrite <- !app_assoc. cbn [app].
      split; [reflexivity|]. split; [reflexivity|]. split.
      + now apply GoPathFacts.Base_dir_name.
      + intros E. apply (f_equal bytes) in E.
        rewrite GoStringFacts.bytes_str in E. now subst folder. }
  destruct Hkeys as (pre & Hkey & Hprefix & Hkbase & Hpre).
  unfold upload. rewrite Hkey. unfold Minio.FPutObject.
  cbn [files log faults]. rewrite Hfile, Hput.
  split; [reflexivity|].
  eexists. split.
  { unfold matching. apply list_elem_of_filter.
    cbn [objects set_objects log]. split; [|apply put_elem_of].
    unfold Minio.under. cbn [objKey]. rewrite Hprefix.
    rewrite app_assoc. apply HasPrefix_app. }
  split; [reflexivity|].
  cbn [objKey Name]. split; [now rewrite Hkbase, Hb|].
  intros E. now rewrite (Hpre E).
Qed.

(** ** The archive extension and the timestamp *)

Lemma CutSuffix_added (name : list ascii) (suffix : string) :
  CutSuffix (str (name ++ bytes suffix)) suffix = (str name, true).
Proof.
  unfold CutSuffix, HasSuffix, len. rewrite GoStringFacts.bytes_str.
  rewrite length_app.
  replace (length (bytes suffix) <=? length name + length (bytes suffix))%nat
    with true by (symmetry; apply Nat.leb_le; lia).
  replace (length name + length (bytes suffix) - length (bytes suffix))%nat
    with (length name) by lia.
  rewrite drop_app_length, take_app_length.
  now rewrite bool_decide_eq_true_2 by reflexivity.
Qed.

(** X17: compressing a snapshot does not change the timestamp that the
    listing gives it.  An object [dir/name.zip] and an object [dir/name]
    with the same last-modified time get the same timestamp; the first
    is listed as compressed under the name [name.zip], the second as
    not compressed under the name [name]. *)
Theorem listed_timestamp_ignores_extension
    (cfg : Control) (dir name : list ascii) (size size' : Z) (modified : Time) :
  name <> [] -> Forall (fun x => x <> GoPath.slash) name ->
  HasSuffix (str name) compressedExtension = false ->
  let bare := {| Key := str (dir ++ GoPath.slash :: name); oiSize := size;
                 LastModified := modified; Err := None |} in
  let zipped := {| Key := str (dir ++ GoPath.slash
                                  :: name ++ bytes compressedExtension);
                   oiSize := size'; LastModified := modified; Err := None |} in
  CreatedAt (listed cfg zipped) = CreatedAt (listed cfg bare)
  /\ Compressed (listed cfg zipped) = true
  /\ Compressed (listed cfg bare) = false
  /\ Name (listed cfg bare) = str name
  /\ Name (listed cfg zipped) = str name +:+ compressedExtension.
Proof.
  intros Hne Hns Hbare bare zipped.
  assert (Hb1 : GoPath.Base (Key bare) = str name)
    by now apply GoPathFacts.Base_dir_name.
  assert (Hb2 : GoPath.Base (Key zipped) = str (name ++ bytes compressedExtension)).
  { apply GoPathFacts.Base_dir_name.
    - now destruct name.
    - apply Forall_app. split; [exact Hns|]. repeat constructor; discriminate. }
  assert (Hseg : trailing_segment (Key zipped) = trailing_segment (Key bare)).
  { unfold trailing_segment. rewrite Hb1, Hb2, CutSuffix_added.
    unfold CutSuffix. now rewrite Hbare. }
  pose proof (listed_fields cfg bare) as (HN1 & _ & _ & HC1 & _).
  pose proof (listed_fields cfg zipped) as (HN2 & _ & _ & HC2 & _).
  split; [now rewrite !listed_CreatedAt, Hseg|].
  split.
  { rewrite HC2, Hb2.
    pose proof (CutSuffix_added name compressedExtension) as Hc.
    unfold CutSuffix in Hc.
    now destruct (HasSuffix (str (name ++ bytes compressedExtension))
                    compressedExtension). }
  split; [now rewrite HC1, Hb1|]. split; [now rewrite HN1|].
  rewrite HN2, Hb2. apply GoStringFacts.bytes_inj.
  now rewrite GoStringFacts.bytes_app, !GoStringFacts.bytes_str.
Qed.

(** ** Download of a key that cannot be read *)

Section DownloadAbsent.
Context {pkg : Package}.

(** X18: when the request for the object fails, because the key is not
    in the bucket or for another reason, [Download] returns that error
    with the handle unchanged, after one request to the store; the
    destination file has been created by then and is left behind,
    empty. *)
Theorem Download_unreadable_key_leaves_empty_file
    (s : S3) (w w1 : World) (dir : string) :
  let cfg := config s in
  let key := GoPath.Join [EtcdS3Folder cfg; ClusterResetRestorePath cfg] in
  let dest := GoFilepath.Join [dir; ClusterResetRestorePath cfg] in
  getObjectCheck (faults w) (EtcdS3BucketName cfg) key = None ->
  snapshotDir cfg true w = (inr dir, w1) ->
  createFault (faults w1) dest = None ->
  (is_Some (statFault (faults w1) key)
   \/ Forall (fun o => objKey o <> key) (objects w1)) ->
  exists e w',
    Download s w = (Some e, s, w')
    /\ (e = "The specified key does not exist."
        \/ statFault (faults w1) key = Some e)
    /\ content <$> files w' !! dest = Some []
    /\ calls w' = calls w1 ++ [CallStatObject (EtcdS3BucketName cfg) key]
    /\ objects w' = objects w1.
Proof.
  intros cfg key dest Hget Hdir Hcreate Hbad.
  unfold Download, Minio.GetObject. fold cfg. fold key.
  rewrite Hget, Hdir. fold dest.
  unfold OS.Create. rewrite Hcreate.
  unfold Minio.Stat. cbn [Minio.hKey Minio.hBucket faults log set_files objects].
  destruct (statFault (faults w1) key) as [e|] eqn:Hstat.
  - eexists e, _. split; [reflexivity|]. split; [now right|].
    cbn [files log set_files calls objects]. rewrite lookup_insert_eq.
    repeat split.
  - destruct Hbad as [[e He]|Hmiss]; [discriminate|].
    replace (list_find (fun o => objKey o = key) (objects w1)) with
      (@None (nat * Object)).
    2:{ symmetry. apply list_find_None. exact Hmiss. }
    eexists _, _. split; [reflexivity|]. split; [now left|].
    cbn [files log set_files calls objects]. rewrite lookup_insert_eq.
    repeat split.
Qed.

End DownloadAbsent.

(** ** Retention keeps the newest snapshot *)

Section RetentionNewest.
Context {lib : Libraries}.

Hypothesis sort_Slice_Permutation :
  forall (A : Type) (less : A -> A -> bool) (l : list A),
    sort_Slice less l ≡ₚ l.
Hypothesis sort_Slice_sorted :
  forall (A : Type) (less : A -> A -> bool) (l : list A),
    strict_weak less ->
    StronglySorted (fun a b => less b a = false) (sort_Slice less l).

(** X19: with a retention count of at least one, a run without faults
    never removes the newest snapshot: an object under the snapshot
    prefix that is newer than every other object under it is still in
    the bucket after the run. *)
Theorem snapshotRetention_keeps_newest (s : S3) (w : World) (o : Object) :
  1 <= EtcdSnapshotRetention (config s) ->
  NoDup (objKey <$> objects w) ->
  listFault (faults w) = None ->
  (forall key, removeFault (faults w) key = None) ->
  o ∈ matching s w ->
  (forall o', o' ∈ matching s w -> o' <> o ->
     Before (objLastModified o') (objLastModified o) = true) ->
  o ∈ objects (snd (snapshotRetention s w)).
Proof.
  intros HR Hnd Hlist Hremove Ho Hnewest.
  destruct (snapshotRetention_run s w HR Hlist Hremove)
    as (w' & -> & Hobjs & _).
  pose proof (excess_oldest sort_Slice_Permutation sort_Slice_sorted s w HR Hnd)
    as (Hsub & Hdn & Hlen & Hold & _).
  cbv zeta in Hobjs, Hsub, Hdn, Hlen, Hold.
  set (infos := Minio.info_of <$> matching s w) in *.
  set (deleted := if Z.of_nat (length infos) <=? EtcdSnapshotRetention (config s)
                  then []
                  else drop (Z.to_nat (EtcdSnapshotRetention (config s)))
                         (sort_Slice newestFirst infos)) in *.
  cbn [snd]. rewrite Hobjs. unfold without. apply list_elem_of_filter.
  split; [|unfold matching in Ho; now apply list_elem_of_filter in Ho].
  intros Hk. apply list_elem_of_fmap in Hk as (d & Hkd & Hd).
  assert (Hkeys : NoDup (objKey <$> matching s w))
    by (unfold matching; now apply NoDup_keys_filter).
  (* the removed entry is the entry of [o] *)
  assert (Hdo : d = Minio.info_of o).
  { pose proof (Hsub d Hd) as Hin. subst infos.
    apply list_elem_of_fmap in Hin as (m & -> & Hm). f_equal.
    apply (NoDup_keys_same (matching s w)); [exact Hkeys|exact Hm|exact Ho|].
    cbn in Hkd. congruence. }
  subst d.
  (* some entry is kept *)
  assert (Hkept : exists k, k ∈ infos /\ k ∉ deleted).
  { destruct (decide (Forall (fun k => Key k ∈ Key <$> deleted) infos))
      as [Hall|Hnall].
    - exfalso.
      assert (Hndi : NoDup (Key <$> infos)).
      { subst infos. now rewrite Key_info_of. }
      assert (Hle : (length (Key <$> infos) <= length (Key <$> deleted))%nat).
      { apply submseteq_length, NoDup_submseteq; [exact Hndi|].
        intros x Hx. apply list_elem_of_fmap in Hx as (i & -> & Hi).
        rewrite Forall_forall in Hall. now apply Hall. }
      rewrite !length_fmap in Hle.
      assert (Hpos : (0 < length infos)%nat).
      { subst infos. rewrite length_fmap. destruct (matching s w);
          [now apply not_elem_of_nil in Ho|cbn; lia]. }
      lia.
    - apply not_Forall_Exists in Hnall; [|intros; apply _].
      apply Exists_exists in Hnall as (k & Hk & Hnk). exists k.
      split; [exact Hk|]. intros Hin. apply Hnk.
      apply list_elem_of_fmap. now exists k. }
  destruct Hkept as (k & Hk & Hnk).
  pose proof (Hold _ k Hd Hk Hnk) as Hrel.
  subst infos. apply list_elem_of_fmap in Hk as (m & -> & Hm).
  cbn [LastModified Minio.info_of] in Hrel.
  assert (Hmo : m <> o) by (intros ->; contradiction).
  rewrite (Hnewest m Hm Hmo) in Hrel. discriminate.
Qed.

End RetentionNewest.

(** ** The hypotheses above are met on the sample worlds *)

Ltac plain_name :=
  cbn; split;
  [discriminate
  |repeat (apply Forall_cons; split; [discriminate|]); apply Forall_nil_2].

Ltac no_slash :=
  cbn; repeat (apply Forall_cons; split; [discriminate|]); apply Forall_nil_2.

Lemma NewS3_client_options_witness :
  let cfg := Sample.control "bucket" "backups" in
  let w := Sample.world [] ∅ in
  let opts := {| Creds := NewIAM EmptyString; Secure := true;
                 Region := "us-east-1"; BucketLookup := BucketLookupAuto |} in
  CallNew "s3.example.com" opts
    ∈ calls (snd (NewS3 (lib := Sample.libraries) cfg w))
  /\ (CallNew "s3.example.com" opts ∉ calls w)
  /\ Secure opts = negb (EtcdS3Insecure cfg).
Proof.
  intros cfg w opts.
  assert (H1 : CallNew "s3.example.com" opts
                 ∈ calls (snd (NewS3 (lib := Sample.libraries) cfg w)))
    by (vm_compute; apply list_elem_of_here).
  assert (H2 : CallNew "s3.example.com" opts ∉ calls w)
    by apply not_elem_of_nil.
  split; [exact H1|]. split; [exact H2|].
  exact (proj1 (proj2 (NewS3_client_options (lib := Sample.libraries)
                         cfg w "s3.example.com" opts H1 H2))).
Defined.

Lemma NewS3_unusable_CA_witness :
  let cfg := Sample.control_tls "bucket" "backups" true false "/no/such/file" in
  let w := Sample.world [] ∅ in
  EtcdS3BucketName cfg <> EmptyString
  /\ EtcdS3EndpointCA cfg <> EmptyString
  /\ caBytes (lib := Sample.libraries) (EtcdS3EndpointCA cfg) w = None
  /\ tlsClientConfig (snd (NewS3 (lib := Sample.libraries) cfg w))
     = tlsClientConfig w.
Proof.
  intros cfg w.
  assert (H1 : EtcdS3BucketName cfg <> EmptyString) by discriminate.
  assert (H2 : EtcdS3EndpointCA cfg <> EmptyString) by discriminate.
  assert (H3 : caBytes (lib := Sample.libraries) (EtcdS3EndpointCA cfg) w = None)
    by (vm_compute; reflexivity).
  repeat (split; [assumption|]).
  pose proof (NewS3_unusable_CA (lib := Sample.libraries) cfg w H1 H2
                (or_introl H3)) as H.
  destruct (NewS3 (lib := Sample.libraries) cfg w) as [r w'].
  exact (proj1 (proj2 (proj2 H))).
Defined.

Lemma NewS3_trusts_custom_CA_witness :
  let cfg := Sample.control_tls "bucket" "backups" false true Faulty.pemValue in
  let w := Sample.world [] ∅ in
  EtcdS3BucketName cfg <> EmptyString
  /\ EtcdS3EndpointCA cfg <> EmptyString
  /\ caBytes (lib := Sample.libraries) (EtcdS3EndpointCA cfg) w
     = Some (bytes Faulty.pem)
  /\ wellFormed (lib := Sample.libraries) (bytes Faulty.pem)
  /\ tlsClientConfig (snd (NewS3 (lib := Sample.libraries) cfg w))
     = Some {| RootCAs := Some (bytes Faulty.pem); InsecureSkipVerify := true |}.
Proof.
  intros cfg w.
  assert (H1 : EtcdS3BucketName cfg <> EmptyString) by discriminate.
  assert (H2 : EtcdS3EndpointCA cfg <> EmptyString) by (vm_compute; discriminate).
  assert (H3 : caBytes (lib := Sample.libraries) (EtcdS3EndpointCA cfg) w
               = Some (bytes Faulty.pem)) by (vm_compute; reflexivity).
  assert (H4 : wellFormed (lib := Sample.libraries) (bytes Faulty.pem))
    by (eexists; split; vm_compute; reflexivity).
  repeat (split; [assumption|]).
  exact (NewS3_trusts_custom_CA (lib := Sample.libraries) cfg w _ H1 H2 H3 H4).
Defined.

Lemma upload_then_list_witness :
  let s := Sample.handle (Sample.control "bucket" "backups") in
  let folder := bytes "backups" in
  let dir := bytes "/var/lib/snapshots" in
  let name := bytes "snapshot-20240101.zip" in
  let f := {| content := bytes "archive"; mode := 384 |} in
  let w := Sample.world []
             {[ "/var/lib/snapshots/snapshot-20240101.zip" := f ]} in
  EtcdS3Folder (config s) = str folder /\ plain folder /\ plain name
  /\ files w !! str (dir ++ GoPath.slash :: name) = Some f
  /\ content f <> []
  /\ putFault (faults w) (str (folder ++ GoPath.slash :: name)) = None
  /\ listFault (faults w) = None
  /\ snd (fst (upload s (str (dir ++ GoPath.slash :: name)) None (clock w) w))
     = None.
Proof.
  intros s folder dir name f w.
  assert (H1 : EtcdS3Folder (config s) = str folder) by reflexivity.
  assert (H2 : plain folder) by plain_name.
  assert (H3 : plain name) by plain_name.
  assert (H4 : files w !! str (dir ++ GoPath.slash :: name) = Some f)
    by (vm_compute; reflexivity).
  assert (H5 : content f <> []) by discriminate.
  assert (H6 : putFault (faults w) (str (folder ++ GoPath.slash :: name)) = None)
    by reflexivity.
  assert (H7 : listFault (faults w) = None) by reflexivity.
  repeat (split; [assumption|]).
  pose proof (upload_then_list (pkg := Sample.package) s folder dir name f None
                (clock w) w H1 H2 H3 H4 H5 H6 H7) as H.
  destruct (upload s (str (dir ++ GoPath.slash :: name)) None (clock w) w)
    as [[sf err] w'].
  exact (proj1 H).
Defined.

Lemma Download_copies_object_witness :
  let s := Sample.handle (Sample.control "bucket" "backups") in
  let o := Sample.object "backups/etcd-snapshot-node1-1704067200" "data"
             1704067200 in
  let w := Sample.world [o] ∅ in
  let dir := "/var/lib/rancher/k3s/server/db/snapshots" in
  let cfg := config s in
  let key := GoPath.Join [EtcdS3Folder cfg; ClusterResetRestorePath cfg] in
  let dest := GoFilepath.Join [dir; ClusterResetRestorePath cfg] in
  getObjectCheck (faults w) (EtcdS3BucketName cfg) key = None
  /\ snapshotDir (Package := Sample.package) cfg true w = (inr dir, w)
  /\ createFault (faults w) dest = None
  /\ statFault (faults w) key = None
  /\ copyFault (faults w) = None
  /\ NoDup (objKey <$> objects w) /\ o ∈ objects w /\ objKey o = key
  /\ fst (fst (Download (pkg := Sample.package) s w)) = None.
Proof.
  intros s o w dir cfg key dest.
  assert (H1 : getObjectCheck (faults w) (EtcdS3BucketName cfg) key = None)
    by reflexivity.
  assert (H2 : snapshotDir (Package := Sample.package) cfg true w = (inr dir, w))
    by reflexivity.
  assert (H3 : createFault (faults w) dest = None) by reflexivity.
  assert (H4 : statFault (faults w) key = None) by reflexivity.
  assert (H5 : copyFault (faults w) = None) by reflexivity.
  assert (H6 : NoDup (objKey <$> objects w)).
  { cbn. apply NoDup_cons. split; [apply not_elem_of_nil|apply NoDup_nil_2]. }
  assert (H7 : o ∈ objects w) by apply list_elem_of_here.
  assert (H8 : objKey o = key) by (vm_compute; reflexivity).
  repeat (split; [assumption|]).
  pose proof (Download_copies_object (pkg := Sample.package) s w w dir o
                H1 H2 H3 H4 H5 H6 H7 H8) as H.
  destruct (Download (pkg := Sample.package) s w) as [[err s'] w'].
  cbn [fst]. exact (proj1 H).
Defined.

Lemma snapshotRetention_stops_at_first_failure_witness :
  let s := Sample.handle (Sample.control "bucket" "backups") in
  let w := Faulty.world
             (Faulty.refuses "backups/etcd-snapshot-node1-1" "access denied")
             Faulty.five ∅ in
  let done := [Minio.info_of (Sample.object "backups/etcd-snapshot-node1-2" "b" 2)] in
  let d := Minio.info_of (Sample.object "backups/etcd-snapshot-node1-1" "a" 1) in
  let R := EtcdSnapshotRetention (config s) in
  let infos := Minio.info_of <$> matching s w in
  1 <= R /\ R < Z.of_nat (length infos)
  /\ listFault (faults w) = None
  /\ drop (Z.to_nat R) (sort_Slice (Libraries := Sample.libraries) newestFirst infos)
     = done ++ d :: []
  /\ Forall (fun x => removeFault (faults w) (Key x) = None) done
  /\ removeFault (faults w) (Key d) = Some "access denied"
  /\ exists w',
       snapshotRetention (lib := Sample.libraries) s w
       = (Some "access denied", w')
       /\ objects w' = without (Key <$> done) (objects w).
Proof.
  intros s w done d R infos.
  assert (H1 : 1 <= R) by (vm_compute; discriminate).
  assert (H2 : R < Z.of_nat (length infos)) by (vm_compute; reflexivity).
  assert (H3 : listFault (faults w) = None) by reflexivity.
  assert (H4 : drop (Z.to_nat R)
                 (sort_Slice (Libraries := Sample.libraries) newestFirst infos)
               = done ++ d :: []) by (vm_compute; reflexivity).
  assert (H5 : Forall (fun x => removeFault (faults w) (Key x) = None) done)
    by (apply Forall_cons; split; [vm_compute; reflexivity|apply Forall_nil_2]).
  assert (H6 : removeFault (faults w) (Key d) = Some "access denied")
    by (vm_compute; reflexivity).
  repeat (split; [assumption|]).
  destruct (snapshotRetention_stops_at_first_failure (lib := Sample.libraries)
              s w done d [] "access denied" H1 H2 H3 H4 H5 H6)
    as (w' & Hrun & Hobjs & _).
  exists w'. now split.
Defined.

Lemma snapshotRetention_never_removes_more_witness :
  let s := Sample.handle (Sample.control "bucket" "backups") in
  let w := Faulty.world
             (Faulty.refuses "backups/etcd-snapshot-node1-1" "access denied")
             Faulty.five ∅ in
  NoDup (objKey <$> objects w)
  /\ files (snd (snapshotRetention (lib := Sample.libraries) s w)) = files w.
Proof.
  intros s w.
  assert (H1 : NoDup (objKey <$> objects w)).
  { cbn. repeat (apply NoDup_cons; split;
                   [rewrite ?not_elem_of_cons; repeat split; try discriminate;
                    apply not_elem_of_nil|]).
    apply NoDup_nil_2. }
  split; [exact H1|].
  exact (proj1 (proj2 (proj2 (proj2
           (snapshotRetention_never_removes_more (lib := Sample.libraries)
              SampleFacts.insertion_sort_Permutation s w H1))))).
Defined.

Lemma listSnapshots_listing_error_witness :
  let s := Sample.handle (Sample.control "bucket" "backups") in
  let w := Faulty.world (Faulty.listingFails 1 "timeout") Faulty.five ∅ in
  listFault (faults w) = Some (1%nat, "timeout")
  /\ fst (listSnapshots (pkg := Sample.package) s w) = inl "timeout".
Proof.
  intros s w. split; [reflexivity|].
  apply (listSnapshots_listing_error (pkg := Sample.package) s w 1 "timeout").
  reflexivity.
Defined.


Lemma uploaded_snapshot_is_under_prefix_witness :
  let s := Sample.handle (Sample.control "bucket" "backups") in
  let dir := bytes "/var/lib/snapshots" in
  let base := bytes "etcd-snapshot" in
  let tail := bytes "-node1-1704067200" in
  let f := {| content := bytes "data"; mode := 384 |} in
  let w := Sample.world []
             {[ "/var/lib/snapshots/etcd-snapshot-node1-1704067200" := f ]} in
  let snapshot := str (dir ++ GoPath.slash :: base ++ tail) in
  EtcdSnapshotName (config s) = str base /\ plain base
  /\ Forall (fun x => x <> GoPath.slash) tail
  /\ (exists folder, EtcdS3Folder (config s) = str folder /\ plain folder)
  /\ files w !! snapshot = Some f
  /\ (forall key, putFault (faults w) key = None)
  /\ snd (fst (upload s snapshot None (clock w) w)) = None.
Proof.
  intros s dir base tail f w snapshot.
  assert (H1 : EtcdSnapshotName (config s) = str base) by reflexivity.
  assert (H2 : plain base) by plain_name.
  assert (H3 : Forall (fun x => x <> GoPath.slash) tail) by no_slash.
  assert (H4 : exists folder, EtcdS3Folder (config s) = str folder /\ plain folder).
  { exists (bytes "backups"). split; [reflexivity|plain_name]. }
  assert (H5 : files w !! snapshot = Some f) by (vm_compute; reflexivity).
  assert (H6 : forall key, putFault (faults w) key = None) by reflexivity.
  repeat (split; [assumption|]).
  pose proof (uploaded_snapshot_is_under_prefix s dir base tail f None (clock w) w
                H1 H2 H3 (or_intror H4) H5 H6) as H.
  fold snapshot in H.
  destruct (upload s snapshot None (clock w) w) as [[sf err] w'].
  exact (proj1 H).
Defined.

Lemma listed_timestamp_ignores_extension_witness :
  let cfg := Sample.control "bucket" "backups" in
  let dir := bytes "backups" in
  let name := bytes "etcd-snapshot-node1-1704067200" in
  let t := {| sec := 1704067260; nsec := 0 |} in
  name <> [] /\ Forall (fun x => x <> GoPath.slash) name
  /\ HasSuffix (str name) compressedExtension = false
  /\ CreatedAt (listed cfg
       {| Key := str (dir ++ GoPath.slash :: name ++ bytes compressedExtension);
          oiSize := 20; LastModified := t; Err := None |})
     = CreatedAt (listed cfg
         {| Key := str (dir ++ GoPath.slash :: name); oiSize := 40;
            LastModified := t; Err := None |}).
Proof.
  intros cfg dir name t.
  assert (H1 : name <> []) by discriminate.
  assert (H2 : Forall (fun x => x <> GoPath.slash) name) by no_slash.
  assert (H3 : HasSuffix (str name) compressedExtension = false)
    by (vm_compute; reflexivity).
  repeat (split; [assumption|]).
  exact (proj1 (listed_timestamp_ignores_extension cfg dir name 40 20 t H1 H2 H3)).
Defined.

Lemma Download_unreadable_key_leaves_empty_file_witness :
  let s := Sample.handle (Sample.control "bucket" "backups") in
  let w := Sample.world [] ∅ in
  let dir := "/var/lib/rancher/k3s/server/db/snapshots" in
  let cfg := config s in
  let key := GoPath.Join [EtcdS3Folder cfg; ClusterResetRestorePath cfg] in
  let dest := GoFilepath.Join [dir; ClusterResetRestorePath cfg] in
  getObjectCheck (faults w) (EtcdS3BucketName cfg) key = None
  /\ snapshotDir (Package := Sample.package) cfg true w = (inr dir, w)
  /\ createFault (faults w) dest = None
  /\ Forall (fun o => objKey o <> key) (objects w)
  /\ exists e w', Download (pkg := Sample.package) s w = (Some e, s, w').
Proof.
  intros s w dir cfg key dest.
  assert (H1 : getObjectCheck (faults w) (EtcdS3BucketName cfg) key = None)
    by reflexivity.
  assert (H2 : snapshotDir (Package := Sample.package) cfg true w = (inr dir, w))
    by reflexivity.
  assert (H3 : createFault (faults w) dest = None) by reflexivity.
  assert (H4 : Forall (fun o => objKey o <> key) (objects w))
    by apply Forall_nil_2.
  repeat (split; [assumption|]).
  destruct (Download_unreadable_key_leaves_empty_file (pkg := Sample.package)
              s w w dir H1 H2 H3 (or_intror H4)) as (e & w' & Hd & _).
  now exists e, w'.
Defined.

Lemma snapshotRetention_keeps_newest_witness :
  let s := Sample.handle (Sample.control "bucket" "backups") in
  let w := Sample.world Faulty.five ∅ in
  let o := Sample.object "backups/etcd-snapshot-node1-5" "e" 5 in
  1 <= EtcdSnapshotRetention (config s)
  /\ NoDup (objKey <$> objects w)
  /\ listFault (faults w) = None
  /\ (forall key, removeFault (faults w) key = None)
  /\ o ∈ matching s w
  /\ (forall o', o' ∈ matching s w -> o' <> o ->
        Before (objLastModified o') (objLastModified o) = true)
  /\ o ∈ objects (snd (snapshotRetention (lib := Sample.libraries) s w)).
Proof.
  intros s w o.
  assert (H1 : 1 <= EtcdSnapshotRetention (config s)) by (vm_compute; discriminate).
  assert (H2 : NoDup (objKey <$> objects w)).
  { cbn. repeat (apply NoDup_cons; split;
                   [rewrite ?not_elem_of_cons; repeat split; try discriminate;
                    apply not_elem_of_nil|]).
    apply NoDup_nil_2. }
  assert (H3 : listFault (faults w) = None) by reflexivity.
  assert (H4 : forall key, removeFault (faults w) key = None) by reflexivity.
  assert (Hm : matching s w
               = [Sample.object "backups/etcd-snapshot-node1-1" "a" 1;
                  Sample.object "backups/etcd-snapshot-node1-5" "e" 5;
                  Sample.object "backups/etcd-snapshot-node1-3" "c" 3;
                  Sample.object "backups/etcd-snapshot-node1-2" "b" 2;
                  Sample.object "backups/etcd-snapshot-node1-4" "d" 4])
    by (vm_compute; reflexivity).
  assert (H5 : o ∈ matching s w).
  { rewrite Hm. apply list_elem_of_further, list_elem_of_here. }
  assert (H6 : forall o', o' ∈ matching s w -> o' <> o ->
                 Before (objLastModified o') (objLastModified o) = true).
  { intros o' Hin Hne. rewrite Hm in Hin.
    repeat (apply elem_of_cons in Hin as [->|Hin]);
      try reflexivity; try contradiction.
    now apply not_elem_of_nil in Hin. }
  repeat (split; [assumption|]).
  exact (snapshotRetention_keeps_newest (lib := Sample.libraries)
           SampleFacts.insertion_sort_Permutation
           SampleFacts.insertion_sort_sorted s w o H1 H2 H3 H4 H5 H6).
Defined.
